(** * Belmonts Quest: turn rotation and scoring of the team hangman game

    A shallow embedding of the game component [HangmanGame]: the React state
    of the component is a record, every handler is a function from the state
    of the render it runs in to the next state together with the timeouts it
    schedules, and a small discrete-event system puts the handlers, the
    pending timeouts, the score updates awaiting the answer of the database
    and the [useEffect] that draws the hint tiles together.

    The repository holds two revisions of the component.  The development
    follows the newer one (hint cap 4, leaderboard overlay); module
    [Classic] records where the older revision [app/page.tsx] differs. *)

From Stdlib Require Import String Ascii.
From Stdlib Require Import ZArith List Lia Bool Arith PeanoNat.
From Stdlib Require Import Floats Uint63 Permutation Sorted.
Import ListNotations.

(** ** JavaScript built-ins used by the component *)

Module JS.

(** Strings are read over the ASCII alphabet, the code units below 128; on
    these [toUpperCase] moves a..z to A..Z and nothing else. *)
Definition isAscii (c : ascii) : bool := nat_of_ascii c <? 128.

Definition isLower (c : ascii) : bool :=
  (97 <=? nat_of_ascii c) && (nat_of_ascii c <=? 122).

Definition isUpper (c : ascii) : bool :=
  (65 <=? nat_of_ascii c) && (nat_of_ascii c <=? 90).

Definition isAlpha (c : ascii) : bool := isLower c || isUpper c.

Definition upperChar (c : ascii) : ascii :=
  if isLower c then ascii_of_nat (nat_of_ascii c - 32) else c.

Definition lowerChar (c : ascii) : ascii :=
  if isUpper c then ascii_of_nat (nat_of_ascii c + 32) else c.

(** [String.prototype.toUpperCase]. *)
Fixpoint toUpperCase (s : string) : string :=
  match s with
  | EmptyString => EmptyString
  | String c t => String (upperChar c) (toUpperCase t)
  end.

Fixpoint startsWith (s p : string) : bool :=
  match p, s with
  | EmptyString, _ => true
  | String _ _, EmptyString => false
  | String a p', String b s' => Ascii.eqb a b && startsWith s' p'
  end.

(** [String.prototype.includes]: substring test. *)
Fixpoint includes (s sub : string) : bool :=
  startsWith s sub ||
  match s with
  | EmptyString => false
  | String _ t => includes t sub
  end.

(** [s.split("")]: the code units of [s], each as a string of its own. *)
Fixpoint split (s : string) : list string :=
  match s with
  | EmptyString => []
  | String c t => String c EmptyString :: split t
  end.

(** [Array.prototype.includes] on an array of numbers. *)
Definition has (xs : list nat) (x : nat) : bool := existsb (Nat.eqb x) xs.

(** [[...new Set(xs)]]: the first occurrence of every element, in order. *)
Fixpoint uniqueFrom (seen xs : list nat) : list nat :=
  match xs with
  | [] => []
  | x :: t =>
      if has seen x then uniqueFrom seen t
      else x :: uniqueFrom (x :: seen) t
  end.

Definition unique (xs : list nat) : list nat := uniqueFrom [] xs.

(** [xs.sort((a, b) => a - b)]. *)
Fixpoint insertAsc (x : nat) (xs : list nat) : list nat :=
  match xs with
  | [] => [x]
  | y :: t => if x <=? y then x :: y :: t else y :: insertAsc x t
  end.

Fixpoint sortAsc (xs : list nat) : list nat :=
  match xs with
  | [] => []
  | x :: t => insertAsc x (sortAsc t)
  end.

(** [Math.floor] of a finite binary64 number (a product of a length and
    a constant is always finite). *)
Definition floor (x : float) : Z :=
  match Prim2SF x with
  | S754_finite sign m e =>
      let n := if sign then Z.neg m else Z.pos m in
      if (0 <=? e)%Z then (n * 2 ^ e)%Z else (n / 2 ^ (- e))%Z
  | _ => 0%Z
  end.

(** A length as a binary64 number. *)
Definition number (n : nat) : float := PrimFloat.of_uint63 (Uint63.of_Z (Z.of_nat n)).

End JS.

(** ** Data model *)

Record Team := mkTeam { team_id : Z; team_name : string; team_color : string }.

Record GameWord := mkWord { word_id : Z; word : string; points : Z }.

Record GameScore := mkScore { score_team_id : Z; score_points : Z }.

Inductive Phase := playing | won | lost | finished | loading.

Definition maxWrongGuesses : nat := 4.

(** The [useState] cells of the component that the game logic reads or
    writes. *)
Record State := mkState {
  teams : list Team;
  words : list GameWord;
  gameScores : list GameScore;
  currentGameId : option Z;
  currentWordIndex : nat;
  currentTeam : nat;
  originalTeamForQuestion : nat;
  guessedLetters : list string;
  revealedPositions : list nat;
  defaultRevealedPositions : list nat;
  wrongGuesses : nat;
  gameState : Phase;
  inputLetter : string;
  teamsAttempted : list nat;
  isPassedQuestion : bool;
  showRoundStartLeaderboard : bool
}.

Definition setGameScores v s :=
  mkState (teams s) (words s) v (currentGameId s) (currentWordIndex s)
    (currentTeam s) (originalTeamForQuestion s) (guessedLetters s)
    (revealedPositions s) (defaultRevealedPositions s) (wrongGuesses s)
    (gameState s) (inputLetter s) (teamsAttempted s) (isPassedQuestion s)
    (showRoundStartLeaderboard s).

Definition setCurrentWordIndex v s :=
  mkState (teams s) (words s) (gameScores s) (currentGameId s) v
    (currentTeam s) (originalTeamForQuestion s) (guessedLetters s)
    (revealedPositions s) (defaultRevealedPositions s) (wrongGuesses s)
    (gameState s) (inputLetter s) (teamsAttempted s) (isPassedQuestion s)
    (showRoundStartLeaderboard s).

Definition setCurrentTeam v s :=
  mkState (teams s) (words s) (gameScores s) (currentGameId s)
    (currentWordIndex s) v (originalTeamForQuestion s) (guessedLetters s)
    (revealedPositions s) (defaultRevealedPositions s) (wrongGuesses s)
    (gameState s) (inputLetter s) (teamsAttempted s) (isPassedQuestion s)
    (showRoundStartLeaderboard s).

Definition setOriginalTeamForQuestion v s :=
  mkState (teams s) (words s) (gameScores s) (currentGameId s)
    (currentWordIndex s) (currentTeam s) v (guessedLetters s)
    (revealedPositions s) (defaultRevealedPositions s) (wrongGuesses s)
    (gameState s) (inputLetter s) (teamsAttempted s) (isPassedQuestion s)
    (showRoundStartLeaderboard s).

Definition setGuessedLetters v s :=
  mkState (teams s) (words s) (gameScores s) (currentGameId s)
    (currentWordIndex s) (currentTeam s) (originalTeamForQuestion s) v
    (revealedPositions s) (defaultRevealedPositions s) (wrongGuesses s)
    (gameState s) (inputLetter s) (teamsAttempted s) (isPassedQuestion s)
    (showRoundStartLeaderboard s).

Definition setRevealedPositions v s :=
  mkState (teams s) (words s) (gameScores s) (currentGameId s)
    (currentWordIndex s) (currentTeam s) (originalTeamForQuestion s)
    (guessedLetters s) v (defaultRevealedPositions s) (wrongGuesses s)
    (gameState s) (inputLetter s) (teamsAttempted s) (isPassedQuestion s)
    (showRoundStartLeaderboard s).

Definition setDefaultRevealedPositions v s :=
  mkState (teams s) (words s) (gameScores s) (currentGameId s)
    (currentWordIndex s) (currentTeam s) (originalTeamForQuestion s)
    (guessedLetters s) (revealedPositions s) v (wrongGuesses s)
    (gameState s) (inputLetter s) (teamsAttempted s) (isPassedQuestion s)
    (showRoundStartLeaderboard s).

Definition setWrongGuesses v s :=
  mkState (teams s) (words s) (gameScores s) (currentGameId s)
    (currentWordIndex s) (currentTeam s) (originalTeamForQuestion s)
    (guessedLetters s) (revealedPositions s) (defaultRevealedPositions s) v
    (gameState s) (inputLetter s) (teamsAttempted s) (isPassedQuestion s)
    (showRoundStartLeaderboard s).

Definition setGameState v s :=
  mkState (teams s) (words s) (gameScores s) (currentGameId s)
    (currentWordIndex s) (currentTeam s) (originalTeamForQuestion s)
    (guessedLetters s) (revealedPositions s) (defaultRevealedPositions s)
    (wrongGuesses s) v (inputLetter s) (teamsAttempted s) (isPassedQuestion s)
    (showRoundStartLeaderboard s).

Definition setInputLetter v s :=
  mkState (teams s) (words s) (gameScores s) (currentGameId s)
    (currentWordIndex s) (currentTeam s) (originalTeamForQuestion s)
    (guessedLetters s) (revealedPositions s) (defaultRevealedPositions s)
    (wrongGuesses s) (gameState s) v (teamsAttempted s) (isPassedQuestion s)
    (showRoundStartLeaderboard s).

Definition setTeamsAttempted v s :=
  mkState (teams s) (words s) (gameScores s) (currentGameId s)
    (currentWordIndex s) (currentTeam s) (originalTeamForQuestion s)
    (guessedLetters s) (revealedPositions s) (defaultRevealedPositions s)
    (wrongGuesses s) (gameState s) (inputLetter s) v (isPassedQuestion s)
    (showRoundStartLeaderboard s).

Definition setIsPassedQuestion v s :=
  mkState (teams s) (words s) (gameScores s) (currentGameId s)
    (currentWordIndex s) (currentTeam s) (originalTeamForQuestion s)
    (guessedLetters s) (revealedPositions s) (defaultRevealedPositions s)
    (wrongGuesses s) (gameState s) (inputLetter s) (teamsAttempted s) v
    (showRoundStartLeaderboard s).

Definition setShowRoundStartLeaderboard v s :=
  mkState (teams s) (words s) (gameScores s) (currentGameId s)
    (currentWordIndex s) (currentTeam s) (originalTeamForQuestion s)
    (guessedLetters s) (revealedPositions s) (defaultRevealedPositions s)
    (wrongGuesses s) (gameState s) (inputLetter s) (teamsAttempted s)
    (isPassedQuestion s) v.

(** [words[currentWordIndex]]; [None] is JavaScript's [undefined]. *)
Definition currentGameWord (s : State) : option GameWord :=
  nth_error (words s) (currentWordIndex s).

(** ** Hint tiles: [generateDefaultRevealedPositions] *)

(** [Math.floor(wordLength * 0.3)], computed in binary64 as the source does. *)
Definition floorOfThreeTenths (wordLength : nat) : nat :=
  Z.to_nat (JS.floor (PrimFloat.mul (JS.number wordLength) 0x1.3333333333333p-2%float)).

Definition numToReveal (cap wordLength : nat) : nat :=
  Nat.min cap (floorOfThreeTenths wordLength).

(** The selection loop.  [draws] lists the values that
    [Math.floor(Math.random() * wordLength)] takes, call after call; the
    loop asks for one more draw as long as [positions] is short, so [None]
    says that the listed draws did not suffice to leave the loop. *)
Fixpoint selectPositions (numToReveal : nat) (positions draws : list nat)
  {struct draws} : option (list nat) :=
  if length positions <? numToReveal then
    match draws with
    | [] => None
    | randomPos :: rest =>
        if negb (JS.has positions randomPos)
        then selectPositions numToReveal (positions ++ [randomPos]) rest
        else selectPositions numToReveal positions rest
    end
  else Some positions.

Definition hintRevealCap : nat := 4.

(** The value handed to [setDefaultRevealedPositions] for a word of the
    given length. *)
Definition generateDefaultRevealedPositions (wordLength : nat) (draws : list nat)
  : option (list nat) :=
  option_map JS.sortAsc
    (selectPositions (numToReveal hintRevealCap wordLength) [] draws).


(** ** Handlers

    A handler or a timeout callback runs inside the render that created it:
    what it reads are the values of that render, what it writes goes to the
    state cells.  [Closure] keeps the values a delayed callback reads. *)

Record Closure := mkClosure {
  cl_teamsAttempted : list nat;
  cl_currentTeam : nat;
  cl_currentWordIndex : nat;
  cl_words : list GameWord
}.

Definition capture (s : State) : Closure :=
  mkClosure (teamsAttempted s) (currentTeam s) (currentWordIndex s) (words s).

Inductive Callback :=
| passQuestionCb (r : Closure)   (* [setTimeout(passQuestion, 2000)] *)
| nextWordCb (r : Closure)       (* the arrow function scheduled after a win or a loss *)
| hideLeaderboardCb.             (* [() => setShowRoundStartLeaderboard(false)] *)

(** The next state and the [setTimeout] calls made, each with its delay in
    milliseconds. *)
Definition Out : Type := State * list (Z * Callback).

Definition resetGame (s : State) : Out :=
  (setShowRoundStartLeaderboard true
     (setInputLetter EmptyString
        (setGameState playing
           (setWrongGuesses 0
              (setRevealedPositions []
                 (setGuessedLetters [] s))))),
   [(5000%Z, hideLeaderboardCb)]).

(** The callback scheduled once a word is won or lost. *)
Definition nextWord (r : Closure) (s : State) : Out :=
  if cl_currentWordIndex r + 1 <? length (cl_words r) then
    let nextWordIndex := cl_currentWordIndex r + 1 in
    let assignedTeam := nextWordIndex mod 4 in
    resetGame
      (setIsPassedQuestion false
         (setTeamsAttempted []
            (setOriginalTeamForQuestion assignedTeam
               (setCurrentTeam assignedTeam
                  (setCurrentWordIndex nextWordIndex s)))))
  else (setGameState finished s, []).

(** [while (newTeamsAttempted.includes(nextTeam)) nextTeam = (nextTeam + 1) % 4],
    run for at most [fuel] tests of the condition. *)
Fixpoint skipAttempted (fuel : nat) (newTeamsAttempted : list nat) (nextTeam : nat)
  : option nat :=
  match fuel with
  | 0 => None
  | S fuel' =>
      if JS.has newTeamsAttempted nextTeam
      then skipAttempted fuel' newTeamsAttempted ((nextTeam + 1) mod 4)
      else Some nextTeam
  end.

Definition nextTeamOrWord (r : Closure) (s : State) : Out :=
  let newTeamsAttempted := cl_teamsAttempted r ++ [cl_currentTeam r] in
  let s1 := setTeamsAttempted newTeamsAttempted s in
  if 4 <=? length newTeamsAttempted then
    (setGameState lost s1, [(3000%Z, nextWordCb r)])
  else
    match skipAttempted 4 newTeamsAttempted ((cl_currentTeam r + 1) mod 4) with
    | Some nextTeam =>
        resetGame (setIsPassedQuestion true (setCurrentTeam nextTeam s1))
    | None => (s1, [])   (* not taken: see [skipAttempted_finds] *)
    end.

(** [passQuestion] as the Pass button calls it, from the current render. *)
Definition passQuestion (s : State) : Out := nextTeamOrWord (capture s) s.

(** [gameScores.find((score) => score.team_id === teamId)?.points || 0]. *)
Definition scoreOf (scores : list GameScore) (teamId : Z) : Z :=
  match find (fun score => (score_team_id score =? teamId)%Z) scores with
  | Some score => score_points score
  | None => 0%Z
  end.

(** An update of the table [game_scores] that [updateGameScore] has sent
    and whose answer is awaited: the team, the number of points written
    ([newPoints], not an increment), and whether the database will answer
    without an error. *)
Record ScoreUpdate := mkScoreUpdate {
  su_team_id : Z;
  su_points : Z;
  su_stored : bool
}.

(** [updateGameScore(teamId, points)] up to its [await], called from the
    render [s] and not awaited by its caller: without a game row nothing is
    sent; otherwise one update, whose points are the score of the team in
    that render plus [pts].  [stored] is the answer this update will get. *)
Definition updateGameScore (stored : bool) (teamId pts : Z) (s : State)
  : list ScoreUpdate :=
  match currentGameId s with
  | None => []
  | Some gameId =>
      if (gameId =? 0)%Z then []
      else
        let currentScore := scoreOf (gameScores s) teamId in
        let newPoints := (currentScore + pts)%Z in
        [mkScoreUpdate teamId newPoints stored]
  end.

(** [updateGameScore] after its [await], run when the answer arrives, on
    the scores of that time: an error is logged and nothing is written;
    otherwise
    [setGameScores((prev) => prev.map((score) =>
       score.team_id === teamId ? { ...score, points: newPoints } : score))]. *)
Definition scoreAnswered (u : ScoreUpdate) (s : State) : State :=
  if su_stored u then
    setGameScores
      (map (fun score =>
              if (score_team_id score =? su_team_id u)%Z
              then mkScore (score_team_id score) (su_points u)
              else score)
           (gameScores s)) s
  else s.

(** Indices of the entries of [wordArray] equal to [letter]:
    [wordArray.map((char, index) => char === letter ? index : -1)
              .filter((pos) => pos !== -1)]. *)
Fixpoint positionsFrom (index : nat) (letter : string) (wordArray : list string)
  : list nat :=
  match wordArray with
  | [] => []
  | char :: rest =>
      if String.eqb char letter
      then index :: positionsFrom (S index) letter rest
      else positionsFrom (S index) letter rest
  end.

Definition letterPositionsOf (letter : string) (wordArray : list string) : list nat :=
  positionsFrom 0 letter wordArray.

(** The two places of [guessLetter] that count a wrong guess. *)
Definition countWrongGuess (s0 s : State) : Out :=
  let newWrongGuesses := wrongGuesses s0 + 1 in
  (setWrongGuesses newWrongGuesses s,
   if maxWrongGuesses <=? newWrongGuesses
   then [(2000%Z, passQuestionCb (capture s0))]
   else []).

Definition clearInput (o : Out) : Out := (setInputLetter EmptyString (fst o), snd o).

(** What a handler leaves behind when it also writes to the database: its
    state and timeouts, and the score updates it has sent without awaiting
    them. *)
Definition Handled : Type := Out * list ScoreUpdate.

(** Nothing is sent. *)
Definition quiet (o : Out) : Handled := (o, []).

(** [guessLetter], called from the render whose state is [s].  A [TypeError]
    (no current word, no team at [currentTeam]) ends the handler; the
    updates queued before it are kept.  [stored] is the answer the database
    will give to the score update, if one is sent. *)
Definition guessLetterHandler (stored : bool) (s : State) : Handled :=
  match inputLetter s with
  | EmptyString => quiet (s, [])
  | String _ _ =>
      let letter := JS.toUpperCase (inputLetter s) in
      let newGuessedLetters := guessedLetters s ++ [letter] in
      let s1 := setGuessedLetters newGuessedLetters s in
      match currentGameWord s with
      | None => quiet (s1, [])
      | Some w =>
          if negb (JS.includes (word w) letter) then
            quiet (clearInput (countWrongGuess s s1))
          else
            let wordArray := JS.split (word w) in
            let letterPositions := letterPositionsOf letter wordArray in
            let unrevealedPositions :=
              filter (fun pos => negb (JS.has (revealedPositions s) pos)
                                 && negb (JS.has (defaultRevealedPositions s) pos))
                     letterPositions in
            match unrevealedPositions with
            | first :: _ =>
                let newRevealedPositions := revealedPositions s ++ [first] in
                let s2 := setRevealedPositions newRevealedPositions s1 in
                let allPositions := newRevealedPositions ++ defaultRevealedPositions s in
                let uniquePositions := JS.unique allPositions in
                let isComplete := length uniquePositions =? length wordArray in
                if isComplete then
                  let s3 := setGameState won s2 in
                  match nth_error (teams s) (currentTeam s) with
                  | None => quiet (s3, [])
                  | Some team =>
                      let pts := if isPassedQuestion s then 5%Z else points w in
                      (clearInput (s3, [(2000%Z, nextWordCb (capture s))]),
                       updateGameScore stored (team_id team) pts s)
                  end
                else quiet (clearInput (s2, []))
            | [] => quiet (clearInput (countWrongGuess s s1))
            end
      end
  end.

(** The state and the timeouts of [guessLetter]. *)
Definition guessLetter (stored : bool) (s : State) : Out :=
  fst (guessLetterHandler stored s).

(** The score updates [guessLetter] sends. *)
Definition guessLetterSent (stored : bool) (s : State) : list ScoreUpdate :=
  snd (guessLetterHandler stored s).

(** ** The older revision of the component, [app/page.tsx]

    It differs from the newer one in three places of the game logic: the
    hint cap is 3; a correct guess reveals the first occurrence that is not
    in [revealedPositions], hint tile or not; and a letter whose occurrences
    are all revealed changes nothing but the log.  Its [resetGame] sets no
    leaderboard timeout. *)

Module Classic.

Definition hintRevealCap : nat := 3.

Definition generateDefaultRevealedPositions (wordLength : nat) (draws : list nat)
  : option (list nat) :=
  option_map JS.sortAsc
    (selectPositions (numToReveal hintRevealCap wordLength) [] draws).

Definition guessLetterHandler (stored : bool) (s : State) : Handled :=
  match inputLetter s with
  | EmptyString => quiet (s, [])
  | String _ _ =>
      let letter := JS.toUpperCase (inputLetter s) in
      let newGuessedLetters := guessedLetters s ++ [letter] in
      let s1 := setGuessedLetters newGuessedLetters s in
      match currentGameWord s with
      | None => quiet (s1, [])
      | Some w =>
          if negb (JS.includes (word w) letter) then
            quiet (clearInput (countWrongGuess s s1))
          else
            let wordArray := JS.split (word w) in
            let letterPositions := letterPositionsOf letter wordArray in
            let unrevealedPosition :=
              find (fun pos => negb (JS.has (revealedPositions s) pos)) letterPositions in
            match unrevealedPosition with
            | Some first =>
                let newRevealedPositions := revealedPositions s ++ [first] in
                let s2 := setRevealedPositions newRevealedPositions s1 in
                let allPositions := newRevealedPositions ++ defaultRevealedPositions s in
                let uniquePositions := JS.unique allPositions in
                let isComplete := length uniquePositions =? length wordArray in
                if isComplete then
                  let s3 := setGameState won s2 in
                  match nth_error (teams s) (currentTeam s) with
                  | None => quiet (s3, [])
                  | Some team =>
                      let pts := if isPassedQuestion s then 5%Z else points w in
                      (clearInput (s3, [(2000%Z, nextWordCb (capture s))]),
                       updateGameScore stored (team_id team) pts s)
                  end
                else quiet (clearInput (s2, []))
            | None => quiet (clearInput (s1, []))
            end
      end
  end.

Definition guessLetter (stored : bool) (s : State) : Out :=
  fst (guessLetterHandler stored s).

Definition guessLetterSent (stored : bool) (s : State) : list ScoreUpdate :=
  snd (guessLetterHandler stored s).

End Classic.

(** ** The component as a discrete-event system

    Time is counted in milliseconds.  A pending timeout fires when its delay
    has elapsed; among timeouts due at the same time the one set first fires
    first.  Nothing in the component ever calls [clearTimeout].  A score
    update that was sent is answered at some later time, before or after
    other events, and updates in flight may be answered in any order. *)

Record Timer := mkTimer { due : Z; callback : Callback }.

Record Sys := mkSys {
  st : State;
  now : Z;
  timers : list Timer;
  requests : list ScoreUpdate   (* sent, not answered yet *)
}.

Definition runCallback (cb : Callback) (s : State) : Out :=
  match cb with
  | passQuestionCb r => nextTeamOrWord r s
  | nextWordCb r => nextWord r s
  | hideLeaderboardCb => (setShowRoundStartLeaderboard false s, [])
  end.

Definition schedule (t : Z) (calls : list (Z * Callback)) : list Timer :=
  map (fun call => mkTimer (t + fst call) (snd call)) calls.

(** The timeout that fires next, and the ones that stay pending. *)
Fixpoint takeEarliest (ts : list Timer) : option (Timer * list Timer) :=
  match ts with
  | [] => None
  | t :: rest =>
      match takeEarliest rest with
      | None => Some (t, [])
      | Some (m, rest') =>
          if (due t <=? due m)%Z then Some (t, rest) else Some (m, t :: rest')
      end
  end.

(** The effect with dependencies [[currentWordIndex, currentGameWord]]: when
    the render after an update shows another word, the hint tiles are drawn
    anew.  [draws] are the random positions the loop is fed; each lies below
    the length of the word. *)
Definition hintEffect (draws : list nat) (before after : State) : option State :=
  if currentWordIndex before =? currentWordIndex after then Some after
  else
    match currentGameWord after with
    | None => Some after
    | Some w =>
        let wordLength := String.length (word w) in
        if forallb (fun d => d <? wordLength) draws then
          option_map (fun positions => setDefaultRevealedPositions positions after)
                     (generateDefaultRevealedPositions wordLength draws)
        else None
    end.

Inductive Event :=
| Typed (dt : Z) (value : string)        (* [onChange] of the input box, [maxLength] 1 *)
| GuessPressed (dt : Z) (stored : bool)  (* the Guess button, or Enter; [stored] is
                                            the answer its score update will get *)
| PassPressed (dt : Z)                   (* the Pass button *)
| TimeoutFired (draws : list nat)        (* the earliest pending timeout *)
| ScoreAnswered (dt : Z) (k : nat).      (* the answer to the [k]-th update in flight *)

(** The input box and both buttons are rendered only while
    [gameState === "playing"]; a user event [dt] milliseconds after the last
    event happens before every timeout still pending. *)
Definition userMay (sys : Sys) (dt : Z) : bool :=
  (0 <=? dt)%Z
  && forallb (fun t => (now sys + dt <? due t)%Z) (timers sys)
  && match gameState (st sys) with playing => true | _ => false end.

Definition afterHandler (sys : Sys) (dt : Z) (o : Out) : Sys :=
  mkSys (fst o) (now sys + dt) (timers sys ++ schedule (now sys + dt) (snd o))
        (requests sys).

Definition send (sent : list ScoreUpdate) (sys : Sys) : Sys :=
  mkSys (st sys) (now sys) (timers sys) (requests sys ++ sent).

(** An answer of the database arrives [dt] milliseconds after the last
    event, before every timeout still pending, in whatever phase the game
    is. *)
Definition answerMay (sys : Sys) (dt : Z) : bool :=
  (0 <=? dt)%Z && forallb (fun t => (now sys + dt <? due t)%Z) (timers sys).

Definition removeNth {A : Type} (k : nat) (xs : list A) : list A :=
  firstn k xs ++ skipn (S k) xs.

Definition step (sys : Sys) (e : Event) : option Sys :=
  match e with
  | Typed dt value =>
      if userMay sys dt && (String.length value <=? 1)
         && forallb JS.isAscii (list_ascii_of_string value) then
        Some (afterHandler sys dt (setInputLetter (JS.toUpperCase value) (st sys), []))
      else None
  | GuessPressed dt stored =>
      if userMay sys dt then
        Some (send (guessLetterSent stored (st sys))
                   (afterHandler sys dt (guessLetter stored (st sys))))
      else None
  | PassPressed dt =>
      if userMay sys dt then Some (afterHandler sys dt (passQuestion (st sys)))
      else None
  | TimeoutFired draws =>
      match takeEarliest (timers sys) with
      | None => None
      | Some (t, rest) =>
          let o := runCallback (callback t) (st sys) in
          match hintEffect draws (st sys) (fst o) with
          | None => None
          | Some s' =>
              Some (mkSys s' (due t) (rest ++ schedule (due t) (snd o)) (requests sys))
          end
      end
  | ScoreAnswered dt k =>
      if answerMay sys dt then
        match nth_error (requests sys) k with
        | None => None
        | Some u =>
            Some (mkSys (scoreAnswered u (st sys)) (now sys + dt) (timers sys)
                        (removeNth k (requests sys)))
        end
      else None
  end.

Fixpoint run (sys : Sys) (es : list Event) : option Sys :=
  match es with
  | [] => Some sys
  | e :: rest =>
      match step sys e with
      | None => None
      | Some sys' => run sys' rest
      end
  end.

(** The state [autoStartGame] sets up once the game row and the score rows
    are stored, before the first effect has run. *)
Definition autoStartGame (teamsData : list Team) (wordsData : list GameWord)
  (gameId : Z) : Out :=
  let scoreInserts := map (fun team => mkScore (team_id team) 0%Z) teamsData in
  let assignedTeam := 0 mod 4 in
  resetGame
    (mkState teamsData wordsData scoreInserts (Some gameId) 0 assignedTeam
       assignedTeam [] [] [] 0 playing EmptyString [] false false).

(** [loadInitialData] up to the first playable render: no game without a
    team or without a word. *)
Definition startGame (teamsData : list Team) (wordsData : list GameWord)
  (gameId : Z) (draws : list nat) : option Sys :=
  match teamsData, wordsData with
  | [], _ => None
  | _, [] => None
  | _ :: _, w :: _ =>
      let o := autoStartGame teamsData wordsData gameId in
      let wordLength := String.length (word w) in
      if forallb (fun d => d <? wordLength) draws then
        option_map
          (fun positions =>
             mkSys (setDefaultRevealedPositions positions (fst o)) 0%Z
                   (schedule 0%Z (snd o)) [])
          (generateDefaultRevealedPositions wordLength draws)
      else None
  end.

Definition fourTeams : list Team :=
  [mkTeam 1 "Thunder Bolts" "bg-blue-500"; mkTeam 2 "Fire Dragons" "bg-red-500";
   mkTeam 3 "Green Eagles" "bg-green-500"; mkTeam 4 "Golden Lions" "bg-yellow-500"].

(** ** Vocabulary of the statements *)

(** The word shows [letter] at index [p]. *)
Definition letterAt (w : GameWord) (p : nat) (letter : string) : Prop :=
  nth_error (JS.split (word w)) p = Some letter.

(** A position is shown when a guess revealed it or it is a hint tile. *)
Definition shown (s : State) (p : nat) : Prop :=
  In p (revealedPositions s) \/ In p (defaultRevealedPositions s).

(** Every letter position of the word is shown. *)
Definition covered (w : GameWord) (s : State) : Prop :=
  forall p, p < String.length (word w) -> shown s p.

(** The positions kept in the state are positions of the word. *)
Definition positionsInWord (w : GameWord) (s : State) : Prop :=
  Forall (fun p => p < String.length (word w))
         (revealedPositions s ++ defaultRevealedPositions s).

(** The game row exists: [currentGameId] is neither [null] nor [0]. *)
Definition hasGame (s : State) : bool :=
  match currentGameId s with
  | Some gameId => negb (gameId =? 0)%Z
  | None => false
  end.

(** The hidden occurrences of the guessed letter, as [guessLetter] lists
    them. *)
Definition unrevealedPositionsOf (s : State) (w : GameWord) : list nat :=
  filter (fun pos => negb (JS.has (revealedPositions s) pos)
                     && negb (JS.has (defaultRevealedPositions s) pos))
         (letterPositionsOf (JS.toUpperCase (inputLetter s)) (JS.split (word w))).

(** The state a guess leaves behind when it is counted as wrong. *)
Definition wrongGuessOutcome (s : State) : Out :=
  clearInput
    (countWrongGuess s
       (setGuessedLetters (guessedLetters s ++ [JS.toUpperCase (inputLetter s)]) s)).

(** [isComplete], once [first] joins the revealed positions. *)
Definition completes (s : State) (w : GameWord) (first : nat) : bool :=
  length (JS.unique ((revealedPositions s ++ [first]) ++ defaultRevealedPositions s))
  =? length (JS.split (word w)).

(** The state a guess leaves behind when it reveals [first]. *)
Definition revealOutcome (s : State) (w : GameWord) (first : nat) : Out :=
  let s2 :=
    setRevealedPositions (revealedPositions s ++ [first])
      (setGuessedLetters (guessedLetters s ++ [JS.toUpperCase (inputLetter s)]) s) in
  if completes s w first
  then
    match nth_error (teams s) (currentTeam s) with
    | None => (setGameState won s2, [])
    | Some team =>
        clearInput (setGameState won s2, [(2000%Z, nextWordCb (capture s))])
    end
  else clearInput (s2, []).

(** The score update a guess sends when it reveals [first]. *)
Definition revealSent (stored : bool) (s : State) (w : GameWord) (first : nat)
  : list ScoreUpdate :=
  if completes s w first
  then
    match nth_error (teams s) (currentTeam s) with
    | None => []
    | Some team =>
        updateGameScore stored (team_id team)
          (if isPassedQuestion s then 5%Z else points w) s
    end
  else [].

(** A timeout that moves the game on: the delayed [passQuestion] of an
    exhausted team, or the delayed move to the next word. *)
Definition isTransition (t : Timer) : bool :=
  match callback t with
  | passQuestionCb _ | nextWordCb _ => true
  | hideLeaderboardCb => false
  end.

(** Along the events [es], every press of Guess comes while fewer than
    [maxWrongGuesses] wrong guesses are counted. *)
Fixpoint guessesBelowMax (sys : Sys) (es : list Event) : Prop :=
  match es with
  | [] => True
  | e :: rest =>
      match e with
      | GuessPressed _ _ => wrongGuesses (st sys) < maxWrongGuesses
      | _ => True
      end
      /\ match step sys e with
         | Some sys' => guessesBelowMax sys' rest
         | None => True
         end
  end.

(** ** A sample game: the four seeded teams, the words CAT and DOG *)

Definition catDog : list GameWord := [mkWord 1 "CAT" 10; mkWord 2 "DOG" 20].

Definition sampleStart : option Sys := startGame fourTeams catDog 7 [].

Definition runFrom (start : option Sys) (es : list Event) : option Sys :=
  match start with
  | Some sys => run sys es
  | None => None
  end.

(** Typing a character and pressing Guess, [dt] milliseconds apart. *)
Definition guess (dt : Z) (value : string) : list Event :=
  [Typed dt value; GuessPressed dt true].

(** A playing state on the single word [w], team 0 guessing. *)
Definition roundOf (w : GameWord) (revealed hints : list nat) (input : string) : State :=
  mkState fourTeams [w]
    (map (fun team => mkScore (team_id team) 0%Z) fourTeams) (Some 7%Z)
    0 0 0 [] revealed hints 0 playing input [] false false.

Definition banana : GameWord := mkWord 3 "BANANA" 15.

(** Four wrong guesses of the team at play, 100 ms apart. *)
Definition fourWrong : list Event :=
  guess 50 "x" ++ guess 50 "y" ++ guess 50 "z" ++ guess 50 "q".

(** The first three teams pass at once; the fourth misses four times and
    then still spells CAT. *)
Definition lateWin : list Event :=
  [PassPressed 10; PassPressed 10; PassPressed 10]
  ++ fourWrong ++ guess 50 "c" ++ guess 50 "a" ++ guess 50 "t".

Definition ab : GameWord := mkWord 9 "AB" 10.

(** The column [word] of table [words] is a [VARCHAR(50)]. *)
Definition wordMaxLength : nat := 50.

(** A word the schema admits and a player can guess: 1 to 50 characters. *)
Definition wordOk (w : GameWord) : Prop :=
  0 < String.length (word w) <= wordMaxLength.

(** What holds of the state of every round of a game on [wordsData]. *)
Definition roundOk (wordsData : list GameWord) (s : State) : Prop :=
  words s = wordsData
  /\ map score_team_id (gameScores s) = map team_id (teams s)
  /\ exists w,
       currentGameWord s = Some w
       /\ positionsInWord w s
       /\ length (defaultRevealedPositions s) < String.length (word w)
       /\ (gameState s = playing -> ~ covered w s).

(** The pending callbacks were created in renders of the same game. *)
Definition closuresOk (wordsData : list GameWord) (ts : list Timer) : Prop :=
  forall t, In t ts ->
    match callback t with
    | passQuestionCb r | nextWordCb r => cl_words r = wordsData
    | hideLeaderboardCb => True
    end.

Definition gameOk (wordsData : list GameWord) (sys : Sys) : Prop :=
  roundOk wordsData (st sys) /\ closuresOk wordsData (timers sys).

(** Callbacks handed to [setTimeout] close over the render that runs, or
    over the render of the callback that runs. *)
Definition callsOk (wordsData : list GameWord) (calls : list (Z * Callback)) : Prop :=
  forall call, In call calls ->
    match snd call with
    | passQuestionCb r | nextWordCb r => cl_words r = wordsData
    | hideLeaderboardCb => True
    end.

(** ** What the page shows: [displayWord], [getTeamScores] *)

(** [xs.join(sep)]. *)
Fixpoint join (sep : string) (xs : list string) : string :=
  match xs with
  | [] => EmptyString
  | [x] => x
  | x :: rest => append x (append sep (join sep rest))
  end.

(** The tiles of [displayWord], from index [index] on: the letter where the
    position is a hint tile or revealed, an underscore elsewhere. *)
Fixpoint tilesFrom (index : nat) (s : State) (letters : list string) : list string :=
  match letters with
  | [] => []
  | letter :: rest =>
      (if JS.has (defaultRevealedPositions s) index || JS.has (revealedPositions s) index
       then letter else "_"%string)
      :: tilesFrom (S index) s rest
  end.

Definition displayTiles (s : State) (w : GameWord) : list string :=
  tilesFrom 0 s (JS.split (word w)).

Definition displayWord (s : State) : string :=
  match currentGameWord s with
  | None => EmptyString
  | Some w => join " " (displayTiles s w)
  end.

(** A row of the leaderboard: the team, its fixed number and its points. *)
Record TeamScore := mkTeamScore { ts_team : Team; teamNumber : nat; ts_points : Z }.

Fixpoint numberedFrom (index : nat) (scores : list GameScore) (ts : list Team)
  : list TeamScore :=
  match ts with
  | [] => []
  | team :: rest =>
      mkTeamScore team (index + 1) (scoreOf scores (team_id team))
      :: numberedFrom (S index) scores rest
  end.

(** [rows.sort((a, b) => b.points - a.points)]; the sort of an array is
    stable. *)
Fixpoint insertByPoints (a : TeamScore) (rows : list TeamScore) : list TeamScore :=
  match rows with
  | [] => [a]
  | b :: rest =>
      if (ts_points b <=? ts_points a)%Z then a :: b :: rest
      else b :: insertByPoints a rest
  end.

Fixpoint sortByPoints (rows : list TeamScore) : list TeamScore :=
  match rows with
  | [] => []
  | a :: rest => insertByPoints a (sortByPoints rest)
  end.

Definition getTeamScores (s : State) : list TeamScore :=
  sortByPoints (numberedFrom 0 (gameScores s) (teams s)).

(** [teams.findIndex((t) => t.id === id)]; [None] is [-1]. *)
Fixpoint findIndexFrom (index : nat) (id : Z) (ts : list Team) : option nat :=
  match ts with
  | [] => None
  | t :: rest =>
      if (team_id t =? id)%Z then Some index else findIndexFrom (S index) id rest
  end.

Definition originalTeamIndex (s : State) (row : TeamScore) : option nat :=
  findIndexFrom 0 (team_id (ts_team row)) (teams s).

(** ** Loading the game: [loadInitialData], [autoStartGame] *)

(** The answer of the database to one request: the rows ([null] counts as
    no row), or an error with the text that is shown for it. *)
Inductive Reply (A : Type) :=
| Rows (data : A)
| Failed (message : string).

Arguments Rows {A} data.
Arguments Failed {A} message.

(** The state cells before anything is loaded. *)
Definition initialState : State :=
  mkState [] [] [] None 0 0 0 [] [] [] 0 loading EmptyString [] false false.

Definition setTeams v s :=
  mkState v (words s) (gameScores s) (currentGameId s) (currentWordIndex s)
    (currentTeam s) (originalTeamForQuestion s) (guessedLetters s)
    (revealedPositions s) (defaultRevealedPositions s) (wrongGuesses s)
    (gameState s) (inputLetter s) (teamsAttempted s) (isPassedQuestion s)
    (showRoundStartLeaderboard s).

Definition setWords v s :=
  mkState (teams s) v (gameScores s) (currentGameId s) (currentWordIndex s)
    (currentTeam s) (originalTeamForQuestion s) (guessedLetters s)
    (revealedPositions s) (defaultRevealedPositions s) (wrongGuesses s)
    (gameState s) (inputLetter s) (teamsAttempted s) (isPassedQuestion s)
    (showRoundStartLeaderboard s).

Definition setCurrentGameId v s :=
  mkState (teams s) (words s) (gameScores s) v (currentWordIndex s)
    (currentTeam s) (originalTeamForQuestion s) (guessedLetters s)
    (revealedPositions s) (defaultRevealedPositions s) (wrongGuesses s)
    (gameState s) (inputLetter s) (teamsAttempted s) (isPassedQuestion s)
    (showRoundStartLeaderboard s).

(** What [loadInitialData] leaves behind: the text of [wordError], the
    state cells, and the timeouts set. *)
Record Loaded := mkLoaded {
  wordError : string;
  loadedState : State;
  loadedCalls : list (Z * Callback)
}.

Definition failedWith (message : string) (s : State) : Loaded := mkLoaded message s [].

(** [autoStartGame(teamsData, wordsData)] with the replies to the insert of
    the game row and to the insert of the score rows.  A reply without a row
    makes [gameData[0].id] throw, which the [catch] treats like an error. *)
Definition autoStartGameWith (teamsData : list Team) (wordsData : list GameWord)
  (gameReply : Reply (list Z)) (scoresReply : Reply unit) (s : State) : Loaded :=
  match wordsData with
  | [] => failedWith "No words available to play!" s
  | _ :: _ =>
      match gameReply with
      | Failed _ => failedWith "Failed to start game" s
      | Rows [] => failedWith "Failed to start game" s
      | Rows (gameId :: _) =>
          let s1 := setCurrentGameId (Some gameId) s in
          match scoresReply with
          | Failed _ => failedWith "Failed to start game" s1
          | Rows _ =>
              let scoreInserts := map (fun team => mkScore (team_id team) 0%Z) teamsData in
              let assignedTeam := 0 mod 4 in
              let o :=
                resetGame
                  (setIsPassedQuestion false
                     (setOriginalTeamForQuestion assignedTeam
                        (setCurrentTeam assignedTeam
                           (setCurrentWordIndex 0
                              (setTeamsAttempted []
                                 (setGameState playing
                                    (setGameScores scoreInserts s1))))))) in
              mkLoaded EmptyString (fst o) (snd o)
          end
      end
  end.

Definition loadInitialData (teamsReply : Reply (list Team))
  (wordsReply : Reply (list GameWord)) (gameReply : Reply (list Z))
  (scoresReply : Reply unit) : Loaded :=
  match teamsReply with
  | Failed message => failedWith (append "Database error: " message) initialState
  | Rows [] => failedWith "No teams found in database!" initialState
  | Rows ((_ :: _) as teamsData) =>
      let s1 := setTeams teamsData initialState in
      match wordsReply with
      | Failed message => failedWith (append "Database error: " message) s1
      | Rows [] => failedWith "No words found in database!" s1
      | Rows ((_ :: _) as wordsData) =>
          autoStartGameWith teamsData wordsData gameReply scoresReply
            (setWords wordsData s1)
      end
  end.

(** ** The screens *)

(** The returns of the component, in their order: the loading card, the
    error card, the final leaderboard, the game. *)
Inductive Screen := LoadingCard | ErrorCard | FinishedCard | GameBoard.

Definition screenOf (phase : Phase) (error : string) : Screen :=
  match phase with
  | loading => LoadingCard
  | _ =>
      match error with
      | String _ _ => ErrorCard
      | EmptyString =>
          match phase with
          | finished => FinishedCard
          | _ => GameBoard
          end
      end
  end.

Definition screenAfterLoad (l : Loaded) : Screen :=
  screenOf (gameState (loadedState l)) (wordError l).

(** ** Vocabulary of the further statements *)

(** Strings of one character, as [split] yields them. *)
Definition oneChar (x : string) : Prop := exists c, x = String c EmptyString.

(** The order of the leaderboard: more points first, and among equal
    points the lower team number first. *)
Definition ranksBefore (a b : TeamScore) : Prop :=
  (ts_points b < ts_points a)%Z
  \/ (ts_points a = ts_points b /\ teamNumber a < teamNumber b).

(** ** What every state of a game keeps *)

(** The turn: who plays, who is assigned, who has attempted. *)
Definition turnOk (s : State) : Prop :=
  currentTeam s < 4
  /\ originalTeamForQuestion s = currentWordIndex s mod 4
  /\ NoDup (teamsAttempted s)
  /\ Forall (fun t => t < 4) (teamsAttempted s)
  /\ (gameState s = playing -> ~ In (currentTeam s) (teamsAttempted s))
  /\ (gameState s = playing -> isPassedQuestion s = false ->
      currentTeam s = originalTeamForQuestion s /\ teamsAttempted s = [])
  /\ (isPassedQuestion s = true -> teamsAttempted s <> [])
  /\ (gameState s = lost -> 4 <= length (teamsAttempted s)).

(** The render a delayed [passQuestion] was created in. *)
Definition passClosureOk (r : Closure) : Prop :=
  cl_currentTeam r < 4
  /\ NoDup (cl_teamsAttempted r)
  /\ Forall (fun t => t < 4) (cl_teamsAttempted r)
  /\ ~ In (cl_currentTeam r) (cl_teamsAttempted r).

Definition passTimersOk (ts : list Timer) : Prop :=
  forall t r, In t ts -> callback t = passQuestionCb r -> passClosureOk r.

Definition passCallsOk (calls : list (Z * Callback)) : Prop :=
  forall call r, In call calls -> snd call = passQuestionCb r -> passClosureOk r.

(** The tiles and the log of guesses. *)
Definition tilesOk (s : State) : Prop :=
  NoDup (revealedPositions s ++ defaultRevealedPositions s)
  /\ length (guessedLetters s) = wrongGuesses s + length (revealedPositions s)
  /\ forall w, currentGameWord s = Some w ->
       (forall p, In p (revealedPositions s) ->
          exists letter, letterAt w p letter /\ In letter (guessedLetters s))
       /\ (gameState s = won -> covered w s).

Definition playOk (teamsData : list Team) (sys : Sys) : Prop :=
  teams (st sys) = teamsData
  /\ turnOk (st sys) /\ passTimersOk (timers sys) /\ tilesOk (st sys).

(** * Properties *)

(** ** Arrays *)

Section Arrays.

Lemma has_In (xs : list nat) (x : nat) : JS.has xs x = true <-> In x xs.
Proof.
  unfold JS.has. rewrite existsb_exists. split.
  - intros [y [Hy Heq]]. apply Nat.eqb_eq in Heq. now subst.
  - intros H. exists x. split; [assumption | apply Nat.eqb_refl].
Qed.

Lemma has_false (xs : list nat) (x : nat) : JS.has xs x = false <-> ~ In x xs.
Proof.
  rewrite <- has_In. destruct (JS.has xs x); split; intros; congruence.
Qed.

Lemma insertAsc_In (x y : nat) (xs : list nat) :
  In y (JS.insertAsc x xs) <-> y = x \/ In y xs.
Proof.
  induction xs as [|z xs IH]; simpl.
  - intuition.
  - destruct (x <=? z); simpl; rewrite ?IH; intuition.
Qed.

Lemma insertAsc_length (x : nat) (xs : list nat) :
  length (JS.insertAsc x xs) = S (length xs).
Proof.
  induction xs as [|z xs IH]; simpl; [reflexivity|].
  destruct (x <=? z); simpl; congruence.
Qed.

Lemma insertAsc_sorted (x : nat) (xs : list nat) :
  ~ In x xs -> StronglySorted lt xs -> StronglySorted lt (JS.insertAsc x xs).
Proof.
  induction xs as [|z xs IH]; simpl; intros Hx Hs.
  - constructor; constructor.
  - inversion Hs as [|? ? Hs' Hall]; subst.
    destruct (x <=? z) eqn:E.
    + apply Nat.leb_le in E. assert (x < z) by lia.
      constructor; [assumption|]. constructor; [assumption|].
      rewrite Forall_forall in *. intros u Hu. specialize (Hall u Hu). lia.
    + apply Nat.leb_gt in E. constructor.
      * apply IH; [tauto | assumption].
      * rewrite Forall_forall in *. intros u Hu.
        apply insertAsc_In in Hu. destruct Hu as [->|Hu]; [assumption | auto].
Qed.

Lemma sortAsc_In (y : nat) (xs : list nat) : In y (JS.sortAsc xs) <-> In y xs.
Proof.
  induction xs as [|x xs IH]; simpl; [tauto|].
  rewrite insertAsc_In, IH. intuition.
Qed.

Lemma sortAsc_length (xs : list nat) : length (JS.sortAsc xs) = length xs.
Proof.
  induction xs as [|x xs IH]; simpl; [reflexivity|].
  now rewrite insertAsc_length, IH.
Qed.

Lemma sortAsc_sorted (xs : list nat) : NoDup xs -> StronglySorted lt (JS.sortAsc xs).
Proof.
  induction 1 as [|x xs Hx Hnd IH]; simpl; [constructor|].
  apply insertAsc_sorted; [now rewrite sortAsc_In | assumption].
Qed.

Lemma StronglySorted_lt_NoDup (xs : list nat) : StronglySorted lt xs -> NoDup xs.
Proof.
  induction 1 as [|x xs Hs IH Hall]; constructor; [|assumption].
  intros Hin. rewrite Forall_forall in Hall. specialize (Hall x Hin). lia.
Qed.

(** [new Set] keeps one copy of every element. *)
Lemma uniqueFrom_In (seen xs : list nat) (y : nat) :
  In y (JS.uniqueFrom seen xs) <-> In y xs /\ ~ In y seen.
Proof.
  revert seen. induction xs as [|x xs IH]; intros seen; simpl; [tauto|].
  destruct (JS.has seen x) eqn:E.
  - apply has_In in E. rewrite IH. split.
    + intros [H1 H2]. tauto.
    + intros [[->|H1] H2]; tauto.
  - apply has_false in E. simpl. rewrite IH. simpl. split.
    + intros [->|[H1 H2]]; [tauto|]. split; [tauto|]. tauto.
    + intros [[->|H1] H2]; [tauto|].
      destruct (Nat.eq_dec x y); [tauto|]. right. tauto.
Qed.

Lemma uniqueFrom_NoDup (seen xs : list nat) : NoDup (JS.uniqueFrom seen xs).
Proof.
  revert seen. induction xs as [|x xs IH]; intros seen; simpl; [constructor|].
  destruct (JS.has seen x); [apply IH|].
  constructor; [|apply IH].
  rewrite uniqueFrom_In. simpl. tauto.
Qed.

Lemma unique_In (xs : list nat) (y : nat) : In y (JS.unique xs) <-> In y xs.
Proof. unfold JS.unique. rewrite uniqueFrom_In. simpl. tauto. Qed.

Lemma unique_NoDup (xs : list nat) : NoDup (JS.unique xs).
Proof. apply uniqueFrom_NoDup. Qed.

(** Counting distinct positions below [n]: there are [n] of them exactly
    when none is missing. *)
Lemma unique_length_covers (n : nat) (xs : list nat) :
  Forall (fun p => p < n) xs ->
  (length (JS.unique xs) = n <-> forall p, p < n -> In p xs).
Proof.
  intros Hall. rewrite Forall_forall in Hall.
  assert (Hincl : incl (JS.unique xs) (seq 0 n)).
  { intros p Hp. rewrite unique_In in Hp. apply in_seq. specialize (Hall p Hp). lia. }
  split.
  - intros Hlen p Hp. apply unique_In.
    assert (Hback : incl (seq 0 n) (JS.unique xs)).
    { apply NoDup_length_incl; [apply unique_NoDup | rewrite length_seq; lia | assumption]. }
    apply Hback, in_seq. lia.
  - intros Hcov. apply Nat.le_antisymm.
    + rewrite <- (length_seq n 0). apply NoDup_incl_length; [apply unique_NoDup | assumption].
    + rewrite <- (length_seq n 0) at 1. apply NoDup_incl_length; [apply seq_NoDup|].
      intros p Hp. apply in_seq in Hp. apply unique_In. apply Hcov. lia.
Qed.

End Arrays.

(** ** Hint tiles *)

Section HintTiles.

(** On every length the schema admits, the binary64 product floors to the
    exact value of three tenths of the length. *)
Lemma floorOfThreeTenths_exact (wordLength : nat) :
  wordLength <= wordMaxLength -> floorOfThreeTenths wordLength = wordLength * 3 / 10.
Proof.
  intros Hle.
  assert (Hall : forallb (fun n => floorOfThreeTenths n =? n * 3 / 10)
                         (seq 0 (S wordMaxLength)) = true) by (vm_compute; reflexivity).
  rewrite forallb_forall in Hall.
  apply Nat.eqb_eq, Hall, in_seq. lia.
Qed.

Lemma numToReveal_le (cap wordLength : nat) :
  wordLength <= wordMaxLength -> numToReveal cap wordLength <= wordLength.
Proof.
  intros Hle. unfold numToReveal. rewrite floorOfThreeTenths_exact by assumption.
  assert (wordLength * 3 / 10 <= wordLength).
  { apply Nat.Div0.div_le_upper_bound. lia. }
  lia.
Qed.

Variable n : nat.

(** What the loop keeps true of [positions], and what it has reached when
    it is left. *)
Lemma selectPositions_inv (bound : nat) (draws positions ps : list nat) :
  Forall (fun d => d < bound) draws ->
  Forall (fun p => p < bound) positions ->
  NoDup positions ->
  length positions <= n ->
  selectPositions n positions draws = Some ps ->
  length ps = n /\ NoDup ps /\ Forall (fun p => p < bound) ps.
Proof.
  revert positions.
  induction draws as [|d rest IH]; intros positions Hd Hp Hnd Hlen; simpl.
  - destruct (length positions <? n) eqn:E; [discriminate|].
    apply Nat.ltb_ge in E. intros [= <-]. repeat split; [lia | assumption | assumption].
  - destruct (length positions <? n) eqn:E.
    + apply Nat.ltb_lt in E. inversion Hd as [|? ? Hd1 Hd2]; subst.
      destruct (JS.has positions d) eqn:Hhas; simpl.
      * apply IH; assumption.
      * apply has_false in Hhas. apply IH.
        -- assumption.
        -- apply Forall_app. split; [assumption | constructor; [assumption | constructor]].
        -- apply NoDup_app; [assumption | constructor; [intros [] | constructor] |].
           intros x Hx [<-|[]]. contradiction.
        -- rewrite length_app. simpl. lia.
    + apply Nat.ltb_ge in E. intros [= <-]. repeat split; [lia | assumption | assumption].
Qed.

(** The loop is left as soon as the draws have brought enough positions
    that were not chosen yet. *)
Lemma selectPositions_returns (draws positions fresh : list nat) :
  NoDup fresh ->
  incl fresh draws ->
  (forall x, In x fresh -> ~ In x positions) ->
  n <= length positions + length fresh ->
  exists ps, selectPositions n positions draws = Some ps.
Proof.
  revert positions fresh.
  induction draws as [|d rest IH]; intros positions fresh Hnd Hincl Hdisj Hlen; simpl.
  - assert (fresh = []) as -> by (destruct fresh as [|x ?]; [reflexivity | destruct (Hincl x); now left]).
    simpl in Hlen. destruct (length positions <? n) eqn:E; [|eauto].
    apply Nat.ltb_lt in E. lia.
  - destruct (length positions <? n) eqn:E; [|eauto].
    destruct (JS.has positions d) eqn:Hhas; simpl.
    + apply has_In in Hhas. apply IH with (fresh := fresh); try assumption.
      intros x Hx. destruct (Hincl x Hx) as [<-|Hr]; [|assumption].
      exfalso. now apply (Hdisj d).
    + apply has_false in Hhas.
      destruct (in_dec Nat.eq_dec d fresh) as [Hin|Hout].
      * destruct (in_split d fresh Hin) as [l1 [l2 ->]].
        apply IH with (fresh := l1 ++ l2).
        -- eapply NoDup_remove_1; eassumption.
        -- intros x Hx. assert (Hxd : x <> d).
           { intros ->. now apply (NoDup_remove_2 _ _ _ Hnd). }
           destruct (Hincl x) as [Heq|Hr]; [|congruence|assumption].
           apply in_app_iff in Hx. apply in_app_iff. simpl. tauto.
        -- intros x Hx Hpos. apply in_app_iff in Hpos. destruct Hpos as [Hpos|[<-|[]]].
           ++ apply (Hdisj x); [|assumption].
              apply in_app_iff in Hx. apply in_app_iff. simpl. tauto.
           ++ now apply (NoDup_remove_2 _ _ _ Hnd).
        -- rewrite !length_app in *. simpl in *. lia.
      * apply IH with (fresh := fresh); try assumption.
        -- intros x Hx. destruct (Hincl x Hx) as [<-|Hr]; [contradiction | assumption].
        -- intros x Hx Hpos. apply in_app_iff in Hpos. destruct Hpos as [Hpos|[<-|[]]].
           ++ now apply (Hdisj x).
           ++ contradiction.
        -- rewrite length_app. simpl. lia.
Qed.

End HintTiles.

(** Drawing every position once is enough to leave the loop: there are
    never more tiles to choose than letters. *)
Lemma hint_tiles_can_be_chosen (wordLength : nat) :
  wordLength <= wordMaxLength ->
  exists ps, generateDefaultRevealedPositions wordLength (seq 0 wordLength) = Some ps.
Proof.
  intros Hlen. unfold generateDefaultRevealedPositions.
  destruct (selectPositions_returns (numToReveal hintRevealCap wordLength)
              (seq 0 wordLength) [] (seq 0 wordLength)) as [ps Hps].
  - apply seq_NoDup.
  - intros x Hx. exact Hx.
  - intros x _ [].
  - rewrite length_seq. simpl. now apply numToReveal_le.
  - rewrite Hps. simpl. eauto.
Qed.




(** ** Letters of the word *)

Section Letters.

Lemma split_length (w : string) : length (JS.split w) = String.length w.
Proof. induction w as [|c t IH]; simpl; congruence. Qed.

Lemma positionsFrom_In (letter : string) (wordArray : list string) (index q : nat) :
  In q (positionsFrom index letter wordArray) <->
  exists j, q = index + j /\ nth_error wordArray j = Some letter.
Proof.
  revert index. induction wordArray as [|char rest IH]; intros index; simpl.
  - split; [intros [] | intros [[|j] [_ H]]; discriminate].
  - destruct (String.eqb char letter) eqn:E; simpl; rewrite IH.
    + apply String.eqb_eq in E. subst char. split.
      * intros [<-|[j [-> Hj]]].
        -- exists 0. split; [lia | reflexivity].
        -- exists (S j). split; [lia | assumption].
      * intros [[|j] [-> Hj]]; [left; lia|]. right. exists j. split; [lia | assumption].
    + apply String.eqb_neq in E. split.
      * intros [j [-> Hj]]. exists (S j). split; [lia | assumption].
      * intros [[|j] [-> Hj]]; simpl in Hj; [congruence|].
        exists j. split; [lia | assumption].
Qed.

Lemma positionsFrom_sorted (letter : string) (wordArray : list string) (index : nat) :
  StronglySorted lt (positionsFrom index letter wordArray).
Proof.
  revert index. induction wordArray as [|char rest IH]; intros index; simpl.
  - constructor.
  - destruct (String.eqb char letter); [|apply IH].
    constructor; [apply IH|].
    apply Forall_forall. intros q Hq. apply positionsFrom_In in Hq.
    destruct Hq as [j [-> _]]. lia.
Qed.

Lemma letterPositionsOf_In (w : GameWord) (letter : string) (q : nat) :
  In q (letterPositionsOf letter (JS.split (word w))) <-> letterAt w q letter.
Proof.
  unfold letterPositionsOf, letterAt. rewrite positionsFrom_In. split.
  - intros [j [-> Hj]]. exact Hj.
  - intros H. exists q. split; [reflexivity | assumption].
Qed.

Lemma letterAt_lt (w : GameWord) (letter : string) (q : nat) :
  letterAt w q letter -> q < String.length (word w).
Proof.
  unfold letterAt. intros H. rewrite <- split_length.
  apply nth_error_Some. congruence.
Qed.

(** The head of a filtered ascending list is its least element that passes
    the filter. *)
Lemma filter_head_least (f : nat -> bool) (xs : list nat) (first : nat) (others : list nat) :
  StronglySorted lt xs ->
  filter f xs = first :: others ->
  In first xs /\ f first = true /\
  forall q, In q xs -> f q = true -> first <= q.
Proof.
  induction 1 as [|x xs Hs IH Hall]; simpl; [discriminate|].
  destruct (f x) eqn:E.
  - intros [= -> _]. repeat split; [now left | assumption |].
    intros q [<-|Hq] _; [lia|]. rewrite Forall_forall in Hall. specialize (Hall q Hq). lia.
  - intros Hf. destruct (IH Hf) as [H1 [H2 H3]]. repeat split; [now right | assumption |].
    intros q [<-|Hq] Hfq; [congruence | auto].
Qed.

Lemma filter_nil_none (f : nat -> bool) (xs : list nat) :
  filter f xs = [] -> forall q, In q xs -> f q = false.
Proof.
  induction xs as [|x xs IH]; simpl; [intros _ q []|].
  destruct (f x) eqn:E; [discriminate|].
  intros H q [<-|Hq]; [assumption | auto].
Qed.

Lemma startsWith_char (c : ascii) (t : string) :
  JS.startsWith (String c t) (String c EmptyString) = true.
Proof. simpl. rewrite Ascii.eqb_refl. now destruct t. Qed.

(** A letter found at an index of the word is found by [includes]. *)
Lemma includes_letterAt (w : GameWord) (p : nat) (letter : string) :
  letterAt w p letter -> JS.includes (word w) letter = true.
Proof.
  unfold letterAt. generalize (word w) as v. intros v. revert p.
  induction v as [|c t IH]; intros p; simpl JS.split.
  - destruct p; discriminate.
  - destruct p as [|p]; simpl nth_error.
    + intros [= <-]. cbn [JS.includes]. now rewrite startsWith_char.
    + intros H. cbn [JS.includes]. rewrite (IH p H). apply orb_true_r.
Qed.

(** A one-character string found by [includes] is one of the characters. *)
Lemma includes_char (v : string) (c : ascii) :
  JS.includes v (String c EmptyString) = true -> In c (list_ascii_of_string v).
Proof.
  induction v as [|b t IH]; cbn [JS.includes].
  - simpl. discriminate.
  - intros H. apply orb_true_iff in H. destruct H as [H|H].
    + simpl in H. apply andb_true_iff in H. destruct H as [H _].
      apply Ascii.eqb_eq in H. subst. now left.
    + right. auto.
Qed.

End Letters.

(** ** Guessing a letter *)

Section Guessing.

Variable stored : bool.

Lemma hidden_filter (s : State) (q : nat) :
  negb (JS.has (revealedPositions s) q) && negb (JS.has (defaultRevealedPositions s) q) = true
  <-> ~ shown s q.
Proof.
  unfold shown. rewrite andb_true_iff, !negb_true_iff, !has_false. tauto.
Qed.

Lemma unrevealed_first (s : State) (w : GameWord) (first : nat) (others : list nat) :
  unrevealedPositionsOf s w = first :: others ->
  letterAt w first (JS.toUpperCase (inputLetter s))
  /\ ~ shown s first
  /\ forall q, letterAt w q (JS.toUpperCase (inputLetter s)) -> ~ shown s q -> first <= q.
Proof.
  intros H. apply filter_head_least in H; [|apply positionsFrom_sorted].
  destruct H as [H1 [H2 H3]]. repeat split.
  - now apply letterPositionsOf_In.
  - now apply hidden_filter.
  - intros q Hq Hs. apply H3; [now apply letterPositionsOf_In | now apply hidden_filter].
Qed.

Lemma unrevealed_none (s : State) (w : GameWord) :
  unrevealedPositionsOf s w = [] <->
  forall q, letterAt w q (JS.toUpperCase (inputLetter s)) -> shown s q.
Proof.
  split.
  - intros H q Hq. apply letterPositionsOf_In in Hq.
    pose proof (filter_nil_none _ _ H q Hq) as Hf.
    destruct (in_dec Nat.eq_dec q (revealedPositions s)) as [|Hr]; [now left|].
    destruct (in_dec Nat.eq_dec q (defaultRevealedPositions s)) as [|Hd]; [now right|].
    assert (Ht : ~ shown s q) by (unfold shown; tauto).
    apply hidden_filter in Ht. congruence.
  - intros H. unfold unrevealedPositionsOf.
    destruct (filter _ _) as [|first others] eqn:E; [reflexivity|].
    apply (unrevealed_first s w) in E. destruct E as [H1 [H2 _]].
    exfalso. apply H2, H, H1.
Qed.

(** The three ways through [guessLetter] once a letter is in the box and a
    word is current. *)
Lemma guessLetter_absent (s : State) (w : GameWord) :
  inputLetter s <> EmptyString ->
  currentGameWord s = Some w ->
  JS.includes (word w) (JS.toUpperCase (inputLetter s)) = false ->
  guessLetter stored s = wrongGuessOutcome s.
Proof.
  intros Hin Hw Hinc. unfold guessLetter, guessLetterHandler, wrongGuessOutcome.
  destruct (inputLetter s) as [|c rest] eqn:E; [congruence|].
  rewrite Hw, Hinc. reflexivity.
Qed.

Lemma guessLetter_exhausted (s : State) (w : GameWord) :
  inputLetter s <> EmptyString ->
  currentGameWord s = Some w ->
  JS.includes (word w) (JS.toUpperCase (inputLetter s)) = true ->
  unrevealedPositionsOf s w = [] ->
  guessLetter stored s = wrongGuessOutcome s.
Proof.
  intros Hin Hw Hinc Hun. unfold guessLetter, guessLetterHandler, wrongGuessOutcome.
  destruct (inputLetter s) as [|c rest] eqn:E; [congruence|].
  rewrite Hw, Hinc. cbn [negb]. rewrite <- E.
  fold (unrevealedPositionsOf s w). rewrite Hun. reflexivity.
Qed.

Lemma guessLetter_reveal (s : State) (w : GameWord) (first : nat) (others : list nat) :
  inputLetter s <> EmptyString ->
  currentGameWord s = Some w ->
  JS.includes (word w) (JS.toUpperCase (inputLetter s)) = true ->
  unrevealedPositionsOf s w = first :: others ->
  guessLetter stored s = revealOutcome s w first.
Proof.
  intros Hin Hw Hinc Hun. unfold guessLetter, guessLetterHandler, revealOutcome.
  destruct (inputLetter s) as [|c rest] eqn:E; [congruence|].
  rewrite Hw, Hinc. cbn [negb]. rewrite <- E.
  fold (unrevealedPositionsOf s w). rewrite Hun. cbn zeta. fold (completes s w first).
  destruct (completes s w first); [|reflexivity].
  destruct (nth_error _ _); reflexivity.
Qed.

(** A score update is sent on one of these ways only. *)
Lemma guessLetterSent_empty (s : State) :
  inputLetter s = EmptyString -> guessLetterSent stored s = [].
Proof. intros H. unfold guessLetterSent, guessLetterHandler. now rewrite H. Qed.

Lemma guessLetterSent_no_word (s : State) :
  currentGameWord s = None -> guessLetterSent stored s = [].
Proof.
  intros Hw. unfold guessLetterSent, guessLetterHandler. rewrite Hw.
  destruct (inputLetter s); reflexivity.
Qed.

Lemma guessLetterSent_absent (s : State) (w : GameWord) :
  currentGameWord s = Some w ->
  JS.includes (word w) (JS.toUpperCase (inputLetter s)) = false ->
  guessLetterSent stored s = [].
Proof.
  intros Hw Hinc. unfold guessLetterSent, guessLetterHandler.
  destruct (inputLetter s) as [|c rest] eqn:E; [reflexivity|].
  rewrite Hw, Hinc. reflexivity.
Qed.

Lemma guessLetterSent_exhausted (s : State) (w : GameWord) :
  currentGameWord s = Some w ->
  unrevealedPositionsOf s w = [] ->
  guessLetterSent stored s = [].
Proof.
  intros Hw Hun. unfold guessLetterSent, guessLetterHandler.
  destruct (inputLetter s) as [|c rest] eqn:E; [reflexivity|].
  rewrite Hw. destruct (JS.includes _ _); [|reflexivity]. cbn [negb]. rewrite <- E.
  fold (unrevealedPositionsOf s w). rewrite Hun. reflexivity.
Qed.

Lemma guessLetterSent_reveal (s : State) (w : GameWord) (first : nat) (others : list nat) :
  inputLetter s <> EmptyString ->
  currentGameWord s = Some w ->
  JS.includes (word w) (JS.toUpperCase (inputLetter s)) = true ->
  unrevealedPositionsOf s w = first :: others ->
  guessLetterSent stored s = revealSent stored s w first.
Proof.
  intros Hin Hw Hinc Hun. unfold guessLetterSent, guessLetterHandler, revealSent.
  destruct (inputLetter s) as [|c rest] eqn:E; [congruence|].
  rewrite Hw, Hinc. cbn [negb]. rewrite <- E.
  fold (unrevealedPositionsOf s w). rewrite Hun. cbn zeta. fold (completes s w first).
  destruct (completes s w first); [|reflexivity].
  destruct (nth_error _ _); reflexivity.
Qed.

(** The answer to a score update touches nothing but the scores, and keeps
    the teams of the score rows. *)
Lemma scoreAnswered_fields (u : ScoreUpdate) (s : State) :
  teams (scoreAnswered u s) = teams s
  /\ words (scoreAnswered u s) = words s
  /\ currentGameId (scoreAnswered u s) = currentGameId s
  /\ currentWordIndex (scoreAnswered u s) = currentWordIndex s
  /\ currentTeam (scoreAnswered u s) = currentTeam s
  /\ originalTeamForQuestion (scoreAnswered u s) = originalTeamForQuestion s
  /\ guessedLetters (scoreAnswered u s) = guessedLetters s
  /\ revealedPositions (scoreAnswered u s) = revealedPositions s
  /\ defaultRevealedPositions (scoreAnswered u s) = defaultRevealedPositions s
  /\ wrongGuesses (scoreAnswered u s) = wrongGuesses s
  /\ gameState (scoreAnswered u s) = gameState s
  /\ inputLetter (scoreAnswered u s) = inputLetter s
  /\ teamsAttempted (scoreAnswered u s) = teamsAttempted s
  /\ isPassedQuestion (scoreAnswered u s) = isPassedQuestion s
  /\ map score_team_id (gameScores (scoreAnswered u s))
     = map score_team_id (gameScores s).
Proof.
  unfold scoreAnswered. destruct (su_stored u); cbn; repeat split.
  rewrite map_map. apply map_ext. intros score.
  destruct (_ =? _)%Z; reflexivity.
Qed.

Lemma revealOutcome_revealed (s : State) (w : GameWord) (first : nat) :
  revealedPositions (fst (revealOutcome s w first)) = revealedPositions s ++ [first]
  /\ defaultRevealedPositions (fst (revealOutcome s w first)) = defaultRevealedPositions s
  /\ guessedLetters (fst (revealOutcome s w first))
     = guessedLetters s ++ [JS.toUpperCase (inputLetter s)]
  /\ wrongGuesses (fst (revealOutcome s w first)) = wrongGuesses s.
Proof.
  unfold revealOutcome. destruct (completes s w first); [|cbn; tauto].
  destruct (nth_error _ _) as [team|]; cbn; tauto.
Qed.

End Guessing.

(** C5, on the newer revision.  A guess in phase Playing whose letter has an
    occurrence that is neither revealed nor a hint tile: [revealedPositions]
    grows by exactly one position, the lowest index among those hidden
    occurrences, and the hint tiles stay as they are. *)
Theorem guess_reveals_lowest_hidden
  (stored : bool) (s : State) (w : GameWord) (p : nat) :
  gameState s = playing ->
  inputLetter s <> EmptyString ->
  currentGameWord s = Some w ->
  letterAt w p (JS.toUpperCase (inputLetter s)) ->
  ~ shown s p ->
  exists first,
    letterAt w first (JS.toUpperCase (inputLetter s))
    /\ ~ shown s first
    /\ (forall q, letterAt w q (JS.toUpperCase (inputLetter s)) -> ~ shown s q -> first <= q)
    /\ revealedPositions (fst (guessLetter stored s)) = revealedPositions s ++ [first]
    /\ defaultRevealedPositions (fst (guessLetter stored s)) = defaultRevealedPositions s.
Proof.
  intros _ Hinput Hw Hp Hhidden.
  destruct (unrevealedPositionsOf s w) as [|first others] eqn:Hun.
  { exfalso. apply Hhidden. now apply (proj1 (unrevealed_none s w) Hun). }
  exists first. destruct (unrevealed_first s w first others Hun) as [H1 [H2 H3]].
  rewrite (guessLetter_reveal stored s w first others Hinput Hw
             (includes_letterAt w p _ Hp) Hun).
  destruct (revealOutcome_revealed s w first) as [Hr [Hd _]].
  repeat split; assumption.
Qed.

Lemma wrongGuessOutcome_fields (s : State) :
  wrongGuesses (fst (wrongGuessOutcome s)) = wrongGuesses s + 1
  /\ guessedLetters (fst (wrongGuessOutcome s))
     = guessedLetters s ++ [JS.toUpperCase (inputLetter s)]
  /\ revealedPositions (fst (wrongGuessOutcome s)) = revealedPositions s
  /\ defaultRevealedPositions (fst (wrongGuessOutcome s)) = defaultRevealedPositions s
  /\ gameState (fst (wrongGuessOutcome s)) = gameState s
  /\ gameScores (fst (wrongGuessOutcome s)) = gameScores s
  /\ snd (wrongGuessOutcome s)
     = if maxWrongGuesses <=? wrongGuesses s + 1
       then [(2000%Z, passQuestionCb (capture s))] else [].
Proof. unfold wrongGuessOutcome, countWrongGuess. cbn. tauto. Qed.

(** C6, on the newer revision.  A guess in phase Playing whose letter is in
    the word but has every occurrence shown already is handled as a wrong
    guess: [wrongGuesses] goes up by one and the delayed [passQuestion] is
    set once the count reaches [maxWrongGuesses]; the letter still joins
    [guessedLetters]; [revealedPositions], the hint tiles, the phase and the
    scores do not change. *)
Theorem guess_of_shown_letter_is_wrong (stored : bool) (s : State) (w : GameWord) :
  gameState s = playing ->
  inputLetter s <> EmptyString ->
  currentGameWord s = Some w ->
  JS.includes (word w) (JS.toUpperCase (inputLetter s)) = true ->
  (forall q, letterAt w q (JS.toUpperCase (inputLetter s)) -> shown s q) ->
  wrongGuesses (fst (guessLetter stored s)) = wrongGuesses s + 1
  /\ guessedLetters (fst (guessLetter stored s))
     = guessedLetters s ++ [JS.toUpperCase (inputLetter s)]
  /\ revealedPositions (fst (guessLetter stored s)) = revealedPositions s
  /\ defaultRevealedPositions (fst (guessLetter stored s)) = defaultRevealedPositions s
  /\ gameState (fst (guessLetter stored s)) = gameState s
  /\ gameScores (fst (guessLetter stored s)) = gameScores s
  /\ snd (guessLetter stored s)
     = if maxWrongGuesses <=? wrongGuesses s + 1
       then [(2000%Z, passQuestionCb (capture s))] else [].
Proof.
  intros _ Hinput Hw Hinc Hall.
  rewrite (guessLetter_exhausted stored s w Hinput Hw Hinc
             (proj2 (unrevealed_none s w) Hall)).
  apply wrongGuessOutcome_fields.
Qed.

(** ** Characters *)

Section Characters.

Lemma upperChar_lowerChar (c : ascii) :
  JS.isAlpha c = true -> JS.upperChar (JS.lowerChar c) = JS.upperChar c.
Proof.
  destruct c as [[] [] [] [] [] [] [] []]; intros H; try discriminate H; reflexivity.
Qed.

Lemma upperChar_idem (c : ascii) : JS.upperChar (JS.upperChar c) = JS.upperChar c.
Proof. destruct c as [[] [] [] [] [] [] [] []]; reflexivity. Qed.

Lemma upperChar_other (c : ascii) : JS.isAlpha c = false -> JS.upperChar c = c.
Proof.
  unfold JS.isAlpha, JS.upperChar. intros H. apply orb_false_iff in H.
  destruct H as [-> _]. reflexivity.
Qed.

End Characters.

Lemma guessLetter_empty (stored : bool) (s : State) :
  inputLetter s = EmptyString -> guessLetter stored s = (s, []).
Proof. intros H. unfold guessLetter, guessLetterHandler. now rewrite H. Qed.

(** C9, as the code has it.  An ASCII character that is not a letter is
    not ignored: on a word made of letters [guessLetter] appends it to
    [guessedLetters] and counts a wrong guess (the delayed [passQuestion] is
    set once the count reaches [maxWrongGuesses]); [revealedPositions], the
    phase and the scores stay as they are, and no error is raised.  The
    only input [guessLetter] ignores is the empty one. *)
Theorem nonletter_guess_counts_wrong
  (stored : bool) (s : State) (w : GameWord) (c : ascii) :
  JS.isAscii c = true ->
  JS.isAlpha c = false ->
  inputLetter s = String c EmptyString ->
  currentGameWord s = Some w ->
  Forall (fun b => JS.isAlpha b = true) (list_ascii_of_string (word w)) ->
  (guessedLetters (fst (guessLetter stored s)) = guessedLetters s ++ [String c EmptyString]
   /\ wrongGuesses (fst (guessLetter stored s)) = wrongGuesses s + 1
   /\ revealedPositions (fst (guessLetter stored s)) = revealedPositions s
   /\ gameState (fst (guessLetter stored s)) = gameState s
   /\ gameScores (fst (guessLetter stored s)) = gameScores s
   /\ snd (guessLetter stored s)
      = if maxWrongGuesses <=? wrongGuesses s + 1
        then [(2000%Z, passQuestionCb (capture s))] else [])
  /\ (forall s0, inputLetter s0 = EmptyString -> guessLetter stored s0 = (s0, [])).
Proof.
  intros _ Hc Hin Hw Hword. split; [|intros s0; apply guessLetter_empty].
  assert (Hletter : JS.toUpperCase (inputLetter s) = String c EmptyString).
  { rewrite Hin. simpl. now rewrite upperChar_other. }
  assert (Hinc : JS.includes (word w) (JS.toUpperCase (inputLetter s)) = false).
  { rewrite Hletter. destruct (JS.includes (word w) (String c EmptyString)) eqn:E; [|reflexivity].
    apply includes_char in E. rewrite Forall_forall in Hword.
    specialize (Hword c E). congruence. }
  assert (Hne : inputLetter s <> EmptyString) by (rewrite Hin; discriminate).
  rewrite (guessLetter_absent stored s w Hne Hw Hinc).
  destruct (wrongGuessOutcome_fields s) as [H1 [H2 [H3 [_ [H5 [H6 H7]]]]]].
  rewrite Hletter in H2. tauto.
Qed.

(** C10.  With a word current and a team at [currentTeam], guessing the
    lower-case form of a letter yields exactly what guessing its upper-case
    form yields: the same next state and the same timeouts. *)
Theorem guess_is_case_insensitive
  (stored : bool) (s : State) (c : ascii) (w : GameWord) (team : Team) :
  JS.isAlpha c = true ->
  currentGameWord s = Some w ->
  nth_error (teams s) (currentTeam s) = Some team ->
  guessLetter stored (setInputLetter (String (JS.lowerChar c) EmptyString) s)
  = guessLetter stored (setInputLetter (String (JS.upperChar c) EmptyString) s).
Proof.
  intros Hc Hw Hteam.
  unfold guessLetter, guessLetterHandler, currentGameWord in *. cbn.
  rewrite Hw, Hteam, (upperChar_lowerChar c Hc), upperChar_idem.
  destruct (negb _); [reflexivity|].
  destruct (filter _ _) as [|first others]; [reflexivity|].
  destruct (_ =? _); reflexivity.
Qed.

(** The score update sent is the same for both forms of the letter too. *)
Lemma guess_sends_case_insensitive
  (stored : bool) (s : State) (c : ascii) (w : GameWord) (team : Team) :
  JS.isAlpha c = true ->
  currentGameWord s = Some w ->
  nth_error (teams s) (currentTeam s) = Some team ->
  guessLetterSent stored (setInputLetter (String (JS.lowerChar c) EmptyString) s)
  = guessLetterSent stored (setInputLetter (String (JS.upperChar c) EmptyString) s).
Proof.
  intros Hc Hw Hteam.
  unfold guessLetterSent, guessLetterHandler, currentGameWord in *. cbn.
  rewrite Hw, Hteam, (upperChar_lowerChar c Hc), upperChar_idem.
  destruct (negb _); [reflexivity|].
  destruct (filter _ _) as [|first others]; [reflexivity|].
  destruct (_ =? _); reflexivity.
Qed.

(** ** Winning a word *)

Section Winning.

Lemma scoreOf_stored_same (scores : list GameScore) (teamId newPoints : Z) :
  In teamId (map score_team_id scores) ->
  scoreOf (map (fun score =>
                  if (score_team_id score =? teamId)%Z
                  then mkScore (score_team_id score) newPoints else score) scores) teamId
  = newPoints.
Proof.
  unfold scoreOf. induction scores as [|score rest IH]; simpl; [intros []|].
  intros Hin. destruct (score_team_id score =? teamId)%Z eqn:E; simpl.
  - now rewrite E.
  - rewrite E. apply IH. destruct Hin as [Heq|Hin]; [|assumption].
    apply Z.eqb_neq in E. congruence.
Qed.

Lemma scoreOf_stored_other (scores : list GameScore) (teamId other newPoints : Z) :
  other <> teamId ->
  scoreOf (map (fun score =>
                  if (score_team_id score =? teamId)%Z
                  then mkScore (score_team_id score) newPoints else score) scores) other
  = scoreOf scores other.
Proof.
  intros Hne. unfold scoreOf. induction scores as [|score rest IH]; simpl; [reflexivity|].
  destruct (score_team_id score =? teamId)%Z eqn:E; simpl.
  - apply Z.eqb_eq in E. assert (Hno : (score_team_id score =? other)%Z = false)
      by (apply Z.eqb_neq; congruence).
    now rewrite Hno.
  - destruct (score_team_id score =? other)%Z; [reflexivity | assumption].
Qed.

(** The update [updateGameScore] sends: none without a game row, else the
    score of the team in the render plus the points. *)
Lemma updateGameScore_sent (stored : bool) (teamId pts : Z) (s : State) :
  updateGameScore stored teamId pts s
  = if hasGame s
    then [mkScoreUpdate teamId (scoreOf (gameScores s) teamId + pts) stored]
    else [].
Proof.
  unfold updateGameScore, hasGame. destruct (currentGameId s) as [gameId|]; [|reflexivity].
  destruct (gameId =? 0)%Z; reflexivity.
Qed.

(** What the answer to an update does to the score of its team and to the
    scores of the others. *)
Lemma scoreAnswered_scores (u : ScoreUpdate) (s : State) :
  In (su_team_id u) (map score_team_id (gameScores s)) ->
  scoreOf (gameScores (scoreAnswered u s)) (su_team_id u)
  = (if su_stored u then su_points u else scoreOf (gameScores s) (su_team_id u))
  /\ forall other, other <> su_team_id u ->
       scoreOf (gameScores (scoreAnswered u s)) other = scoreOf (gameScores s) other.
Proof.
  intros Hin. unfold scoreAnswered. destruct (su_stored u); [|tauto]. cbn. split.
  - now apply scoreOf_stored_same.
  - intros other Hne. now apply scoreOf_stored_other.
Qed.

(** An answer with an error changes nothing at all. *)
Lemma scoreAnswered_error (u : ScoreUpdate) (s : State) :
  su_stored u = false -> scoreAnswered u s = s.
Proof. intros H. unfold scoreAnswered. now rewrite H. Qed.

Variable s : State.
Variable w : GameWord.

(** A guess that reveals nothing leaves shown what was shown. *)
Lemma wrongGuessOutcome_shown (p : nat) : shown (fst (wrongGuessOutcome s)) p <-> shown s p.
Proof. unfold shown, wrongGuessOutcome, countWrongGuess. cbn. tauto. Qed.

Lemma wrongGuessOutcome_covered :
  covered w (fst (wrongGuessOutcome s)) <-> covered w s.
Proof.
  unfold covered. split; intros H p Hp.
  - apply (proj1 (wrongGuessOutcome_shown p)). auto.
  - apply (proj2 (wrongGuessOutcome_shown p)). auto.
Qed.

(** Counting the distinct shown positions decides whether the word is
    covered. *)
Lemma completes_covered (first : nat) :
  positionsInWord w s ->
  letterAt w first (JS.toUpperCase (inputLetter s)) ->
  completes s w first = true <-> covered w (fst (revealOutcome s w first)).
Proof.
  intros Hpos Hfirst.
  destruct (revealOutcome_revealed s w first) as [Hr [Hd _]].
  unfold completes. rewrite Nat.eqb_eq, split_length, unique_length_covers.
  - unfold covered, shown. rewrite Hr, Hd. split; intros H p Hp.
    + apply in_app_iff. auto.
    + apply in_app_iff. auto.
  - unfold positionsInWord in Hpos. apply Forall_app in Hpos.
    destruct Hpos as [H1 H2]. apply Forall_app. split; [|assumption].
    apply Forall_app. split; [assumption|].
    constructor; [|constructor]. eapply letterAt_lt; eassumption.
Qed.

Lemma revealOutcome_gameState (first : nat) :
  gameState (fst (revealOutcome s w first))
  = if completes s w first then won else gameState s.
Proof.
  unfold revealOutcome. destruct (completes s w first); [|reflexivity].
  destruct (nth_error _ _) as [team|]; reflexivity.
Qed.

(** A guess never writes a score itself. *)
Lemma revealOutcome_scores (first : nat) :
  gameScores (fst (revealOutcome s w first)) = gameScores s.
Proof.
  unfold revealOutcome. destruct (completes s w first); [|reflexivity].
  destruct (nth_error _ _) as [team|]; reflexivity.
Qed.

(** On a win the update sent for the team at [currentTeam] writes its score
    in this render plus the points of the word, or plus 5 on a passed
    question. *)
Lemma revealSent_won (stored : bool) (first : nat) (team : Team) :
  completes s w first = true ->
  nth_error (teams s) (currentTeam s) = Some team ->
  revealSent stored s w first
  = (if hasGame s
     then [mkScoreUpdate (team_id team)
             (scoreOf (gameScores s) (team_id team)
              + (if isPassedQuestion s then 5 else points w)) stored]
     else [])
  /\ snd (revealOutcome s w first) = [(2000%Z, nextWordCb (capture s))].
Proof.
  intros Hc Hteam. unfold revealSent, revealOutcome. rewrite Hc, Hteam.
  split; [apply updateGameScore_sent | reflexivity].
Qed.

Lemma revealSent_open (stored : bool) (first : nat) :
  completes s w first = false -> revealSent stored s w first = [].
Proof. intros Hc. unfold revealSent. now rewrite Hc. Qed.

End Winning.

(** A guess wins the word exactly when it completes the cover.  It writes
    no score itself; when it wins it sends one update for the team at play,
    and otherwise none. *)
Lemma guessLetter_won_iff_covered (stored : bool) (s : State) (w : GameWord) :
  gameState s = playing ->
  inputLetter s <> EmptyString ->
  currentGameWord s = Some w ->
  positionsInWord w s ->
  ~ covered w s ->
  (gameState (fst (guessLetter stored s)) = won
   <-> covered w (fst (guessLetter stored s)))
  /\ gameScores (fst (guessLetter stored s)) = gameScores s
  /\ (gameState (fst (guessLetter stored s)) = won ->
      forall team,
        nth_error (teams s) (currentTeam s) = Some team ->
        guessLetterSent stored s
        = if hasGame s
          then [mkScoreUpdate (team_id team)
                  (scoreOf (gameScores s) (team_id team)
                   + (if isPassedQuestion s then 5 else points w)) stored]
          else [])
  /\ (gameState (fst (guessLetter stored s)) <> won -> guessLetterSent stored s = []).
Proof.
  intros Hplay Hinput Hw Hpos Hnot.
  assert (Hwrong : guessLetter stored s = wrongGuessOutcome s ->
            (gameState (fst (guessLetter stored s)) = won
             <-> covered w (fst (guessLetter stored s)))
            /\ gameScores (fst (guessLetter stored s)) = gameScores s
            /\ (gameState (fst (guessLetter stored s)) <> won)).
  { intros ->. destruct (wrongGuessOutcome_fields s) as [_ [_ [_ [_ [Hg [Hs _]]]]]].
    rewrite Hg, Hplay, wrongGuessOutcome_covered. split; [|split; [assumption|discriminate]].
    split; [discriminate | contradiction]. }
  destruct (JS.includes (word w) (JS.toUpperCase (inputLetter s))) eqn:Hinc.
  2: { destruct (Hwrong (guessLetter_absent stored s w Hinput Hw Hinc)) as [H1 [H2 H3]].
       split; [assumption|]. split; [assumption|]. split; [contradiction|].
       intros _. now apply guessLetterSent_absent with (w := w). }
  destruct (unrevealedPositionsOf s w) as [|first others] eqn:Hun.
  { destruct (Hwrong (guessLetter_exhausted stored s w Hinput Hw Hinc Hun)) as [H1 [H2 H3]].
    split; [assumption|]. split; [assumption|]. split; [contradiction|].
    intros _. now apply guessLetterSent_exhausted with (w := w). }
  rewrite (guessLetter_reveal stored s w first others Hinput Hw Hinc Hun).
  rewrite (guessLetterSent_reveal stored s w first others Hinput Hw Hinc Hun).
  destruct (unrevealed_first s w first others Hun) as [Hat _].
  pose proof (completes_covered s w first Hpos Hat) as Hcov.
  pose proof (revealOutcome_gameState s w first) as Hg.
  split; [|split; [apply revealOutcome_scores|split]].
  - rewrite <- Hcov, Hg. destruct (completes s w first).
    + tauto.
    + rewrite Hplay. split; discriminate.
  - intros Hwon team Hteam.
    assert (Hc : completes s w first = true).
    { rewrite Hg in Hwon. destruct (completes s w first); [reflexivity|congruence]. }
    apply (revealSent_won s w stored first team Hc Hteam).
  - intros Hopen. apply revealSent_open. rewrite Hg in Hopen.
    destruct (completes s w first); [now contradiction Hopen | reflexivity].
Qed.

(** ** Passing a word on *)

Section Passing.

(** The loop stops at the first team, counting on from [nextTeam] modulo 4,
    that has not attempted the word. *)
Lemma skipAttempted_first (fuel : nat) (attempted : list nat) (nextTeam found : nat) :
  nextTeam < 4 ->
  skipAttempted fuel attempted nextTeam = Some found ->
  exists k, k < fuel
    /\ found = (nextTeam + k) mod 4
    /\ ~ In found attempted
    /\ forall j, j < k -> In ((nextTeam + j) mod 4) attempted.
Proof.
  revert nextTeam. induction fuel as [|fuel IH]; intros nextTeam Hlt; cbn [skipAttempted];
    [discriminate|].
  destruct (JS.has attempted nextTeam) eqn:E.
  - intros H. apply IH in H; [|apply Nat.mod_upper_bound; lia].
    destruct H as [k [Hk [Hf [Hn Hall]]]]. exists (S k).
    assert (Hshift : forall i, ((nextTeam + 1) mod 4 + i) mod 4 = (nextTeam + S i) mod 4).
    { intros i. rewrite Nat.Div0.add_mod_idemp_l. f_equal. lia. }
    repeat split.
    + lia.
    + now rewrite <- Hshift.
    + assumption.
    + intros [|j] Hj.
      * rewrite Nat.add_0_r, Nat.mod_small by assumption. now apply has_In.
      * rewrite <- Hshift. apply Hall. lia.
  - intros [= <-]. exists 0. repeat split.
    + lia.
    + now rewrite Nat.add_0_r, Nat.mod_small.
    + now apply has_false.
    + intros j Hj. lia.
Qed.

(** Four tests are enough while fewer than four teams have attempted. *)
Lemma skipAttempted_finds (attempted : list nat) (nextTeam : nat) :
  length attempted < 4 ->
  nextTeam < 4 ->
  exists found, skipAttempted 4 attempted nextTeam = Some found.
Proof.
  intros Hlen Hlt.
  assert (Hmiss : JS.has attempted 0 = false \/ JS.has attempted 1 = false
                  \/ JS.has attempted 2 = false \/ JS.has attempted 3 = false).
  { destruct (JS.has attempted 0) eqn:E0; [|tauto].
    destruct (JS.has attempted 1) eqn:E1; [|tauto].
    destruct (JS.has attempted 2) eqn:E2; [|tauto].
    destruct (JS.has attempted 3) eqn:E3; [|tauto].
    exfalso. apply has_In in E0, E1, E2, E3.
    assert (Hle : length [0; 1; 2; 3] <= length attempted).
    { apply NoDup_incl_length.
      - repeat constructor; simpl; intuition lia.
      - intros x [<-|[<-|[<-|[<-|[]]]]]; assumption. }
    simpl in Hle. lia. }
  destruct nextTeam as [|[|[|[|n]]]]; [| | | |lia]; cbn;
    destruct (JS.has attempted 0), (JS.has attempted 1),
             (JS.has attempted 2), (JS.has attempted 3);
    eauto; intuition discriminate.
Qed.

(** The delayed callback of a won or lost word, written out. *)
Lemma nextWord_fields (r : Closure) (s : State) :
  (cl_currentWordIndex r + 1 < length (cl_words r) ->
     currentWordIndex (fst (nextWord r s)) = cl_currentWordIndex r + 1
     /\ originalTeamForQuestion (fst (nextWord r s)) = (cl_currentWordIndex r + 1) mod 4
     /\ currentTeam (fst (nextWord r s)) = (cl_currentWordIndex r + 1) mod 4
     /\ teamsAttempted (fst (nextWord r s)) = []
     /\ isPassedQuestion (fst (nextWord r s)) = false
     /\ guessedLetters (fst (nextWord r s)) = []
     /\ revealedPositions (fst (nextWord r s)) = []
     /\ wrongGuesses (fst (nextWord r s)) = 0
     /\ gameState (fst (nextWord r s)) = playing)
  /\ (length (cl_words r) <= cl_currentWordIndex r + 1 ->
     nextWord r s = (setGameState finished s, [])).
Proof.
  unfold nextWord. split; intros H.
  - apply Nat.ltb_lt in H. rewrite H. cbn. tauto.
  - apply Nat.ltb_ge in H. now rewrite H.
Qed.

End Passing.

(** C2, as the code has it.  A call of [passQuestion], from the Pass button
    or from the timeout of an exhausted team, writes [teamsAttempted] as the
    list of the render it was created in with that render's team appended.
    When that render is the current one this adds the current team and the
    size grows by exactly 1.  Once the written list holds 4 teams the phase
    becomes Lost and one callback is set; whenever it fires it moves to the
    word after the one of that render, hands it to team [(index + 1) mod 4]
    as assigned and current team, clears [teamsAttempted] and
    [isPassedQuestion] and begins a fresh round, or it ends the game in
    Finished when that word was the last. *)
Theorem pass_appends_team (r : Closure) (s : State) :
  teamsAttempted (fst (nextTeamOrWord r s)) = cl_teamsAttempted r ++ [cl_currentTeam r]
  /\ (r = capture s ->
      teamsAttempted (fst (nextTeamOrWord r s)) = teamsAttempted s ++ [currentTeam s]
      /\ length (teamsAttempted (fst (nextTeamOrWord r s))) = length (teamsAttempted s) + 1)
  /\ (4 <= length (teamsAttempted (fst (nextTeamOrWord r s))) ->
      gameState (fst (nextTeamOrWord r s)) = lost
      /\ snd (nextTeamOrWord r s) = [(3000%Z, nextWordCb r)]
      /\ forall later : State,
           (cl_currentWordIndex r + 1 < length (cl_words r) ->
              currentWordIndex (fst (nextWord r later)) = cl_currentWordIndex r + 1
              /\ originalTeamForQuestion (fst (nextWord r later))
                 = (cl_currentWordIndex r + 1) mod 4
              /\ currentTeam (fst (nextWord r later)) = (cl_currentWordIndex r + 1) mod 4
              /\ teamsAttempted (fst (nextWord r later)) = []
              /\ isPassedQuestion (fst (nextWord r later)) = false
              /\ guessedLetters (fst (nextWord r later)) = []
              /\ revealedPositions (fst (nextWord r later)) = []
              /\ wrongGuesses (fst (nextWord r later)) = 0
              /\ gameState (fst (nextWord r later)) = playing)
           /\ (cl_currentWordIndex r + 1 = length (cl_words r) ->
              gameState (fst (nextWord r later)) = finished)).
Proof.
  assert (Hatt : teamsAttempted (fst (nextTeamOrWord r s))
                 = cl_teamsAttempted r ++ [cl_currentTeam r]).
  { unfold nextTeamOrWord. destruct (4 <=? _); [reflexivity|].
    destruct (skipAttempted _ _ _); reflexivity. }
  split; [assumption|]. split.
  - intros ->. rewrite Hatt. cbn. split; [reflexivity|]. now rewrite length_app.
  - rewrite Hatt. intros Hfull. unfold nextTeamOrWord.
    apply Nat.leb_le in Hfull. rewrite Hfull. cbn.
    split; [reflexivity|]. split; [reflexivity|]. intros later.
    destruct (nextWord_fields r later) as [Hnext Hlast]. split; [assumption|].
    intros Heq. rewrite Hlast by lia. reflexivity.
Qed.

(** C3, as the code has it.  [passQuestion] runs and the list of the render
    it was created in, with that render's team added, holds fewer than 4
    teams: the new [currentTeam] is the first index outside that list met
    when counting on from [(currentTeam + 1) mod 4] of that render,
    [isPassedQuestion] becomes true, [guessedLetters], [revealedPositions]
    and [wrongGuesses] are reset, and the hint tiles and the word stay.
    For the Pass button the render is the current one. *)
Theorem pass_hands_word_to_next_team (r : Closure) (s : State) :
  length (cl_teamsAttempted r ++ [cl_currentTeam r]) < 4 ->
  (exists k, k < 4
     /\ currentTeam (fst (nextTeamOrWord r s)) = ((cl_currentTeam r + 1) mod 4 + k) mod 4
     /\ ~ In (currentTeam (fst (nextTeamOrWord r s)))
             (teamsAttempted (fst (nextTeamOrWord r s)))
     /\ forall j, j < k ->
          In (((cl_currentTeam r + 1) mod 4 + j) mod 4)
             (teamsAttempted (fst (nextTeamOrWord r s))))
  /\ teamsAttempted (fst (nextTeamOrWord r s)) = cl_teamsAttempted r ++ [cl_currentTeam r]
  /\ isPassedQuestion (fst (nextTeamOrWord r s)) = true
  /\ guessedLetters (fst (nextTeamOrWord r s)) = []
  /\ revealedPositions (fst (nextTeamOrWord r s)) = []
  /\ wrongGuesses (fst (nextTeamOrWord r s)) = 0
  /\ gameState (fst (nextTeamOrWord r s)) = playing
  /\ defaultRevealedPositions (fst (nextTeamOrWord r s)) = defaultRevealedPositions s
  /\ currentWordIndex (fst (nextTeamOrWord r s)) = currentWordIndex s.
Proof.
  intros Hlen.
  assert (Hstart : (cl_currentTeam r + 1) mod 4 < 4) by (apply Nat.mod_upper_bound; lia).
  destruct (skipAttempted_finds _ _ Hlen Hstart) as [found Hfound].
  unfold nextTeamOrWord. apply Nat.leb_gt in Hlen. rewrite Hlen, Hfound.
  cbn -[Nat.modulo].
  destruct (skipAttempted_first 4 _ _ found Hstart Hfound) as [k [Hk [Hf [Hn Hall]]]].
  split; [|repeat split; reflexivity].
  exists k. rewrite <- Hf. repeat split; assumption.
Qed.

(** ** Timeouts *)

Section Timeouts.

Lemma takeEarliest_In (ts : list Timer) (t : Timer) (rest : list Timer) :
  takeEarliest ts = Some (t, rest) ->
  forall x, In x ts <-> x = t \/ In x rest.
Proof.
  revert t rest. induction ts as [|a ts IH]; intros t rest; simpl; [discriminate|].
  destruct (takeEarliest ts) as [[m rest']|] eqn:E.
  - specialize (IH m rest' eq_refl).
    destruct (due a <=? due m)%Z; intros [= <- <-]; intros x.
    + split; [intros [->|H]; auto | intros [->|H]; auto].
    + rewrite IH. simpl. split; intros H; intuition (subst; auto).
  - intros [= <- <-] x. destruct ts as [|b ts]; [|simpl in E; destruct (takeEarliest ts) as [[? ?]|];
      [destruct (due b <=? due t)%Z|]; discriminate].
    simpl. intuition (subst; auto).
Qed.

Lemma takeEarliest_earliest (ts : list Timer) (t : Timer) (rest : list Timer) :
  takeEarliest ts = Some (t, rest) ->
  forall x, In x ts -> (due t <= due x)%Z.
Proof.
  revert t rest. induction ts as [|a ts IH]; intros t rest; simpl; [discriminate|].
  destruct (takeEarliest ts) as [[m rest']|] eqn:E.
  - specialize (IH m rest' eq_refl).
    destruct (due a <=? due m)%Z eqn:Hle; intros [= <- <-]; intros x [<-|Hx].
    + lia.
    + apply Z.leb_le in Hle. specialize (IH x Hx). lia.
    + apply Z.leb_gt in Hle. lia.
    + auto.
  - intros [= <- <-] x [<-|Hx]; [lia|].
    destruct ts as [|b ts]; [destruct Hx|].
    simpl in E. destruct (takeEarliest ts) as [[? ?]|]; [destruct (due b <=? due _)%Z|];
      discriminate.
Qed.

End Timeouts.

(** ** Wrong guesses along a game *)

Section WrongGuesses.

Lemma guessLetter_wrong_le (stored : bool) (s : State) :
  wrongGuesses (fst (guessLetter stored s)) <= wrongGuesses s + 1.
Proof.
  destruct (inputLetter s) as [|c rest] eqn:Hin.
  { rewrite guessLetter_empty by assumption. simpl. lia. }
  assert (Hne : inputLetter s <> EmptyString) by (rewrite Hin; discriminate).
  destruct (currentGameWord s) as [w|] eqn:Hw.
  2: { unfold guessLetter, guessLetterHandler. rewrite Hin, Hw. cbn. lia. }
  assert (Hwrong : wrongGuesses (fst (wrongGuessOutcome s)) <= wrongGuesses s + 1).
  { destruct (wrongGuessOutcome_fields s) as [-> _]. lia. }
  destruct (JS.includes (word w) (JS.toUpperCase (inputLetter s))) eqn:Hinc.
  2: { now rewrite (guessLetter_absent stored s w Hne Hw Hinc). }
  destruct (unrevealedPositionsOf s w) as [|first others] eqn:Hun.
  { now rewrite (guessLetter_exhausted stored s w Hne Hw Hinc Hun). }
  rewrite (guessLetter_reveal stored s w first others Hne Hw Hinc Hun).
  destruct (revealOutcome_revealed s w first) as [_ [_ [_ ->]]]. lia.
Qed.

Lemma nextTeamOrWord_wrong_le (r : Closure) (s : State) :
  wrongGuesses (fst (nextTeamOrWord r s)) <= wrongGuesses s.
Proof.
  unfold nextTeamOrWord. destruct (4 <=? _); [cbn; lia|].
  destruct (skipAttempted _ _ _); cbn; lia.
Qed.

Lemma nextWord_wrong_le (r : Closure) (s : State) :
  wrongGuesses (fst (nextWord r s)) <= wrongGuesses s.
Proof. unfold nextWord. destruct (_ <? _); cbn; lia. Qed.

Lemma runCallback_wrong_le (cb : Callback) (s : State) :
  wrongGuesses (fst (runCallback cb s)) <= wrongGuesses s.
Proof.
  destruct cb as [r|r|]; simpl;
    [apply nextTeamOrWord_wrong_le | apply nextWord_wrong_le | lia].
Qed.

Lemma hintEffect_wrong (draws : list nat) (before after s' : State) :
  hintEffect draws before after = Some s' -> wrongGuesses s' = wrongGuesses after.
Proof.
  unfold hintEffect. destruct (_ =? _); [now intros [= <-]|].
  destruct (currentGameWord after) as [w|]; [|now intros [= <-]].
  destruct (forallb _ _); [|discriminate].
  destruct (generateDefaultRevealedPositions _ _); simpl; [|discriminate].
  now intros [= <-].
Qed.

(** One event keeps the count within the maximum, unless it is a guess
    pressed with the maximum already reached. *)
Lemma step_wrong_bounded (sys sys' : Sys) (e : Event) :
  step sys e = Some sys' ->
  wrongGuesses (st sys) <= maxWrongGuesses ->
  match e with
  | GuessPressed _ _ => wrongGuesses (st sys) < maxWrongGuesses
  | _ => True
  end ->
  wrongGuesses (st sys') <= maxWrongGuesses.
Proof.
  intros Hstep Hle Hguard. destruct e as [dt value|dt stored|dt|draws|dt k]; simpl in Hstep.
  - destruct (userMay sys dt && _ && _); [|discriminate].
    injection Hstep as <-. exact Hle.
  - destruct (userMay sys dt); [|discriminate]. injection Hstep as <-. simpl.
    pose proof (guessLetter_wrong_le stored (st sys)). lia.
  - destruct (userMay sys dt); [|discriminate]. injection Hstep as <-. simpl.
    pose proof (nextTeamOrWord_wrong_le (capture (st sys)) (st sys)).
    unfold passQuestion. lia.
  - destruct (takeEarliest (timers sys)) as [[t rest]|]; [|discriminate].
    destruct (hintEffect _ _ _) as [s'|] eqn:Heff; [|discriminate].
    injection Hstep as <-. simpl. rewrite (hintEffect_wrong _ _ _ _ Heff).
    pose proof (runCallback_wrong_le (callback t) (st sys)). lia.
  - destruct (answerMay sys dt); [|discriminate].
    destruct (nth_error (requests sys) k) as [u|]; [|discriminate].
    injection Hstep as <-. simpl.
    assert (Hsame : wrongGuesses (scoreAnswered u (st sys)) = wrongGuesses (st sys))
      by apply scoreAnswered_fields.
    lia.
Qed.

Lemma run_wrong_bounded (es : list Event) (sys sys' : Sys) :
  wrongGuesses (st sys) <= maxWrongGuesses ->
  guessesBelowMax sys es ->
  run sys es = Some sys' ->
  wrongGuesses (st sys') <= maxWrongGuesses.
Proof.
  revert sys. induction es as [|e es IH]; intros sys Hle Hguard; simpl.
  - now intros [= <-].
  - destruct Hguard as [Hg Hrest]. destruct (step sys e) as [next|] eqn:Hstep; [|discriminate].
    apply IH; [eapply step_wrong_bounded; eassumption | assumption].
Qed.

Lemma startGame_wrong (teamsData : list Team) (wordsData : list GameWord)
  (gameId : Z) (draws : list nat) (sys : Sys) :
  startGame teamsData wordsData gameId draws = Some sys -> wrongGuesses (st sys) = 0.
Proof.
  unfold startGame. destruct teamsData as [|team ?]; [discriminate|].
  destruct wordsData as [|w ?]; [discriminate|].
  destruct (forallb _ _); [|discriminate].
  destruct (generateDefaultRevealedPositions _ _); simpl; [|discriminate].
  now intros [= <-].
Qed.

End WrongGuesses.

(** C7, as the code has it.  [wrongGuesses] is a natural number, 0 when the
    game starts; throughout every game in which Guess is never pressed with
    [maxWrongGuesses] wrong guesses already counted it stays within 0..4.
    [guessLetter] has no bound of its own: a guess pressed after the fourth
    wrong one, while the delayed [passQuestion] is pending, counts on. *)
Theorem wrong_guesses_within_max
  (teamsData : list Team) (wordsData : list GameWord) (gameId : Z)
  (draws : list nat) (start sys : Sys) (es : list Event) :
  startGame teamsData wordsData gameId draws = Some start ->
  guessesBelowMax start es ->
  run start es = Some sys ->
  0 <= wrongGuesses (st sys) <= maxWrongGuesses.
Proof.
  intros Hstart Hguard Hrun. split; [lia|].
  apply (run_wrong_bounded es start sys); try assumption.
  rewrite (startGame_wrong _ _ _ _ _ Hstart). unfold maxWrongGuesses. lia.
Qed.

(** C8, as the code has it.  No timeout is ever cancelled: across every
    event each pending timeout stays pending, except the one that fires,
    and that one is a timeout no other pending one is due before.  So a
    delayed transition set in one round is still there, and fires, after
    later rounds have begun. *)
Theorem pending_timeouts_stay (sys sys' : Sys) (e : Event) (t : Timer) :
  step sys e = Some sys' ->
  In t (timers sys) ->
  In t (timers sys')
  \/ exists draws rest,
       e = TimeoutFired draws
       /\ takeEarliest (timers sys) = Some (t, rest)
       /\ forall other, In other (timers sys) -> (due t <= due other)%Z.
Proof.
  intros Hstep Hin. destruct e as [dt value|dt stored|dt|draws|dt k]; simpl in Hstep.
  - destruct (userMay sys dt && _ && _); [|discriminate]. injection Hstep as <-.
    left. simpl. apply in_app_iff. now left.
  - destruct (userMay sys dt); [|discriminate]. injection Hstep as <-.
    left. simpl. apply in_app_iff. now left.
  - destruct (userMay sys dt); [|discriminate]. injection Hstep as <-.
    left. simpl. apply in_app_iff. now left.
  - destruct (takeEarliest (timers sys)) as [[fired rest]|] eqn:Htake; [|discriminate].
    destruct (hintEffect _ _ _) as [s'|]; [|discriminate]. injection Hstep as <-.
    apply (takeEarliest_In _ _ _ Htake) in Hin. destruct Hin as [->|Hin].
    + right. exists draws, rest. repeat split.
      apply (takeEarliest_earliest _ _ _ Htake).
    + left. simpl. apply in_app_iff. now left.
  - destruct (answerMay sys dt); [|discriminate].
    destruct (nth_error (requests sys) k) as [u|]; [|discriminate].
    injection Hstep as <-. left. exact Hin.
Qed.

(** ** Rounds of a game *)

(** With nothing revealed the hint tiles alone never cover the word. *)
Lemma hints_do_not_cover (s : State) (w : GameWord) :
  revealedPositions s = [] ->
  length (defaultRevealedPositions s) < String.length (word w) ->
  ~ covered w s.
Proof.
  intros Hr Hlen Hcov. unfold covered, shown in Hcov. rewrite Hr in Hcov.
  assert (Hle : length (seq 0 (String.length (word w)))
                <= length (defaultRevealedPositions s)).
  { apply NoDup_incl_length; [apply seq_NoDup|].
    intros p Hp. apply in_seq in Hp. destruct (Hcov p) as [[]|H]; [lia | exact H]. }
  rewrite length_seq in Hle. lia.
Qed.

(** The hint tiles drawn for a word lie inside it and are fewer than its
    letters. *)
Lemma generated_hints_fit (wordLength : nat) (draws ps : list nat) :
  0 < wordLength <= wordMaxLength ->
  forallb (fun d => d <? wordLength) draws = true ->
  generateDefaultRevealedPositions wordLength draws = Some ps ->
  Forall (fun p => p < wordLength) ps /\ length ps < wordLength.
Proof.
  intros Hlen Hdraws. unfold generateDefaultRevealedPositions.
  destruct (selectPositions _ _ _) as [chosen|] eqn:Hsel; simpl; [|discriminate].
  intros [= <-].
  assert (Hall : Forall (fun d => d < wordLength) draws).
  { apply Forall_forall. intros d Hd. rewrite forallb_forall in Hdraws.
    now apply Nat.ltb_lt, Hdraws. }
  destruct (selectPositions_inv (numToReveal hintRevealCap wordLength) wordLength draws []
              chosen Hall) as [Hk [_ Hin]];
    [constructor | constructor | simpl; lia | assumption |].
  split.
  - rewrite Forall_forall in *. intros p Hp. apply Hin. now apply sortAsc_In.
  - rewrite sortAsc_length, Hk. unfold numToReveal.
    rewrite floorOfThreeTenths_exact by lia.
    assert (wordLength * 3 / 10 < wordLength).
    { apply Nat.Div0.div_lt_upper_bound. lia. }
    lia.
Qed.

Section Rounds.

Variable wordsData : list GameWord.
Hypothesis HwordsOk : Forall wordOk wordsData.

(** The invariant only looks at the word, the positions, the phase and the
    score rows. *)
Lemma roundOk_same (s s' : State) :
  roundOk wordsData s ->
  words s' = words s ->
  teams s' = teams s ->
  map score_team_id (gameScores s') = map score_team_id (gameScores s) ->
  currentWordIndex s' = currentWordIndex s ->
  revealedPositions s' = revealedPositions s ->
  defaultRevealedPositions s' = defaultRevealedPositions s ->
  (gameState s' = playing -> gameState s = playing) ->
  roundOk wordsData s'.
Proof.
  intros [Hw [Hsc [w [Hcur [Hpos [Hlen Hcov]]]]]] Ew Et Es Ei Er Ed Eg.
  unfold roundOk, currentGameWord, positionsInWord, covered, shown in *.
  rewrite Ew, Et, Es, Ei, Er, Ed. repeat split; try assumption.
  exists w. repeat split; try assumption.
  intros Hp. apply Hcov. now apply Eg.
Qed.

Lemma roundOk_reset (s s' : State) :
  roundOk wordsData s ->
  words s' = words s ->
  teams s' = teams s ->
  map score_team_id (gameScores s') = map score_team_id (gameScores s) ->
  currentWordIndex s' = currentWordIndex s ->
  revealedPositions s' = [] ->
  defaultRevealedPositions s' = defaultRevealedPositions s ->
  roundOk wordsData s'.
Proof.
  intros [Hw [Hsc [w [Hcur [Hpos [Hlen Hcov]]]]]] Ew Et Es Ei Er Ed.
  unfold roundOk. rewrite Ew, Et, Es. repeat split; try assumption.
  exists w. repeat split.
  - unfold currentGameWord in *. now rewrite Ew, Ei.
  - unfold positionsInWord in *. rewrite Er, Ed. apply Forall_app in Hpos. tauto.
  - now rewrite Ed.
  - intros _. apply hints_do_not_cover; [assumption | now rewrite Ed].
Qed.

Lemma roundOk_guess (stored : bool) (s : State) :
  roundOk wordsData s -> roundOk wordsData (fst (guessLetter stored s)).
Proof.
  intros Hok. destruct (inputLetter s) as [|c rest] eqn:Hin.
  { now rewrite guessLetter_empty. }
  assert (Hne : inputLetter s <> EmptyString) by (rewrite Hin; discriminate).
  pose proof Hok as [Hw [Hsc [w [Hcur [Hpos [Hlen Hcov]]]]]].
  assert (Hwrong : roundOk wordsData (fst (wrongGuessOutcome s))).
  { apply (roundOk_same s); try assumption; try reflexivity. cbn. tauto. }
  destruct (JS.includes (word w) (JS.toUpperCase (inputLetter s))) eqn:Hinc.
  2: { now rewrite (guessLetter_absent stored s w Hne Hcur Hinc). }
  destruct (unrevealedPositionsOf s w) as [|first others] eqn:Hun.
  { now rewrite (guessLetter_exhausted stored s w Hne Hcur Hinc Hun). }
  rewrite (guessLetter_reveal stored s w first others Hne Hcur Hinc Hun).
  destruct (unrevealed_first s w first others Hun) as [Hat _].
  destruct (revealOutcome_revealed s w first) as [Hr [Hd _]].
  pose proof (revealOutcome_gameState s w first) as Hg.
  pose proof (completes_covered s w first Hpos Hat) as Hcc.
  assert (Hkeep : words (fst (revealOutcome s w first)) = words s
                  /\ teams (fst (revealOutcome s w first)) = teams s
                  /\ currentWordIndex (fst (revealOutcome s w first)) = currentWordIndex s
                  /\ map score_team_id (gameScores (fst (revealOutcome s w first)))
                     = map score_team_id (gameScores s)).
  { unfold revealOutcome. destruct (completes s w first); [|cbn; tauto].
    destruct (nth_error _ _) as [team|]; cbn; tauto. }
  destruct Hkeep as [Kw [Kt [Ki Ks]]].
  unfold roundOk. rewrite Kw, Kt, Ks. repeat split; try assumption.
  exists w. repeat split.
  - unfold currentGameWord in *. now rewrite Kw, Ki.
  - unfold positionsInWord in *. rewrite Hr, Hd. apply Forall_app in Hpos.
    destruct Hpos as [H1 H2]. apply Forall_app. split; [|assumption].
    apply Forall_app. split; [assumption|].
    constructor; [|constructor]. eapply letterAt_lt; eassumption.
  - now rewrite Hd.
  - rewrite Hg. destruct (completes s w first); [discriminate|].
    intros _ Hc. apply Hcc in Hc. discriminate.
Qed.

Lemma roundOk_answered (u : ScoreUpdate) (s : State) :
  roundOk wordsData s -> roundOk wordsData (scoreAnswered u s).
Proof.
  intros Hok. apply (roundOk_same s); try assumption; try apply scoreAnswered_fields.
  intros Hplay. rewrite <- Hplay. symmetry. apply scoreAnswered_fields.
Qed.

Lemma roundOk_pass (r : Closure) (s : State) :
  roundOk wordsData s -> roundOk wordsData (fst (nextTeamOrWord r s)).
Proof.
  intros Hok. unfold nextTeamOrWord. destruct (4 <=? _).
  - apply (roundOk_same s); try assumption; try reflexivity. cbn. discriminate.
  - destruct (skipAttempted _ _ _).
    + apply (roundOk_reset s); try assumption; reflexivity.
    + apply (roundOk_same s); try assumption; try reflexivity. cbn. tauto.
Qed.

Lemma roundOk_nextWord (r : Closure) (s s' : State) (draws : list nat) :
  roundOk wordsData s ->
  cl_words r = wordsData ->
  hintEffect draws s (fst (nextWord r s)) = Some s' ->
  roundOk wordsData s'.
Proof.
  intros Hok Hr. pose proof Hok as [Hw [Hsc [w [Hcur [Hpos [Hlen Hcov]]]]]].
  unfold nextWord. destruct (_ <? _) eqn:Hnext.
  2: { unfold hintEffect. cbn. rewrite Nat.eqb_refl. intros [= <-].
       apply (roundOk_same s); try assumption; try reflexivity. cbn. discriminate. }
  apply Nat.ltb_lt in Hnext. rewrite Hr in Hnext.
  unfold hintEffect. cbn [fst resetGame]. cbn.
  destruct (currentWordIndex s =? cl_currentWordIndex r + 1) eqn:Hsame.
  { intros [= <-]. apply Nat.eqb_eq in Hsame.
    apply (roundOk_reset s); try assumption; try reflexivity. cbn. congruence. }
  unfold currentGameWord. cbn. rewrite Hw.
  destruct (nth_error wordsData (cl_currentWordIndex r + 1)) as [w'|] eqn:Hw'.
  2: { apply nth_error_None in Hw'. lia. }
  assert (Hgood : wordOk w').
  { rewrite Forall_forall in HwordsOk. apply HwordsOk. eapply nth_error_In; eassumption. }
  destruct (forallb _ draws) eqn:Hdraws; [|discriminate].
  destruct (generateDefaultRevealedPositions _ _) as [ps|] eqn:Hgen; simpl; [|discriminate].
  intros [= <-].
  destruct (generated_hints_fit _ draws ps Hgood Hdraws Hgen) as [Hfit Hfew].
  unfold roundOk. cbn. repeat split; try assumption.
  exists w'. repeat split.
  - unfold currentGameWord. cbn. now rewrite Hw.
  - unfold positionsInWord. cbn. assumption.
  - cbn. assumption.
  - intros _. apply hints_do_not_cover; cbn; [reflexivity | assumption].
Qed.

Lemma roundOk_callback (cb : Callback) (s s' : State) (draws : list nat) :
  roundOk wordsData s ->
  match cb with
  | passQuestionCb r | nextWordCb r => cl_words r = wordsData
  | hideLeaderboardCb => True
  end ->
  hintEffect draws s (fst (runCallback cb s)) = Some s' ->
  roundOk wordsData s'.
Proof.
  intros Hok Hcb. destruct cb as [r|r|]; simpl.
  - assert (Hidx : currentWordIndex (fst (nextTeamOrWord r s)) = currentWordIndex s).
    { unfold nextTeamOrWord. destruct (4 <=? _); [reflexivity|].
      destruct (skipAttempted _ _ _); reflexivity. }
    unfold hintEffect. rewrite Hidx, Nat.eqb_refl. intros [= <-]. now apply roundOk_pass.
  - now apply roundOk_nextWord.
  - unfold hintEffect. cbn. rewrite Nat.eqb_refl. intros [= <-].
    apply (roundOk_same s); try assumption; try reflexivity. cbn. tauto.
Qed.

Lemma closuresOk_schedule (ts : list Timer) (t : Z) (calls : list (Z * Callback)) :
  closuresOk wordsData ts -> callsOk wordsData calls ->
  closuresOk wordsData (ts ++ schedule t calls).
Proof.
  intros Hts Hcalls x Hx. apply in_app_iff in Hx. destruct Hx as [Hx|Hx]; [now apply Hts|].
  unfold schedule in Hx. apply in_map_iff in Hx. destruct Hx as [call [<- Hcall]].
  simpl. now apply Hcalls.
Qed.

Lemma callsOk_guess (stored : bool) (s : State) :
  words s = wordsData -> callsOk wordsData (snd (guessLetter stored s)).
Proof.
  intros Hw. destruct (inputLetter s) as [|c rest] eqn:Hin.
  { rewrite guessLetter_empty by assumption. intros call []. }
  assert (Hne : inputLetter s <> EmptyString) by (rewrite Hin; discriminate).
  destruct (currentGameWord s) as [w|] eqn:Hcur.
  2: { unfold guessLetter, guessLetterHandler. rewrite Hin, Hcur. intros call []. }
  assert (Hwrong : callsOk wordsData (snd (wrongGuessOutcome s))).
  { destruct (wrongGuessOutcome_fields s) as [_ [_ [_ [_ [_ [_ ->]]]]]].
    destruct (maxWrongGuesses <=? _); intros call; [intros [<-|[]]; exact Hw | intros []]. }
  destruct (JS.includes (word w) (JS.toUpperCase (inputLetter s))) eqn:Hinc.
  2: { now rewrite (guessLetter_absent stored s w Hne Hcur Hinc). }
  destruct (unrevealedPositionsOf s w) as [|first others] eqn:Hun.
  { now rewrite (guessLetter_exhausted stored s w Hne Hcur Hinc Hun). }
  rewrite (guessLetter_reveal stored s w first others Hne Hcur Hinc Hun).
  unfold revealOutcome. destruct (completes s w first); [|intros call []].
  destruct (nth_error _ _); [|intros call []].
  intros call [<-|[]]. exact Hw.
Qed.

Lemma callsOk_pass (r : Closure) (s : State) :
  cl_words r = wordsData -> callsOk wordsData (snd (nextTeamOrWord r s)).
Proof.
  intros Hr call. unfold nextTeamOrWord. destruct (4 <=? _).
  - cbn. intros [<-|[]]. exact Hr.
  - destruct (skipAttempted _ _ _); cbn; [intros [<-|[]]; exact I | intros []].
Qed.

Lemma callsOk_callback (cb : Callback) (s : State) :
  match cb with
  | passQuestionCb r | nextWordCb r => cl_words r = wordsData
  | hideLeaderboardCb => True
  end ->
  callsOk wordsData (snd (runCallback cb s)).
Proof.
  destruct cb as [r|r|]; simpl; intros Hcb.
  - now apply callsOk_pass.
  - intros call. unfold nextWord. destruct (_ <? _); cbn; [intros [<-|[]]; exact I | intros []].
  - intros call [].
Qed.

Lemma gameOk_step (sys sys' : Sys) (e : Event) :
  gameOk wordsData sys -> step sys e = Some sys' -> gameOk wordsData sys'.
Proof.
  intros [Hround Hcl] Hstep. pose proof Hround as [Hw _].
  destruct e as [dt value|dt stored|dt|draws|dt k]; simpl in Hstep.
  - destruct (userMay sys dt && _ && _); [|discriminate]. injection Hstep as <-. split; simpl.
    + apply (roundOk_same (st sys)); try assumption; try reflexivity. cbn. tauto.
    + rewrite app_nil_r. assumption.
  - destruct (userMay sys dt); [|discriminate]. injection Hstep as <-. split; simpl.
    + now apply roundOk_guess.
    + apply closuresOk_schedule; [assumption | now apply callsOk_guess].
  - destruct (userMay sys dt); [|discriminate]. injection Hstep as <-. split; simpl.
    + now apply roundOk_pass.
    + apply closuresOk_schedule; [assumption | now apply callsOk_pass].
  - destruct (takeEarliest (timers sys)) as [[t rest]|] eqn:Htake; [|discriminate].
    destruct (hintEffect _ _ _) as [s'|] eqn:Heff; [|discriminate].
    injection Hstep as <-.
    assert (Ht : match callback t with
                 | passQuestionCb r | nextWordCb r => cl_words r = wordsData
                 | hideLeaderboardCb => True
                 end).
    { apply Hcl. apply (takeEarliest_In _ _ _ Htake). now left. }
    split; simpl.
    + eapply roundOk_callback; eassumption.
    + apply closuresOk_schedule; [|now apply callsOk_callback].
      intros x Hx. apply Hcl. apply (takeEarliest_In _ _ _ Htake). now right.
  - destruct (answerMay sys dt); [|discriminate].
    destruct (nth_error (requests sys) k) as [u|]; [|discriminate].
    injection Hstep as <-. split; simpl; [now apply roundOk_answered | assumption].
Qed.

Lemma gameOk_run (es : list Event) (sys sys' : Sys) :
  gameOk wordsData sys -> run sys es = Some sys' -> gameOk wordsData sys'.
Proof.
  revert sys. induction es as [|e es IH]; intros sys Hok; simpl.
  - now intros [= <-].
  - destruct (step sys e) as [next|] eqn:Hstep; [|discriminate].
    apply IH. eapply gameOk_step; eassumption.
Qed.

End Rounds.

Lemma gameOk_start (teamsData : list Team) (wordsData : list GameWord) (gameId : Z)
  (draws : list nat) (sys : Sys) :
  Forall wordOk wordsData ->
  startGame teamsData wordsData gameId draws = Some sys -> gameOk wordsData sys.
Proof.
  intros HwordsOk. unfold startGame. destruct teamsData as [|team teamsData]; [discriminate|].
  destruct wordsData as [|w rest]; [discriminate|].
  destruct (forallb _ draws) eqn:Hdraws; [|discriminate].
  destruct (generateDefaultRevealedPositions _ _) as [ps|] eqn:Hgen; simpl; [|discriminate].
  intros [= <-].
  assert (Hgood : wordOk w) by (inversion HwordsOk; assumption).
  destruct (generated_hints_fit _ draws ps Hgood Hdraws Hgen) as [Hfit Hfew].
  split.
  - unfold roundOk. cbn. split; [reflexivity|]. split.
    + f_equal. rewrite map_map. reflexivity.
    + exists w. repeat split; try assumption.
      intros _. apply hints_do_not_cover; cbn; [reflexivity | assumption].
  - intros t [<-|[]]. exact I.
Qed.

(** No event changes the teams. *)
Lemma guessLetter_teams (stored : bool) (s : State) :
  teams (fst (guessLetter stored s)) = teams s.
Proof.
  destruct (inputLetter s) as [|c rest] eqn:Hin.
  { now rewrite guessLetter_empty. }
  assert (Hne : inputLetter s <> EmptyString) by (rewrite Hin; discriminate).
  destruct (currentGameWord s) as [w|] eqn:Hw.
  2: { unfold guessLetter, guessLetterHandler. rewrite Hin, Hw. reflexivity. }
  destruct (JS.includes (word w) (JS.toUpperCase (inputLetter s))) eqn:Hinc.
  2: { now rewrite (guessLetter_absent stored s w Hne Hw Hinc). }
  destruct (unrevealedPositionsOf s w) as [|first others] eqn:Hun.
  { now rewrite (guessLetter_exhausted stored s w Hne Hw Hinc Hun). }
  rewrite (guessLetter_reveal stored s w first others Hne Hw Hinc Hun).
  unfold revealOutcome. destruct (completes s w first); [|reflexivity].
  destruct (nth_error _ _); reflexivity.
Qed.

Lemma runCallback_teams (cb : Callback) (s : State) :
  teams (fst (runCallback cb s)) = teams s.
Proof.
  destruct cb as [r|r|]; simpl; [| |reflexivity].
  - unfold nextTeamOrWord. destruct (4 <=? _); [reflexivity|].
    destruct (skipAttempted _ _ _); reflexivity.
  - unfold nextWord. destruct (_ <? _); reflexivity.
Qed.

Lemma step_teams (sys sys' : Sys) (e : Event) :
  step sys e = Some sys' -> teams (st sys') = teams (st sys).
Proof.
  intros Hstep. destruct e as [dt value|dt stored|dt|draws|dt k]; simpl in Hstep.
  - destruct (userMay sys dt && _ && _); [|discriminate]. now injection Hstep as <-.
  - destruct (userMay sys dt); [|discriminate]. injection Hstep as <-.
    apply guessLetter_teams.
  - destruct (userMay sys dt); [|discriminate]. injection Hstep as <-.
    apply (runCallback_teams (passQuestionCb (capture (st sys)))).
  - destruct (takeEarliest (timers sys)) as [[t rest]|]; [|discriminate].
    destruct (hintEffect _ _ _) as [s'|] eqn:Heff; [|discriminate].
    injection Hstep as <-. simpl. rewrite <- (runCallback_teams (callback t) (st sys)).
    unfold hintEffect in Heff. destruct (_ =? _); [now injection Heff as <-|].
    destruct (currentGameWord _); [|now injection Heff as <-].
    destruct (forallb _ _); [|discriminate].
    destruct (generateDefaultRevealedPositions _ _); simpl in Heff; [|discriminate].
    now injection Heff as <-.
  - destruct (answerMay sys dt); [|discriminate].
    destruct (nth_error (requests sys) k) as [u|]; [|discriminate].
    injection Hstep as <-. apply scoreAnswered_fields.
Qed.

Lemma run_teams (es : list Event) (sys sys' : Sys) :
  run sys es = Some sys' -> teams (st sys') = teams (st sys).
Proof.
  revert sys. induction es as [|e es IH]; intros sys; simpl.
  - now intros [= <-].
  - destruct (step sys e) as [next|] eqn:Hstep; [|discriminate].
    intros Hrun. rewrite (IH next Hrun). now apply (step_teams sys next e).
Qed.

(** C1, as the code has it.  Take any game on words of 1 to 50 letters and
    any state it reaches; Guess is pressed, so the phase is Playing.  The
    phase becomes Won exactly when the revealed positions and the hint tiles
    cover every letter position once the guess is processed.  The guess
    itself writes no score.  When it wins, and the game row exists, it sends
    one update for the team at [currentTeam]: the score of that team in the
    render of the guess plus the points of the word, or plus 5 on a passed
    question; when it does not win it sends none.  Whenever that update is
    answered, however late, the score of the team is set to that number if
    the answer is not an error and stays as it is if it is one; the scores
    of the other teams stay. *)
Theorem guess_wins_when_covered
  (teamsData : list Team) (wordsData : list GameWord) (gameId : Z) (draws : list nat)
  (start sys sys' : Sys) (es : list Event) (dt : Z) (stored : bool) :
  Forall wordOk wordsData ->
  startGame teamsData wordsData gameId draws = Some start ->
  run start es = Some sys ->
  step sys (GuessPressed dt stored) = Some sys' ->
  exists w,
    currentGameWord (st sys) = Some w
    /\ gameState (st sys) = playing
    /\ (gameState (st sys') = won <-> covered w (st sys'))
    /\ gameScores (st sys') = gameScores (st sys)
    /\ (gameState (st sys') <> won -> requests sys' = requests sys)
    /\ (gameState (st sys') = won ->
        forall team,
          nth_error (teams (st sys)) (currentTeam (st sys)) = Some team ->
          let newPoints :=
            (scoreOf (gameScores (st sys)) (team_id team)
             + (if isPassedQuestion (st sys) then 5 else points w))%Z in
          let u := mkScoreUpdate (team_id team) newPoints stored in
          requests sys' = requests sys ++ (if hasGame (st sys) then [u] else [])
          /\ forall (later : list Event) (sys1 sys2 : Sys) (dt' : Z) (k : nat),
               run sys' later = Some sys1 ->
               nth_error (requests sys1) k = Some u ->
               step sys1 (ScoreAnswered dt' k) = Some sys2 ->
               scoreOf (gameScores (st sys2)) (team_id team)
               = (if stored then newPoints
                  else scoreOf (gameScores (st sys1)) (team_id team))
               /\ forall other, other <> team_id team ->
                    scoreOf (gameScores (st sys2)) other
                    = scoreOf (gameScores (st sys1)) other).
Proof.
  intros Hwords Hstart Hrun Hstep.
  pose proof (gameOk_run wordsData Hwords es start sys
                (gameOk_start teamsData wordsData gameId draws start Hwords Hstart) Hrun)
    as Hok.
  pose proof (gameOk_step wordsData Hwords sys sys' _ Hok Hstep) as Hok'.
  destruct Hok as [[_ [Hrows [w [Hcur [Hpos [_ Hcov]]]]]] _].
  pose proof (step_teams _ _ _ Hstep) as Hteams'.
  simpl in Hstep. destruct (userMay sys dt) eqn:Hmay; [|discriminate].
  injection Hstep as <-. simpl in *.
  assert (Hplay : gameState (st sys) = playing).
  { unfold userMay in Hmay. destruct (gameState (st sys)); try reflexivity;
      rewrite andb_false_r in Hmay; discriminate. }
  exists w. split; [assumption|]. split; [assumption|].
  destruct (inputLetter (st sys)) as [|c rest] eqn:Hin.
  - rewrite (guessLetter_empty stored (st sys) Hin),
      (guessLetterSent_empty stored (st sys) Hin). simpl. rewrite Hplay, app_nil_r.
    split; [split; [discriminate | intros Hc; now apply Hcov in Hc]|].
    split; [reflexivity|]. split; [reflexivity | discriminate].
  - assert (Hinput : inputLetter (st sys) <> EmptyString) by (rewrite Hin; discriminate).
    destruct (guessLetter_won_iff_covered stored (st sys) w Hplay Hinput Hcur Hpos
                (Hcov Hplay)) as [Hiff [Hsame [Hsent Hnone]]].
    split; [exact Hiff|]. split; [exact Hsame|]. split.
    + intros Hopen. rewrite (Hnone Hopen). apply app_nil_r.
    + intros Hwon team Hteam. split; [now rewrite (Hsent Hwon team Hteam)|].
      intros later sys1 sys2 dt' k Hlater Hk Hanswer.
      pose proof (gameOk_run wordsData Hwords later _ sys1 Hok' Hlater)
        as [[_ [Hrows1 _]] _].
      pose proof (run_teams _ _ _ Hlater) as Hteams1. simpl in Hteams1.
      assert (Hrow : In (team_id team) (map score_team_id (gameScores (st sys1)))).
      { rewrite Hrows1, Hteams1, Hteams'. apply in_map.
        eapply nth_error_In; eassumption. }
      simpl in Hanswer. destruct (answerMay sys1 dt'); [|discriminate].
      rewrite Hk in Hanswer. injection Hanswer as <-. simpl.
      match goal with
      | |- context [scoreAnswered ?u _] =>
          exact (scoreAnswered_scores u (st sys1) Hrow)
      end.
Qed.

(** ** Where the older revision differs *)

(** A word of 14 letters gets three hint tiles there, not four. *)
Lemma classic_hint_cap :
  Classic.generateDefaultRevealedPositions 14 [0; 1; 2; 3] = Some [0; 1; 2]
  /\ generateDefaultRevealedPositions 14 [0; 1; 2; 3] = Some [0; 1; 2; 3].
Proof. split; vm_compute; reflexivity. Qed.

(** C5 on the older revision.  BANANA with the hint tile at index 1, nothing
    revealed yet, A in the box: index 3 is an occurrence of A that is neither
    revealed nor a hint tile, yet [guessLetter] of [app/page.tsx] appends
    index 1, the hint tile, where the newer revision appends index 3. *)
Lemma classic_guess_reveals_hint_tile :
  letterAt banana 3 "A"
  /\ ~ shown (roundOf banana [] [1] "A") 3
  /\ In 1 (defaultRevealedPositions (roundOf banana [] [1] "A"))
  /\ revealedPositions (fst (Classic.guessLetter true (roundOf banana [] [1] "A"))) = [1]
  /\ revealedPositions (fst (guessLetter true (roundOf banana [] [1] "A"))) = [3].
Proof.
  split; [reflexivity|]. split.
  - intros [[]|[E|[]]]. discriminate E.
  - split; [now left|]. split; reflexivity.
Qed.

(** C6 on the older revision.  BANANA with the hint tile at index 0; A is
    guessed three times, which reveals the indices 1, 3 and 5.  A fourth
    guess of A finds every occurrence revealed: [guessLetter] of
    [app/page.tsx] logs the letter and counts nothing, where the newer
    revision counts a wrong guess. *)
Lemma classic_shown_letter_not_counted :
  let typeA s := setInputLetter "A" s in
  let guessA s := fst (Classic.guessLetter true (typeA s)) in
  let s3 := guessA (guessA (guessA (roundOf banana [] [0] ""))) in
  revealedPositions s3 = [1; 3; 5]
  /\ wrongGuesses s3 = 0
  /\ gameState s3 = playing
  /\ revealedPositions (guessA s3) = [1; 3; 5]
  /\ guessedLetters (guessA s3) = guessedLetters s3 ++ ["A"%string]
  /\ wrongGuesses (guessA s3) = 0
  /\ wrongGuesses (fst (guessLetter true (typeA s3))) = 1.
Proof. repeat split. Qed.

(** A win is decided and paid there as in the newer revision: the phase
    becomes Won exactly when the positions cover the word once the guess is
    processed, no score is written by the guess, and on a win the same
    update is sent. *)
Lemma classic_guess_wins_when_covered (stored : bool) (s : State) (w : GameWord) :
  gameState s = playing ->
  inputLetter s <> EmptyString ->
  currentGameWord s = Some w ->
  positionsInWord w s ->
  ~ covered w s ->
  (gameState (fst (Classic.guessLetter stored s)) = won
   <-> covered w (fst (Classic.guessLetter stored s)))
  /\ gameScores (fst (Classic.guessLetter stored s)) = gameScores s
  /\ (gameState (fst (Classic.guessLetter stored s)) = won ->
      forall team,
        nth_error (teams s) (currentTeam s) = Some team ->
        Classic.guessLetterSent stored s
        = if hasGame s
          then [mkScoreUpdate (team_id team)
                  (scoreOf (gameScores s) (team_id team)
                   + (if isPassedQuestion s then 5 else points w)) stored]
          else []).
Proof.
  intros Hplay Hne Hw Hpos Hnot.
  unfold Classic.guessLetter, Classic.guessLetterSent, Classic.guessLetterHandler.
  destruct (inputLetter s) as [|c rest] eqn:Hi; [congruence|]. rewrite <- Hi in *.
  rewrite Hw.
  assert (Hkeep : forall s', revealedPositions s' = revealedPositions s ->
            defaultRevealedPositions s' = defaultRevealedPositions s ->
            gameState s' = playing ->
            (gameState s' = won <-> covered w s')).
  { intros s' Er Ed Eg. rewrite Eg. split; [discriminate|].
    intros Hc. contradiction Hnot. unfold covered, shown in *. now rewrite <- Er, <- Ed. }
  destruct (JS.includes (word w) (JS.toUpperCase (inputLetter s))) eqn:Hinc; cbn [negb].
  2: { split; [apply Hkeep; [reflexivity | reflexivity | exact Hplay]|].
       split; [reflexivity | cbn; congruence]. }
  destruct (find _ _) as [first|] eqn:Hfind.
  2: { split; [apply Hkeep; [reflexivity | reflexivity | exact Hplay]|].
       split; [reflexivity | cbn; congruence]. }
  apply find_some in Hfind. destruct Hfind as [Hin _].
  apply letterPositionsOf_In in Hin.
  pose proof (completes_covered s w first Hpos Hin) as Hcov.
  pose proof (revealOutcome_gameState s w first) as Hg.
  pose proof (revealOutcome_scores s w first) as Hs.
  cbn zeta. fold (completes s w first). unfold revealOutcome in Hcov, Hg, Hs.
  destruct (completes s w first) eqn:Hc.
  - destruct (nth_error (teams s) (currentTeam s)) as [team|] eqn:Hteam.
    + split; [|split; [exact Hs|]].
      * split; [intros _; now apply Hcov | reflexivity].
      * intros _ team' [= <-]. apply updateGameScore_sent.
    + split; [|split; [exact Hs|]].
      * split; [intros _; now apply Hcov | reflexivity].
      * intros _ team' Hnone. discriminate Hnone.
  - split; [|split; [exact Hs|]].
    + cbn. rewrite Hplay. split; [discriminate|].
      intros Hcovered. apply Hcov in Hcovered. discriminate Hcovered.
    + cbn. rewrite Hplay. discriminate.
Qed.

(** ** The handlers of the buttons keep the word *)

Lemma guessLetter_keeps_word (stored : bool) (s : State) :
  currentWordIndex (fst (guessLetter stored s)) = currentWordIndex s
  /\ defaultRevealedPositions (fst (guessLetter stored s)) = defaultRevealedPositions s.
Proof.
  destruct (inputLetter s) as [|c rest] eqn:Hin.
  { rewrite guessLetter_empty by assumption. tauto. }
  assert (Hne : inputLetter s <> EmptyString) by (rewrite Hin; discriminate).
  destruct (currentGameWord s) as [w|] eqn:Hw.
  2: { unfold guessLetter, guessLetterHandler. rewrite Hin, Hw. cbn. tauto. }
  assert (Hwrong : currentWordIndex (fst (wrongGuessOutcome s)) = currentWordIndex s
                   /\ defaultRevealedPositions (fst (wrongGuessOutcome s))
                      = defaultRevealedPositions s) by (cbn; tauto).
  destruct (JS.includes (word w) (JS.toUpperCase (inputLetter s))) eqn:Hinc.
  2: { now rewrite (guessLetter_absent stored s w Hne Hw Hinc). }
  destruct (unrevealedPositionsOf s w) as [|first others] eqn:Hun.
  { now rewrite (guessLetter_exhausted stored s w Hne Hw Hinc Hun). }
  rewrite (guessLetter_reveal stored s w first others Hne Hw Hinc Hun).
  destruct (revealOutcome_revealed s w first) as [_ [Hd _]]. split; [|exact Hd].
  unfold revealOutcome. destruct (completes s w first); [|reflexivity].
  destruct (nth_error _ _) as [team|]; reflexivity.
Qed.

Lemma passQuestion_keeps_word (r : Closure) (s : State) :
  currentWordIndex (fst (nextTeamOrWord r s)) = currentWordIndex s
  /\ defaultRevealedPositions (fst (nextTeamOrWord r s)) = defaultRevealedPositions s.
Proof.
  unfold nextTeamOrWord. destruct (4 <=? _); [cbn; tauto|].
  destruct (skipAttempted _ _ _); cbn; tauto.
Qed.

(** Typing a letter in either case leaves the same state behind. *)
Lemma typing_is_case_insensitive (sys : Sys) (dt : Z) (c : ascii) :
  JS.isAlpha c = true ->
  step sys (Typed dt (String (JS.lowerChar c) EmptyString))
  = step sys (Typed dt (String (JS.upperChar c) EmptyString)).
Proof.
  intros Hc. simpl. rewrite (upperChar_lowerChar c Hc), upperChar_idem.
  assert (Hl : JS.isAscii (JS.lowerChar c) = true)
    by (destruct c as [[] [] [] [] [] [] [] []]; try discriminate Hc; reflexivity).
  assert (Hu : JS.isAscii (JS.upperChar c) = true)
    by (destruct c as [[] [] [] [] [] [] [] []]; try discriminate Hc; reflexivity).
  now rewrite Hl, Hu.
Qed.

(** * The statements on the sample game *)

(** Team 0 guesses C, X, A and T on CAT: one wrong guess, the word is won
    and pays its 10 points once the update is answered. *)
Example cat_is_won :
  exists sys,
    runFrom sampleStart
      (guess 50 "c" ++ guess 50 "x" ++ guess 50 "a" ++ guess 50 "t" ++ [ScoreAnswered 10 0])
    = Some sys
    /\ gameState (st sys) = won
    /\ revealedPositions (st sys) = [0; 1; 2]
    /\ wrongGuesses (st sys) = 1
    /\ map score_points (gameScores (st sys)) = [10%Z; 0%Z; 0%Z; 0%Z].
Proof. eexists. split; [vm_compute; reflexivity|]. repeat split. Qed.

(** Four wrong guesses and two seconds later team 0 has passed to team 1. *)
Example four_wrong_guesses_pass_on :
  exists sys,
    runFrom sampleStart (fourWrong ++ [TimeoutFired []]) = Some sys
    /\ now sys = 2400%Z
    /\ teamsAttempted (st sys) = [0]
    /\ currentTeam (st sys) = 1
    /\ isPassedQuestion (st sys) = true
    /\ wrongGuesses (st sys) = 0.
Proof. eexists. split; [vm_compute; reflexivity|]. repeat split. Qed.

(** All four teams pass: the word is lost, and three seconds later DOG is
    played, assigned to team 1. *)
Example all_teams_pass :
  exists sys sys',
    runFrom sampleStart [PassPressed 10; PassPressed 10; PassPressed 10; PassPressed 10]
    = Some sys
    /\ gameState (st sys) = lost
    /\ teamsAttempted (st sys) = [0; 1; 2; 3]
    /\ step sys (TimeoutFired []) = Some sys'
    /\ now sys' = 3040%Z
    /\ gameState (st sys') = playing
    /\ currentWordIndex (st sys') = 1
    /\ originalTeamForQuestion (st sys') = 1
    /\ currentTeam (st sys') = 1
    /\ teamsAttempted (st sys') = []
    /\ isPassedQuestion (st sys') = false.
Proof.
  do 2 eexists. split; [vm_compute; reflexivity|]. split; [reflexivity|].
  split; [reflexivity|]. split; [vm_compute; reflexivity|]. repeat split.
Qed.

(** Against C1 as stated.  First: team 0 spells CAT, but the update of its
    score is answered with an error; the phase is Won and the team has no
    point.  Second: team 0 spells CAT for 10 points, the answer is slow, DOG
    comes up, the three other teams pass and team 0 spells DOG for 5 points;
    the second update was computed from the score of its render, 0, so once
    both updates are stored and answered the score goes from 10 down to 5. *)
Lemma win_without_exact_increase :
  (exists sys,
     runFrom sampleStart
       (guess 50 "c" ++ guess 50 "a" ++ [Typed 50 "t"; GuessPressed 50 false]
        ++ [ScoreAnswered 10 0]) = Some sys
     /\ gameState (st sys) = won
     /\ requests sys = []
     /\ scoreOf (gameScores (st sys)) 1 = 0%Z)
  /\ exists sys sys',
       runFrom sampleStart
         (guess 50 "c" ++ guess 50 "a" ++ guess 50 "t" ++ [TimeoutFired []]
          ++ [PassPressed 10; PassPressed 10; PassPressed 10]
          ++ guess 50 "d" ++ guess 50 "o" ++ guess 50 "g"
          ++ [ScoreAnswered 10 0]) = Some sys
       /\ gameState (st sys) = won
       /\ currentTeam (st sys) = 0
       /\ isPassedQuestion (st sys) = true
       /\ scoreOf (gameScores (st sys)) 1 = 10%Z
       /\ requests sys = [mkScoreUpdate 1 5 true]
       /\ step sys (ScoreAnswered 10 0) = Some sys'
       /\ requests sys' = []
       /\ scoreOf (gameScores (st sys')) 1 = 5%Z.
Proof.
  split.
  - eexists. split; [vm_compute; reflexivity|]. repeat split.
  - do 2 eexists. split; [vm_compute; reflexivity|].
    split; [reflexivity|]. split; [reflexivity|]. split; [reflexivity|].
    split; [reflexivity|]. split; [reflexivity|].
    split; [vm_compute; reflexivity|]. split; reflexivity.
Qed.

(** C1 at work on the sample game: team 0 completes CAT, the update for
    team id 1 is sent with 0 + 10 points, and its answer sets the score. *)
Lemma guess_wins_when_covered_witness :
  exists start sys sys' sys2,
    startGame fourTeams catDog 7 [] = Some start
    /\ run start (guess 50 "c" ++ guess 50 "a" ++ [Typed 50 "t"]) = Some sys
    /\ step sys (GuessPressed 50 true) = Some sys'
    /\ gameState (st sys') = won
    /\ covered (mkWord 1 "CAT" 10) (st sys')
    /\ gameScores (st sys') = gameScores (st sys)
    /\ requests sys' = [mkScoreUpdate 1 10 true]
    /\ step sys' (ScoreAnswered 10 0) = Some sys2
    /\ scoreOf (gameScores (st sys2)) 1 = 10%Z.
Proof.
  assert (Hwords : Forall wordOk catDog).
  { unfold catDog. repeat (constructor; [unfold wordOk, wordMaxLength; simpl; lia|]).
    constructor. }
  eassert (Hstart : startGame fourTeams catDog 7 [] = Some _) by (vm_compute; reflexivity).
  match type of Hstart with
  | _ = Some ?start =>
      eassert (Hrun : run start (guess 50 "c" ++ guess 50 "a" ++ [Typed 50 "t"]) = Some _)
        by (vm_compute; reflexivity)
  end.
  match type of Hrun with
  | _ = Some ?sys =>
      eassert (Hstep : step sys (GuessPressed 50 true) = Some _)
        by (vm_compute; reflexivity)
  end.
  match type of Hstep with
  | _ = Some ?sys' =>
      eassert (Hanswer : step sys' (ScoreAnswered 10 0) = Some _)
        by (vm_compute; reflexivity)
  end.
  destruct (guess_wins_when_covered fourTeams catDog 7 [] _ _ _ _ 50 true
              Hwords Hstart Hrun Hstep) as [w [Hcur [_ [Hiff [Hsame [_ Hscore]]]]]].
  simpl in Hcur. injection Hcur as <-.
  destruct (Hscore eq_refl (mkTeam 1 "Thunder Bolts" "bg-blue-500") eq_refl)
    as [Hsent Hlater].
  destruct (Hlater [] _ _ 10%Z 0 eq_refl eq_refl Hanswer) as [Hset _].
  do 4 eexists. split; [exact Hstart|]. split; [exact Hrun|]. split; [exact Hstep|].
  split; [reflexivity|]. split; [apply Hiff; reflexivity|].
  split; [exact Hsame|]. split; [exact Hsent|]. split; [exact Hanswer | exact Hset].
Defined.

(** Against C2 as stated: team 0 misses four times and presses Pass before
    the delayed [passQuestion] is due.  When that one fires, team 1 is at
    play and [teamsAttempted] holds one team; afterwards it still holds one
    team. *)
Lemma stale_pass_adds_no_team :
  exists before after rest,
    runFrom sampleStart (fourWrong ++ [PassPressed 600]) = Some before
    /\ takeEarliest (timers before)
       = Some (mkTimer 2400 (passQuestionCb (mkClosure [] 0 0 catDog)), rest)
    /\ step before (TimeoutFired []) = Some after
    /\ teamsAttempted (st before) = [0]
    /\ currentTeam (st before) = 1
    /\ teamsAttempted (st after) = [0]
    /\ length (teamsAttempted (st after)) <> length (teamsAttempted (st before)) + 1.
Proof.
  do 3 eexists. split; [vm_compute; reflexivity|].
  split; [vm_compute; reflexivity|].
  split; [vm_compute; reflexivity|].
  repeat split. simpl. discriminate.
Qed.

(** Against C3 as stated: as before, but two teams press Pass before the
    delayed [passQuestion] of team 0 is due.  It fires with teams 0 and 1 in
    [teamsAttempted] and team 2 at play, and hands the word to team 1, which
    has attempted it, where the first team not tried counting on from
    [(2 + 1) mod 4] is team 3. *)
Lemma stale_pass_hands_word_back :
  exists before after rest,
    runFrom sampleStart (fourWrong ++ [PassPressed 600; PassPressed 500]) = Some before
    /\ takeEarliest (timers before)
       = Some (mkTimer 2400 (passQuestionCb (mkClosure [] 0 0 catDog)), rest)
    /\ step before (TimeoutFired []) = Some after
    /\ teamsAttempted (st before) = [0; 1]
    /\ currentTeam (st before) = 2
    /\ length (teamsAttempted (st before) ++ [currentTeam (st before)]) < 4
    /\ skipAttempted 4 (teamsAttempted (st before) ++ [currentTeam (st before)])
         ((currentTeam (st before) + 1) mod 4) = Some 3
    /\ currentTeam (st after) = 1
    /\ In (currentTeam (st after)) (teamsAttempted (st before)).
Proof.
  do 3 eexists. split; [vm_compute; reflexivity|].
  split; [vm_compute; reflexivity|].
  split; [vm_compute; reflexivity|].
  repeat split; simpl; auto.
Qed.

Lemma pass_hands_word_to_next_team_witness :
  (exists k, k < 4
     /\ currentTeam (fst (passQuestion (roundOf banana [] [1] "")))
        = ((0 + 1) mod 4 + k) mod 4
     /\ ~ In (currentTeam (fst (passQuestion (roundOf banana [] [1] ""))))
             (teamsAttempted (fst (passQuestion (roundOf banana [] [1] ""))))
     /\ forall j, j < k ->
          In (((0 + 1) mod 4 + j) mod 4)
             (teamsAttempted (fst (passQuestion (roundOf banana [] [1] "")))))
  /\ isPassedQuestion (fst (passQuestion (roundOf banana [] [1] ""))) = true
  /\ defaultRevealedPositions (fst (passQuestion (roundOf banana [] [1] ""))) = [1].
Proof.
  assert (Hlen : length (cl_teamsAttempted (capture (roundOf banana [] [1] ""))
                         ++ [cl_currentTeam (capture (roundOf banana [] [1] ""))]) < 4)
    by (simpl; lia).
  destruct (pass_hands_word_to_next_team (capture (roundOf banana [] [1] ""))
              (roundOf banana [] [1] "") Hlen)
    as [Hnext [_ [Hpassed [_ [_ [_ [_ [Hhints _]]]]]]]].
  split; [exact Hnext|]. split; [exact Hpassed | exact Hhints].
Defined.

(** C5 at work on BANANA with the tile at index 1 given: guessing A reveals
    index 3 and nothing else. *)
Lemma guess_reveals_lowest_hidden_witness :
  exists first,
    letterAt banana first "A"
    /\ ~ shown (roundOf banana [] [1] "a") first
    /\ (forall q, letterAt banana q "A" -> ~ shown (roundOf banana [] [1] "a") q -> first <= q)
    /\ revealedPositions (fst (guessLetter true (roundOf banana [] [1] "a"))) = [] ++ [first]
    /\ defaultRevealedPositions (fst (guessLetter true (roundOf banana [] [1] "a"))) = [1].
Proof.
  assert (Hne : inputLetter (roundOf banana [] [1] "a") <> EmptyString) by discriminate.
  assert (Hhidden : ~ shown (roundOf banana [] [1] "a") 5).
  { intros [[]|[E|[]]]. discriminate E. }
  exact (guess_reveals_lowest_hidden true (roundOf banana [] [1] "a") banana 5
           eq_refl Hne eq_refl eq_refl Hhidden).
Defined.

(** C6 at work on BANANA with every A shown: guessing A counts as a wrong guess. *)
Lemma guess_of_shown_letter_is_wrong_witness :
  wrongGuesses (fst (guessLetter true (roundOf banana [3; 5] [1] "A"))) = 0 + 1
  /\ guessedLetters (fst (guessLetter true (roundOf banana [3; 5] [1] "A"))) = [] ++ ["A"%string]
  /\ revealedPositions (fst (guessLetter true (roundOf banana [3; 5] [1] "A"))) = [3; 5].
Proof.
  assert (Hne : inputLetter (roundOf banana [3; 5] [1] "A") <> EmptyString) by discriminate.
  assert (Hall : forall q, letterAt banana q "A" -> shown (roundOf banana [3; 5] [1] "A") q).
  { intros q Hq. unfold shown. simpl.
    do 6 (destruct q as [|q]; [try discriminate Hq; tauto|]).
    destruct q; discriminate Hq. }
  destruct (guess_of_shown_letter_is_wrong true (roundOf banana [3; 5] [1] "A") banana
              eq_refl Hne eq_refl eq_refl Hall) as [H1 [H2 [H3 _]]].
  split; [exact H1|]. split; [exact H2 | exact H3].
Defined.

(** Against C7 as stated: five wrong guesses pressed within half a second,
    all before the delayed [passQuestion] of the fourth is due, leave the
    count at 5. *)
Lemma five_wrong_guesses_pass_max :
  exists sys,
    runFrom sampleStart (fourWrong ++ guess 50 "w") = Some sys
    /\ gameState (st sys) = playing
    /\ wrongGuesses (st sys) = 5
    /\ ~ wrongGuesses (st sys) <= maxWrongGuesses.
Proof.
  eexists. split; [vm_compute; reflexivity|].
  repeat split. unfold maxWrongGuesses. simpl. lia.
Qed.

Lemma wrong_guesses_within_max_witness :
  exists start sys,
    startGame fourTeams catDog 7 [] = Some start
    /\ run start fourWrong = Some sys
    /\ wrongGuesses (st sys) = 4
    /\ 0 <= wrongGuesses (st sys) <= maxWrongGuesses.
Proof.
  do 2 eexists. split; [vm_compute; reflexivity|].
  split; [vm_compute; reflexivity|]. split; [reflexivity|].
  eapply (wrong_guesses_within_max fourTeams catDog 7 [] _ _ fourWrong).
  - vm_compute. reflexivity.
  - vm_compute. repeat split; lia.
  - vm_compute. reflexivity.
Defined.

(** Against C8 as stated: the fourth team misses four times and then
    solves CAT.  Two delayed transitions are now pending in one round.  Both
    fire; the first, the delayed [passQuestion], declares the won word lost
    and sets a third one.  The second begins the round of DOG, where D is
    revealed.  Then the third one, set during the round of CAT, fires and
    wipes that round. *)
Lemma stale_transition_resets_new_round :
  exists before fresh after,
    runFrom sampleStart lateWin = Some before
    /\ currentWordIndex (st before) = 0
    /\ map due (filter isTransition (timers before)) = [2430%Z; 2730%Z]
    /\ run before ([TimeoutFired []; TimeoutFired []] ++ guess 100 "d") = Some fresh
    /\ currentWordIndex (st fresh) = 1
    /\ gameState (st fresh) = playing
    /\ revealedPositions (st fresh) = [0]
    /\ filter isTransition (timers fresh)
       = [mkTimer 5430 (nextWordCb (mkClosure [0; 1; 2] 3 0 catDog))]
    /\ run fresh [TimeoutFired []; TimeoutFired []; TimeoutFired []; TimeoutFired [];
                  TimeoutFired []] = Some after
    /\ now after = 5430%Z
    /\ currentWordIndex (st after) = 1
    /\ revealedPositions (st after) = []
    /\ guessedLetters (st after) = [].
Proof.
  do 3 eexists. split; [vm_compute; reflexivity|].
  split; [reflexivity|]. split; [reflexivity|].
  split; [vm_compute; reflexivity|].
  split; [reflexivity|]. split; [reflexivity|]. split; [reflexivity|].
  split; [reflexivity|].
  split; [vm_compute; reflexivity|].
  repeat split.
Qed.

Lemma pending_timeouts_stay_witness :
  exists sys sys',
    runFrom sampleStart fourWrong = Some sys
    /\ step sys (PassPressed 600) = Some sys'
    /\ In (mkTimer 2400 (passQuestionCb (mkClosure [] 0 0 catDog))) (timers sys)
    /\ In (mkTimer 2400 (passQuestionCb (mkClosure [] 0 0 catDog))) (timers sys').
Proof.
  do 2 eexists. split; [vm_compute; reflexivity|].
  split; [vm_compute; reflexivity|].
  match goal with
  | |- In ?t (timers ?sys) /\ In ?t (timers ?sys') =>
      assert (Hstep : step sys (PassPressed 600) = Some sys') by (vm_compute; reflexivity);
      assert (Hin : In t (timers sys)) by (simpl; tauto);
      pose proof (pending_timeouts_stay sys sys' (PassPressed 600) t Hstep Hin) as Hstay
  end.
  split; [simpl; tauto|].
  destruct Hstay as [Hstay|[draws [rest [Hfired _]]]]; [exact Hstay | discriminate Hfired].
Defined.

(** Against C9 as stated: the digit 5, typed and guessed on CAT, is logged
    and counted. *)
Lemma digit_guess_is_counted :
  exists sys sys',
    sampleStart = Some sys
    /\ run sys [Typed 50 "5"; GuessPressed 50 true] = Some sys'
    /\ guessedLetters (st sys) = []
    /\ wrongGuesses (st sys) = 0
    /\ guessedLetters (st sys') = ["5"%string]
    /\ wrongGuesses (st sys') = 1.
Proof.
  do 2 eexists. split; [vm_compute; reflexivity|].
  split; [vm_compute; reflexivity|]. repeat split.
Qed.

Lemma nonletter_guess_counts_wrong_witness :
  guessedLetters (fst (guessLetter true (roundOf ab [] [] "5"))) = [] ++ ["5"%string]
  /\ wrongGuesses (fst (guessLetter true (roundOf ab [] [] "5"))) = 0 + 1
  /\ revealedPositions (fst (guessLetter true (roundOf ab [] [] "5"))) = [].
Proof.
  assert (Hword : Forall (fun b => JS.isAlpha b = true) (list_ascii_of_string (word ab)))
    by (repeat constructor).
  destruct (nonletter_guess_counts_wrong true (roundOf ab [] [] "5") ab "5"%char
              eq_refl eq_refl eq_refl eq_refl Hword) as [[H1 [H2 [H3 _]]] _].
  split; [exact H1|]. split; [exact H2 | exact H3].
Defined.

Lemma guess_is_case_insensitive_witness :
  guessLetter true (setInputLetter "b" (roundOf ab [0] [] ""))
  = guessLetter true (setInputLetter "B" (roundOf ab [0] [] "")).
Proof.
  exact (guess_is_case_insensitive true (roundOf ab [0] [] "") "b"%char ab
           (mkTeam 1 "Thunder Bolts" "bg-blue-500") eq_refl eq_refl eq_refl).
Defined.

(** * Further properties *)

(** ** The displayed word *)

Section Display.

Variable s : State.

Lemma tilesFrom_length (letters : list string) (index : nat) :
  length (tilesFrom index s letters) = length letters.
Proof.
  revert index. induction letters as [|letter rest IH]; intros index; simpl; congruence.
Qed.

Lemma tilesFrom_nth (letters : list string) (index p : nat) (letter : string) :
  nth_error letters p = Some letter ->
  nth_error (tilesFrom index s letters) p
  = Some (if JS.has (defaultRevealedPositions s) (index + p)
             || JS.has (revealedPositions s) (index + p)
          then letter else "_"%string).
Proof.
  revert index p. induction letters as [|l rest IH]; intros index p.
  - destruct p; discriminate.
  - destruct p as [|p]; simpl.
    + intros [= ->]. now rewrite Nat.add_0_r.
    + intros H. rewrite (IH (S index) p H). now rewrite Nat.add_succ_r.
Qed.

Lemma shown_has (p : nat) :
  JS.has (defaultRevealedPositions s) p || JS.has (revealedPositions s) p = true
  <-> shown s p.
Proof. unfold shown. rewrite orb_true_iff, !has_In. tauto. Qed.

Lemma displayTiles_nth (w : GameWord) (p : nat) (letter : string) :
  letterAt w p letter ->
  (shown s p -> nth_error (displayTiles s w) p = Some letter)
  /\ (~ shown s p -> nth_error (displayTiles s w) p = Some "_"%string).
Proof.
  intros Hat. unfold displayTiles. rewrite (tilesFrom_nth _ 0 p letter Hat). simpl.
  destruct (JS.has _ p || JS.has _ p) eqn:E.
  - apply shown_has in E. split; [reflexivity | contradiction].
  - split; [|reflexivity]. intros H. apply shown_has in H. congruence.
Qed.

End Display.

Lemma split_oneChar (v : string) : Forall oneChar (JS.split v).
Proof.
  induction v as [|c t IH]; simpl; constructor; [now exists c | assumption].
Qed.

Lemma tilesFrom_oneChar (s : State) (letters : list string) (index : nat) :
  Forall oneChar letters -> Forall oneChar (tilesFrom index s letters).
Proof.
  intros H. revert index. induction H as [|l rest Hl Hrest IH]; intros index; simpl;
    constructor.
  - destruct (_ || _); [assumption | now exists "_"%char].
  - apply IH.
Qed.

(** Joining one-character strings with a blank loses nothing. *)
Lemma join_oneChar_inj (xs ys : list string) :
  Forall oneChar xs -> Forall oneChar ys ->
  join " " xs = join " " ys -> xs = ys.
Proof.
  intros Hx. revert ys. induction Hx as [|x xs [a ->] Hxs IH]; intros ys Hy.
  - destruct Hy as [|y ys [b ->] Hys]; [reflexivity|].
    simpl. destruct ys; discriminate.
  - destruct Hy as [|y ys [b ->] Hys].
    + simpl. destruct xs; discriminate.
    + destruct xs as [|x' xs], ys as [|y' ys]; simpl.
      * now intros [= ->].
      * intros H. inversion H.
      * intros H. inversion H.
      * intros H. injection H as -> H. f_equal. apply IH; [assumption|]. exact H.
Qed.

Lemma nth_error_ext_eq (A : Type) (xs ys : list A) :
  length xs = length ys ->
  (forall p x, nth_error ys p = Some x -> nth_error xs p = Some x) ->
  xs = ys.
Proof.
  revert ys. induction xs as [|x xs IH]; intros [|y ys]; simpl; try discriminate.
  - reflexivity.
  - intros [= Hlen] H. f_equal.
    + specialize (H 0 y eq_refl). simpl in H. congruence.
    + apply IH; [assumption|]. intros p z Hz. exact (H (S p) z Hz).
Qed.

(** Once every position is shown, the whole word is printed. *)
Lemma covered_displays_word (s : State) (w : GameWord) :
  currentGameWord s = Some w ->
  covered w s ->
  displayWord s = join " " (JS.split (word w)).
Proof.
  intros Hw Hcov. unfold displayWord. rewrite Hw. f_equal. apply nth_error_ext_eq.
  - unfold displayTiles. now rewrite tilesFrom_length.
  - intros p letter Hat. destruct (displayTiles_nth s w p letter Hat) as [Hshow _].
    apply Hshow, Hcov. eapply letterAt_lt; eassumption.
Qed.

(** X1.  [displayWord] prints one tile for every letter of the word: the
    letter itself at a position that is revealed or a hint tile, an
    underscore at every other position. *)
Theorem display_shows_what_is_shown (s : State) (w : GameWord) :
  currentGameWord s = Some w ->
  displayWord s = join " " (displayTiles s w)
  /\ length (displayTiles s w) = String.length (word w)
  /\ forall p letter, letterAt w p letter ->
       (shown s p -> nth_error (displayTiles s w) p = Some letter)
       /\ (~ shown s p -> nth_error (displayTiles s w) p = Some "_"%string).
Proof.
  intros Hw. unfold displayWord. rewrite Hw. split; [reflexivity|]. split.
  - unfold displayTiles. now rewrite tilesFrom_length, split_length.
  - intros p letter. apply displayTiles_nth.
Qed.

(** X2.  For a word that holds no underscore, [displayWord] prints the
    whole word, letter by letter with blanks between, exactly when every
    position is revealed or a hint tile. *)
Theorem display_is_complete_iff_covered (s : State) (w : GameWord) :
  currentGameWord s = Some w ->
  ~ In "_"%char (list_ascii_of_string (word w)) ->
  displayWord s = join " " (JS.split (word w)) <-> covered w s.
Proof.
  intros Hw Hno. split; [|now apply covered_displays_word].
  unfold displayWord. rewrite Hw.
  intros Heq. apply join_oneChar_inj in Heq;
    [|apply tilesFrom_oneChar, split_oneChar | apply split_oneChar].
  intros p Hp.
  destruct (nth_error (JS.split (word w)) p) as [letter|] eqn:Hat.
  2: { apply nth_error_None in Hat. rewrite split_length in Hat. lia. }
  destruct (in_dec Nat.eq_dec p (revealedPositions s)) as [|Hr]; [now left|].
  destruct (in_dec Nat.eq_dec p (defaultRevealedPositions s)) as [|Hd]; [now right|].
  exfalso. assert (Hhid : ~ shown s p) by (unfold shown; tauto).
  destruct (displayTiles_nth s w p letter Hat) as [_ Hblank].
  specialize (Hblank Hhid). rewrite Heq, Hat in Hblank. injection Hblank as ->.
  apply Hno. clear -Hat. revert p Hat. generalize (word w) as v.
  induction v as [|c t IH]; intros p; simpl; [destruct p; discriminate|].
  destruct p as [|p]; simpl; [intros [= ->]; now left | intros H; right; eauto].
Qed.

(** ** The leaderboard *)

Section Leaderboard.

Lemma insertByPoints_perm (a : TeamScore) (rows : list TeamScore) :
  Permutation (a :: rows) (insertByPoints a rows).
Proof.
  induction rows as [|b rest IH]; simpl; [reflexivity|].
  destruct (ts_points b <=? ts_points a)%Z; [reflexivity|].
  rewrite perm_swap. now constructor.
Qed.

Lemma sortByPoints_perm (rows : list TeamScore) : Permutation rows (sortByPoints rows).
Proof.
  induction rows as [|a rest IH]; simpl; [constructor|].
  rewrite <- insertByPoints_perm. now constructor.
Qed.

(** A row whose number is below all the others goes in front of the rows
    with no more points than it has. *)
Lemma insertByPoints_sorted (a : TeamScore) (rows : list TeamScore) :
  Forall (fun b => teamNumber a < teamNumber b) rows ->
  StronglySorted ranksBefore rows ->
  StronglySorted ranksBefore (insertByPoints a rows).
Proof.
  intros Hnum Hs. induction Hs as [|b rest Hs IH Hall]; simpl.
  - constructor; constructor.
  - inversion Hnum as [|? ? Hb Hrest]; subst.
    destruct (ts_points b <=? ts_points a)%Z eqn:E.
    + apply Z.leb_le in E. constructor; [now constructor|].
      assert (Hab : ranksBefore a b) by (unfold ranksBefore; lia).
      constructor; [assumption|].
      rewrite Forall_forall in *. intros c Hc.
      specialize (Hall c Hc). specialize (Hrest c Hc). unfold ranksBefore in *. lia.
    + apply Z.leb_gt in E. constructor; [now apply IH|].
      apply Forall_forall. intros c Hc.
      apply (Permutation_in _ (Permutation_sym (insertByPoints_perm a rest))) in Hc.
      destruct Hc as [<-|Hc].
      * unfold ranksBefore. lia.
      * rewrite Forall_forall in Hall. now apply Hall.
Qed.

Lemma numberedFrom_numbers (scores : list GameScore) (ts : list Team) (index : nat) :
  Forall (fun row => index < teamNumber row) (numberedFrom index scores ts).
Proof.
  revert index. induction ts as [|team rest IH]; intros index; simpl; constructor.
  - simpl. lia.
  - eapply Forall_impl; [|apply (IH (S index))]. simpl. intros row. lia.
Qed.

Lemma sortByPoints_numbered (scores : list GameScore) (ts : list Team) (index : nat) :
  StronglySorted ranksBefore (sortByPoints (numberedFrom index scores ts)).
Proof.
  revert index. induction ts as [|team rest IH]; intros index; simpl; [constructor|].
  apply insertByPoints_sorted; [|apply IH].
  apply Forall_forall. intros row Hrow.
  apply (Permutation_in _ (Permutation_sym (sortByPoints_perm _))) in Hrow.
  pose proof (numberedFrom_numbers scores rest (S index)) as Hn.
  rewrite Forall_forall in Hn. specialize (Hn row Hrow). simpl. lia.
Qed.

Lemma numberedFrom_teams (scores : list GameScore) (ts : list Team) (index : nat) :
  map ts_team (numberedFrom index scores ts) = ts.
Proof.
  revert index. induction ts as [|team rest IH]; intros index; simpl; [reflexivity|].
  now rewrite IH.
Qed.

Lemma numberedFrom_row (scores : list GameScore) (ts : list Team) (index : nat)
  (row : TeamScore) :
  In row (numberedFrom index scores ts) ->
  index < teamNumber row
  /\ nth_error ts (teamNumber row - 1 - index) = Some (ts_team row)
  /\ ts_points row = scoreOf scores (team_id (ts_team row)).
Proof.
  revert index. induction ts as [|team rest IH]; intros index; simpl; [intros []|].
  intros [<-|Hin]; simpl.
  - replace (index + 1 - 1 - index) with 0 by lia. repeat split. lia.
  - destruct (IH (S index) Hin) as [H1 [H2 H3]]. repeat split; [lia | | assumption].
    replace (teamNumber row - 1 - index) with (S (teamNumber row - 1 - S index)) by lia.
    exact H2.
Qed.

Lemma findIndexFrom_first (id : Z) (ts : list Team) (index p : nat) (team : Team) :
  nth_error ts p = Some team ->
  team_id team = id ->
  (forall q other, q < p -> nth_error ts q = Some other -> team_id other <> id) ->
  findIndexFrom index id ts = Some (index + p).
Proof.
  revert index p. induction ts as [|t rest IH]; intros index p; [destruct p; discriminate|].
  destruct p as [|p]; simpl.
  - intros [= ->] -> _. rewrite Z.eqb_refl. f_equal. lia.
  - intros Hp Hid Hbefore.
    assert (Hne : team_id t <> id) by (apply (Hbefore 0 t); [lia | reflexivity]).
    apply Z.eqb_neq in Hne. rewrite Hne.
    rewrite (IH (S index) p Hp Hid); [f_equal; lia|].
    intros q other Hq Hother. apply (Hbefore (S q) other); [lia | exact Hother].
Qed.

End Leaderboard.

(** X3.  The leaderboard lists every team exactly once, each with its fixed
    number (its place among the teams plus one) and the points of its score
    row (0 without a row), ordered by falling points; teams with equal
    points keep the order of their numbers. *)
Theorem leaderboard_is_ranked (s : State) :
  Permutation (map ts_team (getTeamScores s)) (teams s)
  /\ StronglySorted ranksBefore (getTeamScores s)
  /\ forall row, In row (getTeamScores s) ->
       nth_error (teams s) (teamNumber row - 1) = Some (ts_team row)
       /\ 1 <= teamNumber row <= length (teams s)
       /\ ts_points row = scoreOf (gameScores s) (team_id (ts_team row)).
Proof.
  unfold getTeamScores. split; [|split].
  - rewrite <- (numberedFrom_teams (gameScores s) (teams s) 0) at 2.
    apply Permutation_map, Permutation_sym, sortByPoints_perm.
  - apply sortByPoints_numbered.
  - intros row Hrow.
    apply (Permutation_in _ (Permutation_sym (sortByPoints_perm _))) in Hrow.
    destruct (numberedFrom_row _ _ _ _ Hrow) as [H1 [H2 H3]].
    rewrite Nat.sub_0_r in H2. repeat split; try assumption.
    assert (teamNumber row - 1 < length (teams s)) by (apply nth_error_Some; congruence).
    lia.
Qed.

(** X4.  The first row of the leaderboard, the winner of the final card, is
    a team no other team has more points than, and among the teams with
    these points the one with the lowest number. *)
Theorem leaderboard_winner_leads (s : State) (winner : TeamScore) (rest : list TeamScore) :
  getTeamScores s = winner :: rest ->
  (forall team, In team (teams s) ->
     (scoreOf (gameScores s) (team_id team) <= ts_points winner)%Z)
  /\ forall row, In row rest ->
       ts_points row = ts_points winner -> teamNumber winner < teamNumber row.
Proof.
  intros Hw. pose proof (sortByPoints_numbered (gameScores s) (teams s) 0) as Hs.
  fold (getTeamScores s) in Hs. rewrite Hw in Hs.
  apply StronglySorted_inv in Hs. destruct Hs as [_ Hall]. rewrite Forall_forall in Hall.
  split.
  - intros team Hteam.
    assert (Hperm : Permutation (numberedFrom 0 (gameScores s) (teams s)) (winner :: rest)).
    { rewrite <- Hw. apply sortByPoints_perm. }
    destruct (In_nth_error _ _ Hteam) as [p Hp].
    assert (Hrow : exists row, In row (numberedFrom 0 (gameScores s) (teams s))
                               /\ ts_team row = team).
    { rewrite <- (numberedFrom_teams (gameScores s) (teams s) 0) in Hteam.
      apply in_map_iff in Hteam. destruct Hteam as [row [E Hin]]. eauto. }
    destruct Hrow as [row [Hin <-]].
    destruct (numberedFrom_row _ _ _ _ Hin) as [_ [_ <-]].
    apply (Permutation_in _ Hperm) in Hin. destruct Hin as [<-|Hin]; [lia|].
    specialize (Hall row Hin). unfold ranksBefore in Hall. lia.
  - intros row Hrow Heq. specialize (Hall row Hrow). unfold ranksBefore in Hall. lia.
Qed.

(** X5.  With team ids that differ from each other, looking a row of the
    leaderboard up in [teams] by its id finds the team at the place its
    number names. *)
Theorem leaderboard_row_finds_its_team (s : State) (row : TeamScore) :
  NoDup (map team_id (teams s)) ->
  In row (getTeamScores s) ->
  originalTeamIndex s row = Some (teamNumber row - 1)
  /\ nth_error (teams s) (teamNumber row - 1) = Some (ts_team row).
Proof.
  intros Hnd Hrow. unfold getTeamScores in Hrow.
  apply (Permutation_in _ (Permutation_sym (sortByPoints_perm _))) in Hrow.
  destruct (numberedFrom_row _ _ _ _ Hrow) as [_ [Hnth _]].
  rewrite Nat.sub_0_r in Hnth. split; [|assumption].
  unfold originalTeamIndex.
  apply (findIndexFrom_first _ _ 0 (teamNumber row - 1) (ts_team row) Hnth eq_refl).
  intros q other Hq Hother Heq.
  assert (Hq' : nth_error (map team_id (teams s)) q = Some (team_id other))
    by (now apply map_nth_error).
  assert (Hp' : nth_error (map team_id (teams s)) (teamNumber row - 1)
                = Some (team_id (ts_team row))) by (now apply map_nth_error).
  rewrite <- Heq in Hp'.
  assert (Hlt : q < length (map team_id (teams s))) by (apply nth_error_Some; congruence).
  pose proof (proj1 (NoDup_nth_error _) Hnd q (teamNumber row - 1) Hlt) as Hinj.
  rewrite Hq', Hp' in Hinj. specialize (Hinj eq_refl). lia.
Qed.

(** ** Loading the game *)

(** X6.  [loadInitialData] starts the game exactly when the teams and the
    words were read without an error and are not empty, the insert of the
    game row gave a row back, and the insert of the score rows gave no
    error.  The state it then leaves, and the one timeout it sets, are those
    of [autoStartGame] as the game is played from: phase Playing, word 0,
    team 0, a score row for every team, no error text. *)
Theorem game_starts_when_all_is_loaded
  (teamsReply : Reply (list Team)) (wordsReply : Reply (list GameWord))
  (gameReply : Reply (list Z)) (scoresReply : Reply unit) :
  (gameState (loadedState (loadInitialData teamsReply wordsReply gameReply scoresReply))
   = playing
   <-> exists team teamsData w wordsData gameId others done,
         teamsReply = Rows (team :: teamsData)
         /\ wordsReply = Rows (w :: wordsData)
         /\ gameReply = Rows (gameId :: others)
         /\ scoresReply = Rows done)
  /\ (forall team teamsData w wordsData gameId others done,
        teamsReply = Rows (team :: teamsData) ->
        wordsReply = Rows (w :: wordsData) ->
        gameReply = Rows (gameId :: others) ->
        scoresReply = Rows done ->
        wordError (loadInitialData teamsReply wordsReply gameReply scoresReply)
        = EmptyString
        /\ (loadedState (loadInitialData teamsReply wordsReply gameReply scoresReply),
            loadedCalls (loadInitialData teamsReply wordsReply gameReply scoresReply))
           = autoStartGame (team :: teamsData) (w :: wordsData) gameId).
Proof.
  split.
  - unfold loadInitialData, autoStartGameWith. split.
    + destruct teamsReply as [[|team teamsData]|m]; simpl; try discriminate.
      destruct wordsReply as [[|w wordsData]|m]; simpl; try discriminate.
      destruct gameReply as [[|gameId others]|m]; simpl; try discriminate.
      destruct scoresReply as [done|m]; simpl; try discriminate.
      intros _. exists team, teamsData, w, wordsData, gameId, others, done. tauto.
    + intros [team [teamsData [w [wordsData [gameId [others [done [-> [-> [-> ->]]]]]]]]]].
      reflexivity.
  - intros team teamsData w wordsData gameId others done -> -> -> ->.
    split; reflexivity.
Qed.

(** X7.  Whatever the database answers, the page does not show the error
    card after loading.  A load that does not start the game sets an error
    text but leaves the phase at [loading], and the loading card is returned
    before the error text is looked at. *)
Theorem load_failure_stays_on_loading_card
  (teamsReply : Reply (list Team)) (wordsReply : Reply (list GameWord))
  (gameReply : Reply (list Z)) (scoresReply : Reply unit) :
  screenAfterLoad (loadInitialData teamsReply wordsReply gameReply scoresReply)
  <> ErrorCard
  /\ (gameState (loadedState (loadInitialData teamsReply wordsReply gameReply scoresReply))
      <> playing ->
      wordError (loadInitialData teamsReply wordsReply gameReply scoresReply)
      <> EmptyString
      /\ gameState
           (loadedState (loadInitialData teamsReply wordsReply gameReply scoresReply))
         = loading
      /\ screenAfterLoad (loadInitialData teamsReply wordsReply gameReply scoresReply)
         = LoadingCard).
Proof.
  unfold screenAfterLoad, loadInitialData, autoStartGameWith.
  destruct teamsReply as [[|team teamsData]|m]; simpl;
    try (split; [discriminate | intros _; repeat split; discriminate]).
  destruct wordsReply as [[|w wordsData]|m]; simpl;
    try (split; [discriminate | intros _; repeat split; discriminate]).
  destruct gameReply as [[|gameId others]|m]; simpl;
    try (split; [discriminate | intros _; repeat split; discriminate]).
  destruct scoresReply as [done|m]; simpl;
    try (split; [discriminate | intros _; repeat split; discriminate]).
  split; [discriminate | intros H; now contradiction H].
Qed.

(** ** More on guessing *)

Lemma removeNth_In {A : Type} (k : nat) (xs : list A) (x : A) :
  In x (removeNth k xs) -> In x xs.
Proof.
  unfold removeNth. revert xs. induction k as [|k IH]; intros [|y ys]; simpl; auto.
  intros [<-|H]; [now left | right; now apply IH].
Qed.

Section MoreGuessing.

Variable stored : bool.

Lemma wrongGuessOutcome_input (s : State) :
  inputLetter (fst (wrongGuessOutcome s)) = EmptyString.
Proof. reflexivity. Qed.

Lemma revealOutcome_input (s : State) (w : GameWord) (first : nat) (team : Team) :
  nth_error (teams s) (currentTeam s) = Some team ->
  inputLetter (fst (revealOutcome s w first)) = EmptyString.
Proof.
  intros Hteam. unfold revealOutcome. rewrite Hteam.
  destruct (completes s w first); reflexivity.
Qed.

(** A guess writes no score itself. *)
Lemma guessLetter_scores (s : State) :
  gameScores (fst (guessLetter stored s)) = gameScores s.
Proof.
  destruct (string_dec (inputLetter s) EmptyString) as [Hi|Hne].
  { now rewrite guessLetter_empty. }
  destruct (currentGameWord s) as [w|] eqn:Hw.
  2: { unfold guessLetter, guessLetterHandler. rewrite Hw.
       destruct (inputLetter s); reflexivity. }
  destruct (JS.includes (word w) (JS.toUpperCase (inputLetter s))) eqn:Hinc.
  2: { rewrite (guessLetter_absent stored s w Hne Hw Hinc). reflexivity. }
  destruct (unrevealedPositionsOf s w) as [|first others] eqn:Hun.
  { rewrite (guessLetter_exhausted stored s w Hne Hw Hinc Hun). reflexivity. }
  rewrite (guessLetter_reveal stored s w first others Hne Hw Hinc Hun).
  apply revealOutcome_scores.
Qed.

(** An update is sent only by a guess that wins, with the game row
    present; it carries the answer of its guess. *)
Lemma guessLetterSent_won (s : State) (u : ScoreUpdate) :
  In u (guessLetterSent stored s) ->
  gameState (fst (guessLetter stored s)) = won
  /\ hasGame s = true
  /\ su_stored u = stored.
Proof.
  destruct (string_dec (inputLetter s) EmptyString) as [Hi|Hne].
  { rewrite guessLetterSent_empty by assumption. intros []. }
  destruct (currentGameWord s) as [w|] eqn:Hw.
  2: { rewrite guessLetterSent_no_word by assumption. intros []. }
  destruct (JS.includes (word w) (JS.toUpperCase (inputLetter s))) eqn:Hinc.
  2: { rewrite (guessLetterSent_absent stored s w Hw Hinc). intros []. }
  destruct (unrevealedPositionsOf s w) as [|first others] eqn:Hun.
  { rewrite (guessLetterSent_exhausted stored s w Hw Hun). intros []. }
  rewrite (guessLetterSent_reveal stored s w first others Hne Hw Hinc Hun).
  rewrite (guessLetter_reveal stored s w first others Hne Hw Hinc Hun).
  rewrite revealOutcome_gameState. unfold revealSent.
  destruct (completes s w first); [|intros []].
  destruct (nth_error _ _) as [team|]; [|intros []].
  rewrite updateGameScore_sent. destruct (hasGame s); [|intros []].
  intros [<-|[]]. repeat split.
Qed.

End MoreGuessing.

(** X8.  A guess with a letter in the box is always logged: whatever the
    branch taken, and even when the handler breaks off for want of a word or
    a team, [guessedLetters] grows by exactly the upper-cased input, at its
    end. *)
Theorem guess_is_always_logged (stored : bool) (s : State) :
  inputLetter s <> EmptyString ->
  guessedLetters (fst (guessLetter stored s))
  = guessedLetters s ++ [JS.toUpperCase (inputLetter s)].
Proof.
  intros Hne. destruct (currentGameWord s) as [w|] eqn:Hw.
  2: { unfold guessLetter, guessLetterHandler. rewrite Hw. destruct (inputLetter s); [congruence | reflexivity]. }
  destruct (JS.includes (word w) (JS.toUpperCase (inputLetter s))) eqn:Hinc.
  2: { rewrite (guessLetter_absent stored s w Hne Hw Hinc).
       apply wrongGuessOutcome_fields. }
  destruct (unrevealedPositionsOf s w) as [|first others] eqn:Hun.
  { rewrite (guessLetter_exhausted stored s w Hne Hw Hinc Hun).
    apply wrongGuessOutcome_fields. }
  rewrite (guessLetter_reveal stored s w first others Hne Hw Hinc Hun).
  apply revealOutcome_revealed.
Qed.

(** X9.  With a word current and a team at [currentTeam], a guess empties
    the input box, so pressing Guess again without typing changes nothing
    and sets no timeout. *)
Theorem second_press_does_nothing
  (stored again : bool) (s : State) (w : GameWord) (team : Team) :
  currentGameWord s = Some w ->
  nth_error (teams s) (currentTeam s) = Some team ->
  inputLetter (fst (guessLetter stored s)) = EmptyString
  /\ guessLetter again (fst (guessLetter stored s)) = (fst (guessLetter stored s), []).
Proof.
  intros Hw Hteam.
  assert (Hin : inputLetter (fst (guessLetter stored s)) = EmptyString).
  { destruct (inputLetter s) as [|c rest] eqn:Hi.
    { now rewrite guessLetter_empty. }
    assert (Hne : inputLetter s <> EmptyString) by (rewrite Hi; discriminate).
    destruct (JS.includes (word w) (JS.toUpperCase (inputLetter s))) eqn:Hinc.
    2: { now rewrite (guessLetter_absent stored s w Hne Hw Hinc). }
    destruct (unrevealedPositionsOf s w) as [|first others] eqn:Hun.
    { now rewrite (guessLetter_exhausted stored s w Hne Hw Hinc Hun). }
    rewrite (guessLetter_reveal stored s w first others Hne Hw Hinc Hun).
    eapply revealOutcome_input; eassumption. }
  split; [assumption | now apply guessLetter_empty].
Qed.

(** X10.  The scores in memory change in one way only: by the answer,
    without an error, to a score update in flight.  Typing, passing, every
    guess itself and every timeout leave them as they are.  And an update
    is put in flight in one way only: by a press of Guess that moves the
    phase to Won, with the game row present. *)
Theorem only_a_winning_guess_moves_scores (sys sys' : Sys) (e : Event) :
  step sys e = Some sys' ->
  (gameScores (st sys') <> gameScores (st sys) ->
   exists dt k u,
     e = ScoreAnswered dt k
     /\ nth_error (requests sys) k = Some u
     /\ su_stored u = true)
  /\ forall u, In u (requests sys') ->
       In u (requests sys)
       \/ exists dt stored,
            e = GuessPressed dt stored
            /\ gameState (st sys') = won
            /\ hasGame (st sys) = true
            /\ su_stored u = stored.
Proof.
  intros Hstep. destruct e as [dt value|dt stored|dt|draws|dt k]; simpl in Hstep.
  - destruct (userMay sys dt && _ && _); [|discriminate]. injection Hstep as <-.
    split; [intros Hchange; now contradiction Hchange | intros u Hu; now left].
  - destruct (userMay sys dt); [|discriminate]. injection Hstep as <-. simpl. split.
    + intros Hchange. contradiction Hchange. apply guessLetter_scores.
    + intros u Hu. apply in_app_iff in Hu. destruct Hu as [Hu|Hu]; [now left|].
      right. exists dt, stored. split; [reflexivity|].
      now apply guessLetterSent_won.
  - destruct (userMay sys dt); [|discriminate]. injection Hstep as <-. simpl.
    split; [|intros u Hu; now left].
    intros Hchange. contradiction Hchange. unfold passQuestion, nextTeamOrWord.
    destruct (4 <=? _); [reflexivity|]. destruct (skipAttempted _ _ _); reflexivity.
  - destruct (takeEarliest (timers sys)) as [[t rest]|]; [|discriminate].
    destruct (hintEffect _ _ _) as [s'|] eqn:Heff; [|discriminate].
    injection Hstep as <-. simpl. split; [|intros u Hu; now left].
    intros Hchange. contradiction Hchange.
    assert (Hcb : gameScores (fst (runCallback (callback t) (st sys))) = gameScores (st sys)).
    { destruct (callback t) as [r|r|]; simpl.
      - unfold nextTeamOrWord. destruct (4 <=? _); [reflexivity|].
        destruct (skipAttempted _ _ _); reflexivity.
      - unfold nextWord. destruct (_ <? _); reflexivity.
      - reflexivity. }
    rewrite <- Hcb. unfold hintEffect in Heff.
    destruct (_ =? _); [now injection Heff as <-|].
    destruct (currentGameWord _); [|now injection Heff as <-].
    destruct (forallb _ _); [|discriminate].
    destruct (generateDefaultRevealedPositions _ _); simpl in Heff; [|discriminate].
    now injection Heff as <-.
  - destruct (answerMay sys dt); [|discriminate].
    destruct (nth_error (requests sys) k) as [u|] eqn:Hk; [|discriminate].
    injection Hstep as <-. simpl. split.
    + intros Hchange. exists dt, k, u. split; [reflexivity|]. split; [exact Hk|].
      destruct (su_stored u) eqn:Hs; [reflexivity|].
      contradiction Hchange. now rewrite scoreAnswered_error.
    + intros v Hv. left. now apply removeNth_In in Hv.
Qed.

(** ** The older revision *)

Section ClassicFacts.

Lemma find_head_least (f : nat -> bool) (xs : list nat) (first : nat) :
  StronglySorted lt xs ->
  find f xs = Some first ->
  In first xs /\ f first = true /\ forall q, In q xs -> f q = true -> first <= q.
Proof.
  induction 1 as [|x xs Hs IH Hall]; simpl; [discriminate|].
  destruct (f x) eqn:E.
  - intros [= ->]. repeat split; [now left | assumption |].
    intros q [<-|Hq] _; [lia|]. rewrite Forall_forall in Hall. specialize (Hall q Hq). lia.
  - intros Hf. destruct (IH Hf) as [H1 [H2 H3]]. repeat split; [now right | assumption |].
    intros q [<-|Hq] Hfq; [congruence | auto].
Qed.

End ClassicFacts.

(** X11.  In the older revision a letter that occurs in the word never
    costs a wrong guess: the guess is logged, [wrongGuesses] and the hint
    tiles stay, and either the lowest occurrence that is not in
    [revealedPositions] is appended to it, hint tile or not, or every
    occurrence is in it already and it stays too. *)
Theorem classic_letter_in_word_is_never_wrong (stored : bool) (s : State) (w : GameWord) :
  inputLetter s <> EmptyString ->
  currentGameWord s = Some w ->
  JS.includes (word w) (JS.toUpperCase (inputLetter s)) = true ->
  wrongGuesses (fst (Classic.guessLetter stored s)) = wrongGuesses s
  /\ guessedLetters (fst (Classic.guessLetter stored s))
     = guessedLetters s ++ [JS.toUpperCase (inputLetter s)]
  /\ defaultRevealedPositions (fst (Classic.guessLetter stored s))
     = defaultRevealedPositions s
  /\ ((revealedPositions (fst (Classic.guessLetter stored s)) = revealedPositions s
       /\ forall q, letterAt w q (JS.toUpperCase (inputLetter s)) ->
                    In q (revealedPositions s))
      \/ exists first,
           letterAt w first (JS.toUpperCase (inputLetter s))
           /\ ~ In first (revealedPositions s)
           /\ (forall q, letterAt w q (JS.toUpperCase (inputLetter s)) ->
                         ~ In q (revealedPositions s) -> first <= q)
           /\ revealedPositions (fst (Classic.guessLetter stored s))
              = revealedPositions s ++ [first]).
Proof.
  intros Hne Hw Hinc. unfold Classic.guessLetter, Classic.guessLetterHandler.
  destruct (inputLetter s) as [|c rest] eqn:Hi; [congruence|]. rewrite <- Hi in *.
  rewrite Hw, Hinc. cbn [negb].
  destruct (find _ _) as [first|] eqn:Hfind.
  - apply find_head_least in Hfind; [|apply positionsFrom_sorted].
    destruct Hfind as [H1 [H2 H3]].
    assert (Hlast : letterAt w first (JS.toUpperCase (inputLetter s))
                    /\ ~ In first (revealedPositions s)
                    /\ (forall q, letterAt w q (JS.toUpperCase (inputLetter s)) ->
                                  ~ In q (revealedPositions s) -> first <= q)).
    { repeat split.
      - now apply letterPositionsOf_In.
      - apply negb_true_iff in H2. now apply has_false.
      - intros q Hq Hr. apply H3; [now apply letterPositionsOf_In|].
        apply negb_true_iff. now apply has_false. }
    destruct (_ =? _).
    + destruct (nth_error _ _) as [team|].
      * cbn. repeat split. right. exists first. tauto.
      * cbn. repeat split. right. exists first. tauto.
    + cbn. repeat split. right. exists first. tauto.
  - cbn. repeat split. left. split; [reflexivity|].
    intros q Hq. apply letterPositionsOf_In in Hq.
    pose proof (find_none _ _ Hfind q Hq) as Hf. apply negb_false_iff in Hf.
    now apply has_In.
Qed.

(** X12.  In the older revision a word of a length the schema admits gets,
    whatever the draws are, exactly [min(3, floor(wordLength * 0.3))] hint
    tiles, distinct, inside the word and ascending; the loop goes on asking
    for draws only while fewer distinct positions than that have been
    drawn. *)
Theorem classic_hint_tiles_chosen (wordLength : nat) (draws : list nat) :
  wordLength <= wordMaxLength ->
  Forall (fun d => d < wordLength) draws ->
  match Classic.generateDefaultRevealedPositions wordLength draws with
  | Some ps =>
      length ps = Nat.min 3 (wordLength * 3 / 10)
      /\ NoDup ps
      /\ Forall (fun p => p < wordLength) ps
      /\ StronglySorted lt ps
  | None => length (nodup Nat.eq_dec draws) < Nat.min 3 (wordLength * 3 / 10)
  end.
Proof.
  intros Hlen Hdraws. unfold Classic.generateDefaultRevealedPositions, numToReveal,
    Classic.hintRevealCap.
  rewrite (floorOfThreeTenths_exact wordLength Hlen).
  set (k := Nat.min 3 (wordLength * 3 / 10)).
  destruct (selectPositions k [] draws) as [chosen|] eqn:Hsel; simpl.
  - destruct (selectPositions_inv k wordLength draws [] chosen Hdraws) as [Hk [Hnd Hin]];
      [constructor | constructor | simpl; lia | exact Hsel |].
    repeat split.
    + now rewrite sortAsc_length.
    + apply StronglySorted_lt_NoDup, sortAsc_sorted, Hnd.
    + rewrite Forall_forall in *. intros p Hp. apply Hin. now apply sortAsc_In.
    + apply sortAsc_sorted, Hnd.
  - destruct (Nat.lt_ge_cases (length (nodup Nat.eq_dec draws)) k) as [Hlt|Hge];
      [assumption|].
    destruct (selectPositions_returns k draws [] (nodup Nat.eq_dec draws)) as [ps Hps].
    + apply NoDup_nodup.
    + intros x Hx. now apply nodup_In in Hx.
    + intros x _ [].
    + simpl. lia.
    + congruence.
Qed.

(** ** What every state of a game keeps *)

Section Frames.

Variable stored : bool.

(** What a guess leaves alone, and the only phase it can move to. *)
Lemma guessLetter_frame (s : State) :
  teams (fst (guessLetter stored s)) = teams s
  /\ words (fst (guessLetter stored s)) = words s
  /\ currentWordIndex (fst (guessLetter stored s)) = currentWordIndex s
  /\ currentTeam (fst (guessLetter stored s)) = currentTeam s
  /\ originalTeamForQuestion (fst (guessLetter stored s)) = originalTeamForQuestion s
  /\ teamsAttempted (fst (guessLetter stored s)) = teamsAttempted s
  /\ isPassedQuestion (fst (guessLetter stored s)) = isPassedQuestion s
  /\ defaultRevealedPositions (fst (guessLetter stored s)) = defaultRevealedPositions s
  /\ (gameState (fst (guessLetter stored s)) = gameState s
      \/ gameState (fst (guessLetter stored s)) = won).
Proof.
  destruct (inputLetter s) as [|c rest] eqn:Hi.
  { rewrite guessLetter_empty by assumption. simpl. tauto. }
  assert (Hne : inputLetter s <> EmptyString) by (rewrite Hi; discriminate).
  destruct (currentGameWord s) as [w|] eqn:Hw.
  2: { unfold guessLetter, guessLetterHandler. rewrite Hi, Hw. cbn. tauto. }
  assert (Hwrong : forall o, o = wrongGuessOutcome s ->
            teams (fst o) = teams s /\ words (fst o) = words s
            /\ currentWordIndex (fst o) = currentWordIndex s
            /\ currentTeam (fst o) = currentTeam s
            /\ originalTeamForQuestion (fst o) = originalTeamForQuestion s
            /\ teamsAttempted (fst o) = teamsAttempted s
            /\ isPassedQuestion (fst o) = isPassedQuestion s
            /\ defaultRevealedPositions (fst o) = defaultRevealedPositions s
            /\ (gameState (fst o) = gameState s \/ gameState (fst o) = won)).
  { intros o ->. cbn. tauto. }
  destruct (JS.includes (word w) (JS.toUpperCase (inputLetter s))) eqn:Hinc.
  2: { apply Hwrong. now apply guessLetter_absent with (w := w). }
  destruct (unrevealedPositionsOf s w) as [|first others] eqn:Hun.
  { apply Hwrong. now apply guessLetter_exhausted with (w := w). }
  rewrite (guessLetter_reveal stored s w first others Hne Hw Hinc Hun).
  unfold revealOutcome. destruct (completes s w first); [|cbn; tauto].
  destruct (nth_error _ _) as [team|]; cbn; tauto.
Qed.

End Frames.

Section Turns.

Lemma turnOk_same (s s' : State) :
  turnOk s ->
  currentTeam s' = currentTeam s ->
  originalTeamForQuestion s' = originalTeamForQuestion s ->
  currentWordIndex s' = currentWordIndex s ->
  teamsAttempted s' = teamsAttempted s ->
  isPassedQuestion s' = isPassedQuestion s ->
  (gameState s' = playing -> gameState s = playing) ->
  (gameState s' = lost -> gameState s = lost) ->
  turnOk s'.
Proof.
  intros [H1 [H2 [H3 [H4 [H5 [H6 [H7 H8]]]]]]] Ec Eo Ei Ea Ep Eg El.
  unfold turnOk. rewrite Ec, Eo, Ei, Ea, Ep.
  split; [assumption|]. split; [assumption|]. split; [assumption|].
  split; [assumption|]. split; [auto|]. split; [auto|]. split; [assumption | auto].
Qed.

Lemma passClosureOk_capture (s : State) :
  turnOk s -> gameState s = playing -> passClosureOk (capture s).
Proof.
  intros [H1 [_ [H3 [H4 [H5 _]]]]] Hplay. unfold passClosureOk. simpl. auto.
Qed.

Lemma four_teams_at_most (attempted : list nat) :
  NoDup attempted -> Forall (fun t => t < 4) attempted -> length attempted <= 4.
Proof.
  intros Hnd Hall. rewrite <- (length_seq 4 0). apply NoDup_incl_length; [assumption|].
  intros t Ht. rewrite Forall_forall in Hall. apply in_seq. specialize (Hall t Ht). lia.
Qed.

Lemma turnOk_pass (r : Closure) (s : State) :
  passClosureOk r -> turnOk s -> turnOk (fst (nextTeamOrWord r s)).
Proof.
  intros [R1 [R2 [R3 R4]]] [H1 [H2 [H3 [H4 [H5 [H6 [H7 H8]]]]]]].
  assert (Hne : cl_teamsAttempted r ++ [cl_currentTeam r] <> []).
  { intros E. apply app_eq_nil in E. destruct E as [_ E]. discriminate E. }
  assert (Hnd : NoDup (cl_teamsAttempted r ++ [cl_currentTeam r])).
  { apply NoDup_app; [assumption | constructor; [intros [] | constructor] |].
    intros x Hx [<-|[]]. contradiction. }
  assert (Hall : Forall (fun t => t < 4) (cl_teamsAttempted r ++ [cl_currentTeam r])).
  { apply Forall_app. split; [assumption | constructor; [assumption | constructor]]. }
  unfold nextTeamOrWord. destruct (4 <=? _) eqn:Hfull.
  - unfold turnOk. cbn. repeat split; try assumption; try discriminate.
    + intros _. assumption.
    + intros _. now apply Nat.leb_le.
  - apply Nat.leb_gt in Hfull.
    assert (Hstart : (cl_currentTeam r + 1) mod 4 < 4) by (apply Nat.mod_upper_bound; lia).
    destruct (skipAttempted_finds _ _ Hfull Hstart) as [found Hfound]. rewrite Hfound.
    destruct (skipAttempted_first 4 _ _ found Hstart Hfound) as [k [_ [Hf [Hn _]]]].
    unfold turnOk. cbn -[Nat.modulo]. repeat split; try assumption.
    + rewrite Hf. apply Nat.mod_upper_bound. lia.
    + intros _. assumption.
    + discriminate.
    + discriminate.
    + intros _. assumption.
    + discriminate.
Qed.

Lemma turnOk_nextWord (r : Closure) (s : State) :
  turnOk s -> turnOk (fst (nextWord r s)).
Proof.
  intros Hok. unfold nextWord. destruct (_ <? _).
  - unfold turnOk. cbn -[Nat.modulo]. repeat split.
    + apply Nat.mod_upper_bound. lia.
    + constructor.
    + constructor.
    + intros _ [].
    + discriminate.
    + discriminate.
  - apply (turnOk_same s); try assumption; try reflexivity; cbn; discriminate.
Qed.

Lemma turnOk_guess (stored : bool) (s : State) :
  turnOk s -> turnOk (fst (guessLetter stored s)).
Proof.
  intros Hok. destruct (guessLetter_frame stored s)
    as [_ [_ [Hi [Hc [Ho [Ha [Hp [_ Hg]]]]]]]].
  apply (turnOk_same s); try assumption.
  - intros Hplay. destruct Hg as [<-|Hg]; [assumption | congruence].
  - intros Hlost. destruct Hg as [<-|Hg]; [assumption | congruence].
Qed.

Lemma hintEffect_cases (draws : list nat) (before after s' : State) :
  hintEffect draws before after = Some s' ->
  s' = after
  \/ exists w ps,
       currentWordIndex before <> currentWordIndex after
       /\ currentGameWord after = Some w
       /\ forallb (fun d => d <? String.length (word w)) draws = true
       /\ generateDefaultRevealedPositions (String.length (word w)) draws = Some ps
       /\ s' = setDefaultRevealedPositions ps after.
Proof.
  unfold hintEffect. destruct (_ =? _) eqn:E; [intros [= <-]; now left|].
  apply Nat.eqb_neq in E.
  destruct (currentGameWord after) as [w|]; [|intros [= <-]; now left].
  destruct (forallb _ _) eqn:Hd; [|discriminate].
  destruct (generateDefaultRevealedPositions _ _) as [ps|] eqn:Hg; simpl; [|discriminate].
  intros [= <-]. right. exists w, ps. tauto.
Qed.

Lemma turnOk_effect (draws : list nat) (before after s' : State) :
  hintEffect draws before after = Some s' -> turnOk after -> turnOk s'.
Proof.
  intros Heff Hok. destruct (hintEffect_cases _ _ _ _ Heff) as [->|[w [ps [_ [_ [_ [_ ->]]]]]]];
    [assumption|].
  apply (turnOk_same after); try assumption; try reflexivity; cbn; tauto.
Qed.

Lemma passCallsOk_guess (stored : bool) (s : State) :
  turnOk s -> gameState s = playing -> passCallsOk (snd (guessLetter stored s)).
Proof.
  intros Hok Hplay call r Hin Hcall.
  assert (Hcap : passClosureOk (capture s)) by now apply passClosureOk_capture.
  destruct (inputLetter s) as [|c rest] eqn:Hi.
  { rewrite guessLetter_empty in Hin by assumption. destruct Hin. }
  assert (Hne : inputLetter s <> EmptyString) by (rewrite Hi; discriminate).
  destruct (currentGameWord s) as [w|] eqn:Hw.
  2: { unfold guessLetter, guessLetterHandler in Hin. rewrite Hi, Hw in Hin. destruct Hin. }
  assert (Hwrong : In call (snd (wrongGuessOutcome s)) -> passClosureOk r).
  { destruct (wrongGuessOutcome_fields s) as [_ [_ [_ [_ [_ [_ ->]]]]]].
    destruct (maxWrongGuesses <=? _); [|intros []].
    intros [<-|[]]. simpl in Hcall. now injection Hcall as <-. }
  destruct (JS.includes (word w) (JS.toUpperCase (inputLetter s))) eqn:Hinc.
  2: { rewrite (guessLetter_absent stored s w Hne Hw Hinc) in Hin. auto. }
  destruct (unrevealedPositionsOf s w) as [|first others] eqn:Hun.
  { rewrite (guessLetter_exhausted stored s w Hne Hw Hinc Hun) in Hin. auto. }
  rewrite (guessLetter_reveal stored s w first others Hne Hw Hinc Hun) in Hin.
  unfold revealOutcome in Hin. destruct (completes s w first); [|destruct Hin].
  destruct (nth_error _ _); [|destruct Hin].
  destruct Hin as [<-|[]]. discriminate Hcall.
Qed.

Lemma passCallsOk_callback (cb : Callback) (s : State) :
  passCallsOk (snd (runCallback cb s)).
Proof.
  intros call r Hin Hcall. destruct cb as [c|c|]; simpl in Hin.
  - unfold nextTeamOrWord in Hin. destruct (4 <=? _).
    + destruct Hin as [<-|[]]. discriminate Hcall.
    + destruct (skipAttempted _ _ _); [|destruct Hin].
      destruct Hin as [<-|[]]. discriminate Hcall.
  - unfold nextWord in Hin. destruct (_ <? _); [|destruct Hin].
    destruct Hin as [<-|[]]. discriminate Hcall.
  - destruct Hin.
Qed.

Lemma passTimersOk_schedule (ts : list Timer) (t : Z) (calls : list (Z * Callback)) :
  passTimersOk ts -> passCallsOk calls -> passTimersOk (ts ++ schedule t calls).
Proof.
  intros Hts Hcalls x r Hx Hcb. apply in_app_iff in Hx. destruct Hx as [Hx|Hx].
  - now apply (Hts x).
  - unfold schedule in Hx. apply in_map_iff in Hx. destruct Hx as [call [<- Hcall]].
    simpl in Hcb. now apply (Hcalls call).
Qed.

End Turns.

Section Tiles.

Lemma tilesOk_same (s s' : State) :
  tilesOk s ->
  revealedPositions s' = revealedPositions s ->
  defaultRevealedPositions s' = defaultRevealedPositions s ->
  guessedLetters s' = guessedLetters s ->
  wrongGuesses s' = wrongGuesses s ->
  currentGameWord s' = currentGameWord s ->
  (gameState s' = won -> gameState s = won) ->
  tilesOk s'.
Proof.
  intros [H1 [H2 H3]] Er Ed Eg Ew Ec Es. unfold tilesOk, covered, shown.
  rewrite Er, Ed, Eg, Ew, Ec. repeat split; try assumption.
  - apply (H3 w H).
  - intros Hwon. apply (H3 w H). auto.
Qed.

(** A fresh attempt: nothing guessed, nothing revealed. *)
Lemma tilesOk_fresh (s : State) :
  revealedPositions s = [] ->
  guessedLetters s = [] ->
  wrongGuesses s = 0 ->
  NoDup (defaultRevealedPositions s) ->
  gameState s <> won ->
  tilesOk s.
Proof.
  intros Er Eg Ew Hnd Hs. unfold tilesOk. rewrite Er, Eg, Ew. simpl.
  repeat split; try assumption; try contradiction.
Qed.

Lemma NoDup_app_left {A : Type} (xs ys : list A) : NoDup (xs ++ ys) -> NoDup xs.
Proof.
  induction xs as [|x xs IH]; simpl; intros H; [constructor|].
  inversion H as [|? ? Hx Hrest]; subst. constructor; [|auto].
  intros Hin. apply Hx. apply in_app_iff. now left.
Qed.

Lemma NoDup_app_right {A : Type} (xs ys : list A) : NoDup (xs ++ ys) -> NoDup ys.
Proof.
  induction xs as [|x xs IH]; simpl; intros H; [assumption|].
  inversion H; subst. auto.
Qed.

Lemma NoDup_reveal (revealed hints : list nat) (first : nat) :
  NoDup (revealed ++ hints) ->
  ~ In first revealed -> ~ In first hints ->
  NoDup ((revealed ++ [first]) ++ hints).
Proof.
  intros Hnd Hr Hh.
  apply (Permutation_NoDup (l := first :: revealed ++ hints)).
  - rewrite <- app_assoc. simpl. apply Permutation_middle.
  - constructor; [|assumption]. rewrite in_app_iff. tauto.
Qed.

(** The hint tiles drawn for a word are distinct. *)
Lemma generated_hints_distinct (wordLength : nat) (draws ps : list nat) :
  generateDefaultRevealedPositions wordLength draws = Some ps -> NoDup ps.
Proof.
  unfold generateDefaultRevealedPositions.
  destruct (selectPositions _ _ _) as [chosen|] eqn:Hsel; simpl; [|discriminate].
  intros [= <-].
  assert (Hbound : exists bound, Forall (fun d => d < bound) draws).
  { clear Hsel. induction draws as [|d rest [bound IH]]; [exists 0; constructor|].
    exists (S (Nat.max d bound)). constructor; [lia|].
    eapply Forall_impl; [|exact IH]. simpl. intros. lia. }
  destruct Hbound as [bound Hall].
  destruct (selectPositions_inv (numToReveal hintRevealCap wordLength) bound draws []
              chosen Hall) as [_ [Hnd _]];
    [constructor | constructor | simpl; lia | assumption |].
  apply StronglySorted_lt_NoDup, sortAsc_sorted, Hnd.
Qed.

Lemma tilesOk_guess (stored : bool) (s : State) (w : GameWord) :
  tilesOk s ->
  gameState s = playing ->
  currentGameWord s = Some w ->
  positionsInWord w s ->
  tilesOk (fst (guessLetter stored s)).
Proof.
  intros Hok Hplay Hw Hpos. pose proof Hok as [Hnd [Hlen Hword]].
  destruct (Hword w Hw) as [Hguessed _].
  destruct (string_dec (inputLetter s) EmptyString) as [Hi|Hne].
  { rewrite guessLetter_empty by assumption. exact Hok. }
  assert (Hwrong : tilesOk (fst (wrongGuessOutcome s))).
  { destruct (wrongGuessOutcome_fields s) as [Ew [Eg [Er [Ed [Es _]]]]].
    unfold tilesOk, covered, shown. rewrite Ew, Eg, Er, Ed, Es, length_app. simpl.
    split; [assumption|]. split; [lia|].
    intros w' Hw'. assert (w' = w) by (cbn in Hw'; unfold currentGameWord in Hw; congruence).
    subst w'. split; [|congruence].
    intros p Hp. destruct (Hguessed p Hp) as [letter [Hl Hin]].
    exists letter. split; [assumption|]. apply in_app_iff. now left. }
  destruct (JS.includes (word w) (JS.toUpperCase (inputLetter s))) eqn:Hinc.
  2: { now rewrite (guessLetter_absent stored s w Hne Hw Hinc). }
  destruct (unrevealedPositionsOf s w) as [|first others] eqn:Hun.
  { now rewrite (guessLetter_exhausted stored s w Hne Hw Hinc Hun). }
  rewrite (guessLetter_reveal stored s w first others Hne Hw Hinc Hun).
  destruct (unrevealed_first s w first others Hun) as [Hfirst [Hhidden _]].
  destruct (revealOutcome_revealed s w first) as [Er [Ed [Eg Ew]]].
  pose proof (revealOutcome_gameState s w first) as Es.
  pose proof (completes_covered s w first Hpos Hfirst) as Hcov.
  assert (Hsame : currentGameWord (fst (revealOutcome s w first)) = Some w).
  { destruct (guessLetter_frame stored s) as [_ [Hwords [Hidx _]]].
    rewrite (guessLetter_reveal stored s w first others Hne Hw Hinc Hun) in Hwords, Hidx.
    unfold currentGameWord in *. now rewrite Hwords, Hidx. }
  unfold tilesOk. rewrite Er, Ed, Eg, Ew, !length_app. simpl. split; [|split].
  - unfold shown in Hhidden. apply NoDup_reveal; tauto.
  - lia.
  - intros w' Hw'. assert (w' = w) by congruence. subst w'. split.
    + intros p Hp. apply in_app_iff in Hp. destruct Hp as [Hp|[<-|[]]].
      * destruct (Hguessed p Hp) as [letter [Hl Hin]].
        exists letter. split; [assumption|]. apply in_app_iff. now left.
      * exists (JS.toUpperCase (inputLetter s)). split; [assumption|].
        apply in_app_iff. right. now left.
    + rewrite Es. destruct (completes s w first); [|congruence].
      intros _. now apply Hcov.
Qed.

Lemma tilesOk_pass (r : Closure) (s : State) :
  tilesOk s -> tilesOk (fst (nextTeamOrWord r s)).
Proof.
  intros Hok. unfold nextTeamOrWord. destruct (4 <=? _).
  - apply (tilesOk_same s); try assumption; try reflexivity. cbn. discriminate.
  - destruct (skipAttempted _ _ _).
    + apply tilesOk_fresh; try reflexivity; [|cbn; discriminate].
      cbn. destruct Hok as [Hnd _]. now apply NoDup_app_right in Hnd.
    + apply (tilesOk_same s); try assumption; try reflexivity. cbn. tauto.
Qed.

Lemma tilesOk_callback (cb : Callback) (s s' : State) (draws : list nat) :
  tilesOk s ->
  hintEffect draws s (fst (runCallback cb s)) = Some s' ->
  tilesOk s'.
Proof.
  intros Hok Heff.
  assert (Hkeeps : forall a, tilesOk a -> hintEffect draws s a = Some s' ->
            (currentWordIndex s <> currentWordIndex a ->
             revealedPositions a = [] /\ guessedLetters a = []
             /\ wrongGuesses a = 0 /\ gameState a <> won) ->
            tilesOk s').
  { intros a Ha He Hnew.
    destruct (hintEffect_cases _ _ _ _ He) as [->|[w [ps [Hidx [_ [_ [Hgen ->]]]]]]];
      [assumption|].
    destruct (Hnew Hidx) as [Er [Eg [Ew Es]]].
    apply tilesOk_fresh; try assumption.
    cbn. now apply generated_hints_distinct in Hgen. }
  destruct cb as [r|r|]; simpl in Heff.
  - apply (Hkeeps _ (tilesOk_pass r s Hok) Heff).
    intros Hidx. exfalso. apply Hidx. unfold nextTeamOrWord.
    destruct (4 <=? _); [reflexivity|]. destruct (skipAttempted _ _ _); reflexivity.
  - assert (Hnext : tilesOk (fst (nextWord r s))).
    { unfold nextWord. destruct (_ <? _).
      - apply tilesOk_fresh; try reflexivity; [|cbn; discriminate].
        cbn. destruct Hok as [Hnd _]. now apply NoDup_app_right in Hnd.
      - apply (tilesOk_same s); try assumption; try reflexivity. cbn. discriminate. }
    apply (Hkeeps _ Hnext Heff).
    intros Hidx. unfold nextWord in *. destruct (_ <? _).
    + cbn. repeat split. discriminate.
    + exfalso. apply Hidx. reflexivity.
  - apply (Hkeeps (setShowRoundStartLeaderboard false s)); [| assumption |].
    + apply (tilesOk_same s); try assumption; try reflexivity. tauto.
    + intros Hidx. exfalso. apply Hidx. reflexivity.
Qed.

End Tiles.

Section Play.

Variable teamsData : list Team.
Variable wordsData : list GameWord.
Hypothesis Hwords : Forall wordOk wordsData.

Lemma playOk_step (sys sys' : Sys) (e : Event) :
  gameOk wordsData sys -> playOk teamsData sys ->
  step sys e = Some sys' -> playOk teamsData sys'.
Proof.
  intros [[_ [_ [w [Hw [Hpos _]]]]] _] [Hteams [Hturn [Htimers Htiles]]] Hstep.
  destruct e as [dt value|dt stored|dt|draws|dt k]; simpl in Hstep.
  - destruct (userMay sys dt && _ && _); [|discriminate].
    injection Hstep as <-. unfold playOk, afterHandler. simpl.
    rewrite app_nil_r. split; [|split; [|split]]; assumption.
  - destruct (userMay sys dt) eqn:Hmay; [|discriminate].
    assert (Hplay : gameState (st sys) = playing).
    { unfold userMay in Hmay. apply andb_true_iff in Hmay. destruct Hmay as [_ Hmay].
      destruct (gameState (st sys)); try discriminate. reflexivity. }
    injection Hstep as <-. unfold playOk, afterHandler. simpl. split; [|split; [|split]].
    + destruct (guessLetter_frame stored (st sys)) as [-> _]. assumption.
    + now apply turnOk_guess.
    + apply passTimersOk_schedule; [assumption | now apply passCallsOk_guess].
    + now apply tilesOk_guess with (w := w).
  - destruct (userMay sys dt) eqn:Hmay; [|discriminate].
    assert (Hplay : gameState (st sys) = playing).
    { unfold userMay in Hmay. apply andb_true_iff in Hmay. destruct Hmay as [_ Hmay].
      destruct (gameState (st sys)); try discriminate. reflexivity. }
    injection Hstep as <-. unfold playOk, afterHandler, passQuestion. simpl. split; [|split; [|split]].
    + rewrite <- Hteams. apply (runCallback_teams (passQuestionCb (capture (st sys)))).
    + apply turnOk_pass; [now apply passClosureOk_capture | assumption].
    + apply passTimersOk_schedule; [assumption|].
      apply (passCallsOk_callback (passQuestionCb (capture (st sys)))).
    + now apply tilesOk_pass.
  - destruct (takeEarliest (timers sys)) as [[t rest]|] eqn:Htake; [|discriminate].
    destruct (hintEffect draws (st sys) (fst (runCallback (callback t) (st sys))))
      as [s'|] eqn:Heff; [|discriminate].
    injection Hstep as <-. unfold playOk. simpl.
    pose proof (takeEarliest_In _ _ _ Htake) as Hin.
    split; [|split; [|split]].
    + destruct (hintEffect_cases _ _ _ _ Heff) as [->|[w' [ps [_ [_ [_ [_ ->]]]]]]];
        cbn; rewrite runCallback_teams; assumption.
    + apply (turnOk_effect _ _ _ _ Heff).
      destruct (callback t) as [r|r|] eqn:Hcb; simpl.
      * apply turnOk_pass; [|assumption]. apply (Htimers t); [|assumption].
        apply Hin. now left.
      * now apply turnOk_nextWord.
      * apply (turnOk_same (st sys)); try assumption; try reflexivity; tauto.
    + apply passTimersOk_schedule; [|apply passCallsOk_callback].
      intros x r Hx Hcb. apply (Htimers x); [|assumption]. apply Hin. now right.
    + now apply (tilesOk_callback (callback t) (st sys) s' draws).
  - destruct (answerMay sys dt); [|discriminate].
    destruct (nth_error (requests sys) k) as [u|]; [|discriminate].
    injection Hstep as <-. unfold playOk. simpl. split; [|split; [|split]].
    + rewrite <- Hteams. apply scoreAnswered_fields.
    + apply (turnOk_same (st sys)); try assumption; try apply scoreAnswered_fields.
      * intros H. rewrite <- H. symmetry. apply scoreAnswered_fields.
      * intros H. rewrite <- H. symmetry. apply scoreAnswered_fields.
    + assumption.
    + apply (tilesOk_same (st sys)); try assumption; try apply scoreAnswered_fields.
      * unfold currentGameWord.
        assert (Hw' : words (scoreAnswered u (st sys)) = words (st sys))
          by apply scoreAnswered_fields.
        assert (Hi' : currentWordIndex (scoreAnswered u (st sys)) = currentWordIndex (st sys))
          by apply scoreAnswered_fields.
        now rewrite Hw', Hi'.
      * intros H. rewrite <- H. symmetry. apply scoreAnswered_fields.
Qed.

Lemma playOk_run (es : list Event) (sys sys' : Sys) :
  gameOk wordsData sys -> playOk teamsData sys ->
  run sys es = Some sys' -> playOk teamsData sys'.
Proof.
  revert sys. induction es as [|e es IH]; intros sys Hgame Hplay Hrun; simpl in Hrun.
  - now injection Hrun as <-.
  - destruct (step sys e) as [mid|] eqn:Hstep; [|discriminate].
    apply (IH mid); [| |assumption].
    + apply (gameOk_step wordsData Hwords sys mid e); assumption.
    + apply (playOk_step sys mid e); assumption.
Qed.

End Play.

Lemma playOk_start (teamsData : list Team) (wordsData : list GameWord) (gameId : Z)
  (draws : list nat) (sys : Sys) :
  startGame teamsData wordsData gameId draws = Some sys -> playOk teamsData sys.
Proof.
  unfold startGame. destruct teamsData as [|team teamsRest]; [discriminate|].
  destruct wordsData as [|w wordsRest]; [discriminate|].
  destruct (forallb _ _); [|discriminate].
  destruct (generateDefaultRevealedPositions _ _) as [ps|] eqn:Hgen; simpl; [|discriminate].
  intros [= <-]. unfold playOk. simpl. split; [|split; [|split]].
  - reflexivity.
  - unfold turnOk. cbn. repeat split; try lia; try discriminate; constructor.
  - intros t r [Ht|[]] Hcb. subst t. discriminate Hcb.
  - apply tilesOk_fresh; try reflexivity; [|cbn; discriminate].
    cbn. now apply generated_hints_distinct in Hgen.
Qed.

(** Every state of a game keeps the invariants. *)
Lemma reachable_ok (teamsData : list Team) (wordsData : list GameWord) (gameId : Z)
  (draws : list nat) (es : list Event) (start sys : Sys) :
  Forall wordOk wordsData ->
  startGame teamsData wordsData gameId draws = Some start ->
  run start es = Some sys ->
  gameOk wordsData sys /\ playOk teamsData sys.
Proof.
  intros Hwords Hstart Hrun.
  pose proof (gameOk_start _ _ _ _ _ Hwords Hstart) as Hgame.
  split.
  - apply (gameOk_run wordsData Hwords es start sys); assumption.
  - apply (playOk_run teamsData wordsData Hwords es start sys); try assumption.
    apply (playOk_start _ _ _ _ _ Hstart).
Qed.

(** ** Every state of a game *)

(** X13.  In every state of a game no position is revealed twice and no
    revealed position is a hint tile; all of them are positions of the
    current word, so there are never more of them than the word has
    letters. *)
Theorem revealed_tiles_are_distinct
  (teamsData : list Team) (wordsData : list GameWord) (gameId : Z) (draws : list nat)
  (start sys : Sys) (es : list Event) :
  Forall wordOk wordsData ->
  startGame teamsData wordsData gameId draws = Some start ->
  run start es = Some sys ->
  NoDup (revealedPositions (st sys) ++ defaultRevealedPositions (st sys))
  /\ exists w,
       currentGameWord (st sys) = Some w
       /\ positionsInWord w (st sys)
       /\ length (revealedPositions (st sys)) + length (defaultRevealedPositions (st sys))
          <= String.length (word w).
Proof.
  intros Hwords Hstart Hrun.
  destruct (reachable_ok _ _ _ _ _ _ _ Hwords Hstart Hrun)
    as [[[_ [_ [w [Hw [Hpos _]]]]] _] [_ [_ [_ [Hnd _]]]]].
  split; [assumption|]. exists w. split; [assumption|]. split; [assumption|].
  rewrite <- length_app, <- (length_seq (String.length (word w)) 0).
  apply NoDup_incl_length; [assumption|].
  intros p Hp. unfold positionsInWord in Hpos. rewrite Forall_forall in Hpos.
  apply in_seq. specialize (Hpos p Hp). lia.
Qed.

(** X14.  In every state of a game each logged guess of the current
    attempt is either a counted wrong guess or a revealed position:
    [guessedLetters] is as long as [wrongGuesses] and [revealedPositions]
    together. *)
Theorem every_guess_is_accounted
  (teamsData : list Team) (wordsData : list GameWord) (gameId : Z) (draws : list nat)
  (start sys : Sys) (es : list Event) :
  Forall wordOk wordsData ->
  startGame teamsData wordsData gameId draws = Some start ->
  run start es = Some sys ->
  length (guessedLetters (st sys))
  = wrongGuesses (st sys) + length (revealedPositions (st sys)).
Proof.
  intros Hwords Hstart Hrun.
  destruct (reachable_ok _ _ _ _ _ _ _ Hwords Hstart Hrun)
    as [_ [_ [_ [_ [_ [Hlen _]]]]]].
  exact Hlen.
Qed.

(** X15.  In every state of a game a revealed position shows a letter that
    was guessed in the current attempt. *)
Theorem revealed_tiles_were_guessed
  (teamsData : list Team) (wordsData : list GameWord) (gameId : Z) (draws : list nat)
  (start sys : Sys) (es : list Event) (w : GameWord) (p : nat) :
  Forall wordOk wordsData ->
  startGame teamsData wordsData gameId draws = Some start ->
  run start es = Some sys ->
  currentGameWord (st sys) = Some w ->
  In p (revealedPositions (st sys)) ->
  exists letter, letterAt w p letter /\ In letter (guessedLetters (st sys)).
Proof.
  intros Hwords Hstart Hrun Hw Hp.
  destruct (reachable_ok _ _ _ _ _ _ _ Hwords Hstart Hrun)
    as [_ [_ [_ [_ [_ [_ Hword]]]]]].
  destruct (Hword w Hw) as [Hguessed _]. now apply Hguessed.
Qed.

(** X16.  In every state of a game there is a current word; in phase Won
    every one of its positions is shown and [displayWord] prints it in full,
    in phase Playing at least one position is still hidden. *)
Theorem won_word_is_shown_in_full
  (teamsData : list Team) (wordsData : list GameWord) (gameId : Z) (draws : list nat)
  (start sys : Sys) (es : list Event) :
  Forall wordOk wordsData ->
  startGame teamsData wordsData gameId draws = Some start ->
  run start es = Some sys ->
  exists w,
    currentGameWord (st sys) = Some w
    /\ (gameState (st sys) = won ->
        covered w (st sys)
        /\ displayWord (st sys) = join " " (JS.split (word w)))
    /\ (gameState (st sys) = playing -> ~ covered w (st sys)).
Proof.
  intros Hwords Hstart Hrun.
  destruct (reachable_ok _ _ _ _ _ _ _ Hwords Hstart Hrun)
    as [[[_ [_ [w [Hw [_ [_ Hopen]]]]]] _] [_ [_ [_ [_ [_ Hword]]]]]].
  destruct (Hword w Hw) as [_ Hwon].
  exists w. split; [assumption|]. split; [|assumption].
  intros Hs. split; [auto|]. apply covered_displays_word; auto.
Qed.

(** X17.  In every state of a game the word with index [i] is assigned to
    team [i mod 4], and the team at play is one of the teams 0 to 3.  While
    a word is played and [isPassedQuestion] is false, the team at play is
    the assigned team and no team has attempted the word: the points of the
    word itself can only go to the team it is assigned to. *)
Theorem full_points_only_for_assigned_team
  (teamsData : list Team) (wordsData : list GameWord) (gameId : Z) (draws : list nat)
  (start sys : Sys) (es : list Event) :
  Forall wordOk wordsData ->
  startGame teamsData wordsData gameId draws = Some start ->
  run start es = Some sys ->
  originalTeamForQuestion (st sys) = currentWordIndex (st sys) mod 4
  /\ currentTeam (st sys) < 4
  /\ (gameState (st sys) = playing -> isPassedQuestion (st sys) = false ->
      currentTeam (st sys) = originalTeamForQuestion (st sys)
      /\ teamsAttempted (st sys) = [])
  /\ (isPassedQuestion (st sys) = true -> teamsAttempted (st sys) <> []).
Proof.
  intros Hwords Hstart Hrun.
  destruct (reachable_ok _ _ _ _ _ _ _ Hwords Hstart Hrun)
    as [_ [_ [[H1 [H2 [_ [_ [_ [H6 [H7 _]]]]]]] _]]].
  tauto.
Qed.

(** X18.  In every state of a game the attempted teams are distinct teams
    among 0 to 3, so at most four; while a word is played the team at play
    is not among them, so at most three have attempted it. *)
Theorem team_at_play_has_not_attempted
  (teamsData : list Team) (wordsData : list GameWord) (gameId : Z) (draws : list nat)
  (start sys : Sys) (es : list Event) :
  Forall wordOk wordsData ->
  startGame teamsData wordsData gameId draws = Some start ->
  run start es = Some sys ->
  NoDup (teamsAttempted (st sys))
  /\ Forall (fun t => t < 4) (teamsAttempted (st sys))
  /\ length (teamsAttempted (st sys)) <= 4
  /\ (gameState (st sys) = playing ->
      ~ In (currentTeam (st sys)) (teamsAttempted (st sys))
      /\ length (teamsAttempted (st sys)) < 4).
Proof.
  intros Hwords Hstart Hrun.
  destruct (reachable_ok _ _ _ _ _ _ _ Hwords Hstart Hrun)
    as [_ [_ [[H1 [_ [H3 [H4 [H5 _]]]]] _]]].
  split; [assumption|]. split; [assumption|].
  split; [now apply four_teams_at_most|].
  intros Hplay. split; [auto|].
  assert (Hle : length (currentTeam (st sys) :: teamsAttempted (st sys)) <= 4).
  { apply four_teams_at_most; constructor; auto. }
  simpl in Hle. lia.
Qed.

(** X19.  In a game with at least four teams the handlers always find what
    they read: in every state there is a current word, a team at
    [currentTeam] and a team at [originalTeamForQuestion], so no handler
    breaks off on a missing word or team. *)
Theorem handlers_find_word_and_team
  (teamsData : list Team) (wordsData : list GameWord) (gameId : Z) (draws : list nat)
  (start sys : Sys) (es : list Event) :
  Forall wordOk wordsData ->
  4 <= length teamsData ->
  startGame teamsData wordsData gameId draws = Some start ->
  run start es = Some sys ->
  teams (st sys) = teamsData
  /\ words (st sys) = wordsData
  /\ exists w team assigned,
       currentGameWord (st sys) = Some w
       /\ nth_error (teams (st sys)) (currentTeam (st sys)) = Some team
       /\ nth_error (teams (st sys)) (originalTeamForQuestion (st sys)) = Some assigned.
Proof.
  intros Hwords Hfour Hstart Hrun.
  destruct (reachable_ok _ _ _ _ _ _ _ Hwords Hstart Hrun)
    as [[[Hw [_ [w [Hcur _]]]] _] [Hteams [[H1 [H2 _]] _]]].
  split; [assumption|]. split; [assumption|].
  destruct (nth_error (teams (st sys)) (currentTeam (st sys))) as [team|] eqn:Ht.
  2: { apply nth_error_None in Ht. rewrite Hteams in Ht. lia. }
  destruct (nth_error (teams (st sys)) (originalTeamForQuestion (st sys)))
    as [assigned|] eqn:Ha.
  2: { apply nth_error_None in Ha. rewrite Hteams, H2 in Ha.
       pose proof (Nat.mod_upper_bound (currentWordIndex (st sys)) 4). lia. }
  exists w, team, assigned. tauto.
Qed.

(** X20.  A word is lost only once all four teams have attempted it: in
    every state of a game in phase Lost the attempted teams are the teams 0,
    1, 2 and 3, each once. *)
Theorem lost_only_after_all_teams_attempted
  (teamsData : list Team) (wordsData : list GameWord) (gameId : Z) (draws : list nat)
  (start sys : Sys) (es : list Event) :
  Forall wordOk wordsData ->
  startGame teamsData wordsData gameId draws = Some start ->
  run start es = Some sys ->
  gameState (st sys) = lost ->
  length (teamsAttempted (st sys)) = 4
  /\ NoDup (teamsAttempted (st sys))
  /\ forall t, In t (teamsAttempted (st sys)) <-> t < 4.
Proof.
  intros Hwords Hstart Hrun Hlost.
  destruct (reachable_ok _ _ _ _ _ _ _ Hwords Hstart Hrun)
    as [_ [_ [[_ [_ [Hnd [Hall [_ [_ [_ Hfour]]]]]]] _]]].
  specialize (Hfour Hlost). pose proof (four_teams_at_most _ Hnd Hall) as Hmost.
  split; [lia|]. split; [assumption|].
  rewrite Forall_forall in Hall. intros t. split; [apply Hall|].
  intros Ht. apply (NoDup_length_incl (l := teamsAttempted (st sys)) (l' := seq 0 4)).
  - assumption.
  - rewrite length_seq. lia.
  - intros x Hx. apply in_seq. specialize (Hall x Hx). lia.
  - apply in_seq. lia.
Qed.

(** X21.  The teams loaded at the start stay for the whole game, so the
    leaderboard of every state has a row for each of them and a first row:
    the winner the final card names always exists. *)
Theorem final_card_has_a_winner
  (teamsData : list Team) (wordsData : list GameWord) (gameId : Z) (draws : list nat)
  (start sys : Sys) (es : list Event) :
  Forall wordOk wordsData ->
  startGame teamsData wordsData gameId draws = Some start ->
  run start es = Some sys ->
  teams (st sys) = teamsData
  /\ length (getTeamScores (st sys)) = length teamsData
  /\ exists winner rest, getTeamScores (st sys) = winner :: rest.
Proof.
  intros Hwords Hstart Hrun.
  destruct (reachable_ok _ _ _ _ _ _ _ Hwords Hstart Hrun) as [_ [Hteams _]].
  assert (Hlen : length (getTeamScores (st sys)) = length teamsData).
  { unfold getTeamScores.
    rewrite <- (Permutation_length (sortByPoints_perm _)).
    rewrite <- Hteams, <- (length_map ts_team), numberedFrom_teams. reflexivity. }
  split; [assumption|]. split; [assumption|].
  destruct (getTeamScores (st sys)) as [|winner rest]; [|eauto].
  exfalso. unfold startGame in Hstart. destruct teamsData; [discriminate|].
  simpl in Hlen. discriminate Hlen.
Qed.

(** * The further statements on the sample game *)

Lemma catDog_ok : Forall wordOk catDog.
Proof.
  unfold catDog. repeat (constructor; [unfold wordOk, wordMaxLength; simpl; lia|]).
  constructor.
Qed.

(** BANANA with the hint tile 0 and position 1 revealed prints as
    [B A _ _ _ _]. *)
Lemma display_shows_what_is_shown_witness :
  displayWord (roundOf banana [1] [0] "") = "B A _ _ _ _"%string
  /\ length (displayTiles (roundOf banana [1] [0] "") banana) = 6
  /\ nth_error (displayTiles (roundOf banana [1] [0] "") banana) 1 = Some "A"%string
  /\ nth_error (displayTiles (roundOf banana [1] [0] "") banana) 3 = Some "_"%string.
Proof.
  destruct (display_shows_what_is_shown (roundOf banana [1] [0] "") banana eq_refl)
    as [H1 [H2 H3]].
  split; [rewrite H1; reflexivity|]. split; [exact H2|]. split.
  - apply (H3 1 "A"%string eq_refl). left. simpl. tauto.
  - apply (H3 3 "A"%string eq_refl). intros [[E|[]]|[E|[]]]; discriminate E.
Defined.

(** AB with the hint tile 0 and position 1 revealed prints as [A B]. *)
Lemma display_is_complete_iff_covered_witness :
  displayWord (roundOf ab [1] [0] "") = join " " (JS.split (word ab))
  <-> covered ab (roundOf ab [1] [0] "").
Proof.
  apply (display_is_complete_iff_covered (roundOf ab [1] [0] "") ab eq_refl).
  simpl. intros [E|[E|[]]]; discriminate E.
Defined.

(** Before any point is scored the Thunder Bolts lead the four teams. *)
Lemma leaderboard_winner_leads_witness :
  exists winner rest,
    getTeamScores (roundOf banana [] [] "") = winner :: rest
    /\ teamNumber winner = 1
    /\ (forall team, In team fourTeams ->
          (scoreOf (gameScores (roundOf banana [] [] "")) (team_id team)
           <= ts_points winner)%Z)
    /\ forall row, In row rest ->
         ts_points row = ts_points winner -> teamNumber winner < teamNumber row.
Proof.
  eassert (H : getTeamScores (roundOf banana [] [] "") = _ :: _) by (vm_compute; reflexivity).
  match type of H with
  | _ = ?winner :: ?rest =>
      exists winner, rest; split; [exact H|]; split; [reflexivity|];
      exact (leaderboard_winner_leads (roundOf banana [] [] "") winner rest H)
  end.
Defined.

(** The row of the Green Eagles is found at index 2 of the teams. *)
Lemma leaderboard_row_finds_its_team_witness :
  originalTeamIndex (roundOf banana [] [] "")
    (mkTeamScore (mkTeam 3 "Green Eagles" "bg-green-500") 3 0)
  = Some (3 - 1).
Proof.
  assert (Hnd : NoDup (map team_id (teams (roundOf banana [] [] "")))).
  { simpl. repeat (constructor; [simpl; intuition discriminate|]). constructor. }
  assert (Hin : In (mkTeamScore (mkTeam 3 "Green Eagles" "bg-green-500") 3 0)
                   (getTeamScores (roundOf banana [] [] ""))).
  { vm_compute. tauto. }
  apply (leaderboard_row_finds_its_team (roundOf banana [] [] "") _ Hnd Hin).
Defined.

(** Guessing n on BANANA logs N. *)
Lemma guess_is_always_logged_witness :
  guessedLetters (fst (guessLetter true (roundOf banana [] [] "n"))) = [] ++ ["N"%string].
Proof.
  apply (guess_is_always_logged true (roundOf banana [] [] "n")). discriminate.
Defined.

(** After guessing n on BANANA a second press of Guess changes nothing. *)
Lemma second_press_does_nothing_witness :
  inputLetter (fst (guessLetter true (roundOf banana [] [] "n"))) = EmptyString
  /\ guessLetter false (fst (guessLetter true (roundOf banana [] [] "n")))
     = (fst (guessLetter true (roundOf banana [] [] "n")), []).
Proof.
  exact (second_press_does_nothing true false (roundOf banana [] [] "n") banana
           (mkTeam 1 "Thunder Bolts" "bg-blue-500") eq_refl eq_refl).
Defined.

(** The scores of the sample game move when the update sent by the guess
    that completes CAT is answered; the update was put in flight by that
    guess. *)
Lemma only_a_winning_guess_moves_scores_witness :
  exists sys sys' sys2,
    runFrom sampleStart (guess 50 "c" ++ guess 50 "a" ++ [Typed 50 "t"]) = Some sys
    /\ step sys (GuessPressed 50 true) = Some sys'
    /\ (forall u, In u (requests sys') ->
          In u (requests sys)
          \/ exists dt stored,
               GuessPressed 50 true = GuessPressed dt stored
               /\ gameState (st sys') = won
               /\ hasGame (st sys) = true
               /\ su_stored u = stored)
    /\ step sys' (ScoreAnswered 10 0) = Some sys2
    /\ gameScores (st sys2) <> gameScores (st sys')
    /\ exists dt k u,
         ScoreAnswered 10 0 = ScoreAnswered dt k
         /\ nth_error (requests sys') k = Some u
         /\ su_stored u = true.
Proof.
  eassert (Hrun : runFrom sampleStart (guess 50 "c" ++ guess 50 "a" ++ [Typed 50 "t"])
                  = Some _) by (vm_compute; reflexivity).
  match type of Hrun with
  | _ = Some ?sys =>
      eassert (Hstep : step sys (GuessPressed 50 true) = Some _)
        by (vm_compute; reflexivity)
  end.
  match type of Hstep with
  | _ = Some ?sys' =>
      eassert (Hanswer : step sys' (ScoreAnswered 10 0) = Some _)
        by (vm_compute; reflexivity)
  end.
  match type of Hanswer with
  | step ?sys' _ = Some ?sys2 =>
      assert (Hchange : gameScores (st sys2) <> gameScores (st sys'))
        by (intros E; vm_compute in E; discriminate E)
  end.
  do 3 eexists. split; [exact Hrun|]. split; [exact Hstep|].
  split; [exact (proj2 (only_a_winning_guess_moves_scores _ _ _ Hstep))|].
  split; [exact Hanswer|]. split; [exact Hchange|].
  exact (proj1 (only_a_winning_guess_moves_scores _ _ _ Hanswer) Hchange).
Defined.

(** In the older revision A on BANANA with both hint tiles on an A costs
    nothing and reveals the hint tile 1. *)
Lemma classic_letter_in_word_is_never_wrong_witness :
  wrongGuesses (fst (Classic.guessLetter true (roundOf banana [] [1; 3] "a"))) = 0
  /\ guessedLetters (fst (Classic.guessLetter true (roundOf banana [] [1; 3] "a")))
     = [] ++ ["A"%string].
Proof.
  assert (Hne : inputLetter (roundOf banana [] [1; 3] "a") <> EmptyString) by discriminate.
  destruct (classic_letter_in_word_is_never_wrong true (roundOf banana [] [1; 3] "a") banana
              Hne eq_refl eq_refl) as [H1 [H2 _]].
  split; [exact H1 | exact H2].
Defined.

(** In the older revision a word of 14 letters gets three hint tiles. *)
Lemma classic_hint_tiles_chosen_witness :
  Classic.generateDefaultRevealedPositions 14 [13; 2; 2; 7; 13; 0; 5] = Some [2; 7; 13]
  /\ length [2; 7; 13] = Nat.min 3 (14 * 3 / 10)
  /\ NoDup [2; 7; 13]
  /\ Forall (fun p => p < 14) [2; 7; 13]
  /\ StronglySorted lt [2; 7; 13].
Proof.
  split; [vm_compute; reflexivity|].
  assert (Hlen : 14 <= wordMaxLength) by (unfold wordMaxLength; lia).
  assert (Hdraws : Forall (fun d => d < 14) [13; 2; 2; 7; 13; 0; 5])
    by (repeat constructor; lia).
  exact (classic_hint_tiles_chosen 14 [13; 2; 2; 7; 13; 0; 5] Hlen Hdraws).
Defined.

(** The sample game after c and a are guessed: positions 0 and 1 of CAT are
    revealed, both distinct and inside the word. *)
Lemma revealed_tiles_are_distinct_witness :
  exists sys,
    runFrom sampleStart (guess 50 "c" ++ guess 50 "a") = Some sys
    /\ revealedPositions (st sys) = [0; 1]
    /\ NoDup (revealedPositions (st sys) ++ defaultRevealedPositions (st sys)).
Proof.
  eassert (Hstart : startGame fourTeams catDog 7 [] = Some _) by (vm_compute; reflexivity).
  match type of Hstart with
  | _ = Some ?start =>
      eassert (Hrun : run start (guess 50 "c" ++ guess 50 "a") = Some _)
        by (vm_compute; reflexivity)
  end.
  destruct (revealed_tiles_are_distinct fourTeams catDog 7 [] _ _ _
              catDog_ok Hstart Hrun) as [Hnd _].
  eexists. split; [exact Hrun|]. split; [reflexivity | exact Hnd].
Defined.

(** After x, c and y are guessed on CAT: three logged guesses, two of them
    wrong and one revealed position. *)
Lemma every_guess_is_accounted_witness :
  exists sys,
    runFrom sampleStart (guess 50 "x" ++ guess 50 "c" ++ guess 50 "y") = Some sys
    /\ wrongGuesses (st sys) = 2
    /\ length (guessedLetters (st sys)) = 2 + length (revealedPositions (st sys)).
Proof.
  eassert (Hstart : startGame fourTeams catDog 7 [] = Some _) by (vm_compute; reflexivity).
  match type of Hstart with
  | _ = Some ?start =>
      eassert (Hrun : run start (guess 50 "x" ++ guess 50 "c" ++ guess 50 "y") = Some _)
        by (vm_compute; reflexivity)
  end.
  pose proof (every_guess_is_accounted fourTeams catDog 7 [] _ _ _
                catDog_ok Hstart Hrun) as Hlen.
  eexists. split; [exact Hrun|]. split; [reflexivity | exact Hlen].
Defined.

(** After c and a are guessed on CAT, position 1 shows a guessed letter. *)
Lemma revealed_tiles_were_guessed_witness :
  exists sys letter,
    runFrom sampleStart (guess 50 "c" ++ guess 50 "a") = Some sys
    /\ letterAt (mkWord 1 "CAT" 10) 1 letter
    /\ In letter (guessedLetters (st sys)).
Proof.
  eassert (Hstart : startGame fourTeams catDog 7 [] = Some _) by (vm_compute; reflexivity).
  match type of Hstart with
  | _ = Some ?start =>
      eassert (Hrun : run start (guess 50 "c" ++ guess 50 "a") = Some _)
        by (vm_compute; reflexivity)
  end.
  match type of Hrun with
  | _ = Some ?sys =>
      assert (Hin : In 1 (revealedPositions (st sys))) by (simpl; tauto);
      destruct (revealed_tiles_were_guessed fourTeams catDog 7 [] _ _ _
                  (mkWord 1 "CAT" 10) 1 catDog_ok Hstart Hrun eq_refl Hin)
        as [letter [Hat Hlog]];
      exists sys, letter
  end.
  split; [exact Hrun|]. split; [exact Hat | exact Hlog].
Defined.

(** Once c, a and t are guessed the sample game is in phase Won and prints
    [C A T]. *)
Lemma won_word_is_shown_in_full_witness :
  exists sys,
    runFrom sampleStart (guess 50 "c" ++ guess 50 "a" ++ guess 50 "t") = Some sys
    /\ gameState (st sys) = won
    /\ displayWord (st sys) = "C A T"%string.
Proof.
  eassert (Hstart : startGame fourTeams catDog 7 [] = Some _) by (vm_compute; reflexivity).
  match type of Hstart with
  | _ = Some ?start =>
      eassert (Hrun : run start (guess 50 "c" ++ guess 50 "a" ++ guess 50 "t") = Some _)
        by (vm_compute; reflexivity)
  end.
  destruct (won_word_is_shown_in_full fourTeams catDog 7 [] _ _ _
              catDog_ok Hstart Hrun) as [w [Hw [Hwon _]]].
  eexists. split; [exact Hrun|]. split; [reflexivity|].
  destruct (Hwon eq_refl) as [_ Hshow]. rewrite Hshow.
  simpl in Hw. injection Hw as <-. reflexivity.
Defined.

(** At its start the sample game is with team 0, to which word 0 is
    assigned. *)
Lemma full_points_only_for_assigned_team_witness :
  exists sys,
    runFrom sampleStart (guess 50 "c") = Some sys
    /\ currentTeam (st sys) = originalTeamForQuestion (st sys)
    /\ teamsAttempted (st sys) = [].
Proof.
  eassert (Hstart : startGame fourTeams catDog 7 [] = Some _) by (vm_compute; reflexivity).
  match type of Hstart with
  | _ = Some ?start =>
      eassert (Hrun : run start (guess 50 "c") = Some _) by (vm_compute; reflexivity)
  end.
  destruct (full_points_only_for_assigned_team fourTeams catDog 7 [] _ _ _
              catDog_ok Hstart Hrun) as [_ [_ [Hfull _]]].
  eexists. split; [exact Hrun|]. exact (Hfull eq_refl eq_refl).
Defined.

(** After two passes team 2 plays and teams 0 and 1 have attempted. *)
Lemma team_at_play_has_not_attempted_witness :
  exists sys,
    runFrom sampleStart [PassPressed 10; PassPressed 10] = Some sys
    /\ currentTeam (st sys) = 2
    /\ teamsAttempted (st sys) = [0; 1]
    /\ ~ In (currentTeam (st sys)) (teamsAttempted (st sys)).
Proof.
  eassert (Hstart : startGame fourTeams catDog 7 [] = Some _) by (vm_compute; reflexivity).
  match type of Hstart with
  | _ = Some ?start =>
      eassert (Hrun : run start [PassPressed 10; PassPressed 10] = Some _)
        by (vm_compute; reflexivity)
  end.
  destruct (team_at_play_has_not_attempted fourTeams catDog 7 [] _ _ _
              catDog_ok Hstart Hrun) as [_ [_ [_ Hplay]]].
  eexists. split; [exact Hrun|]. split; [reflexivity|]. split; [reflexivity|].
  exact (proj1 (Hplay eq_refl)).
Defined.

(** After the late win of the fourth team the sample game still has its
    word and its team. *)
Lemma handlers_find_word_and_team_witness :
  exists sys w team,
    runFrom sampleStart lateWin = Some sys
    /\ currentGameWord (st sys) = Some w
    /\ nth_error (teams (st sys)) (currentTeam (st sys)) = Some team.
Proof.
  eassert (Hstart : startGame fourTeams catDog 7 [] = Some _) by (vm_compute; reflexivity).
  match type of Hstart with
  | _ = Some ?start =>
      eassert (Hrun : run start lateWin = Some _) by (vm_compute; reflexivity)
  end.
  assert (Hfour : 4 <= length fourTeams) by (simpl; lia).
  destruct (handlers_find_word_and_team fourTeams catDog 7 [] _ _ _
              catDog_ok Hfour Hstart Hrun) as [_ [_ [w [team [assigned [Hw [Ht _]]]]]]].
  eexists. exists w, team. split; [exact Hrun|]. split; [exact Hw | exact Ht].
Defined.

(** When the first three teams pass and the fourth misses four times, the
    word is lost with the teams 0 to 3 attempted. *)
Lemma lost_only_after_all_teams_attempted_witness :
  exists sys,
    runFrom sampleStart
      ([PassPressed 10; PassPressed 10; PassPressed 10] ++ fourWrong ++ [TimeoutFired []])
    = Some sys
    /\ gameState (st sys) = lost
    /\ length (teamsAttempted (st sys)) = 4.
Proof.
  eassert (Hstart : startGame fourTeams catDog 7 [] = Some _) by (vm_compute; reflexivity).
  match type of Hstart with
  | _ = Some ?start =>
      eassert (Hrun : run start
                 ([PassPressed 10; PassPressed 10; PassPressed 10] ++ fourWrong
                  ++ [TimeoutFired []]) = Some _)
        by (vm_compute; reflexivity)
  end.
  destruct (lost_only_after_all_teams_attempted fourTeams catDog 7 [] _ _ _
              catDog_ok Hstart Hrun eq_refl) as [Hlen _].
  eexists. split; [exact Hrun|]. split; [reflexivity | exact Hlen].
Defined.

(** The leaderboard of the sample game has four rows after the late win. *)
Lemma final_card_has_a_winner_witness :
  exists sys winner rest,
    runFrom sampleStart lateWin = Some sys
    /\ getTeamScores (st sys) = winner :: rest
    /\ length (getTeamScores (st sys)) = 4.
Proof.
  eassert (Hstart : startGame fourTeams catDog 7 [] = Some _) by (vm_compute; reflexivity).
  match type of Hstart with
  | _ = Some ?start =>
      eassert (Hrun : run start lateWin = Some _) by (vm_compute; reflexivity)
  end.
  destruct (final_card_has_a_winner fourTeams catDog 7 [] _ _ _
              catDog_ok Hstart Hrun) as [_ [Hlen [winner [rest Hrows]]]].
  eexists. exists winner, rest. split; [exact Hrun|]. split; [exact Hrows | exact Hlen].
Defined.
